(** * nepalgeohelper: search, similarity scoring and validation

    A shallow embedding of the classes [NepalGeoData]
    ([src/lib/district-utils.js]), [GeoSearch] ([src/lib/geo-search.js])
    and [LocationValidator], and the properties of the search and
    similarity engine stated in the specification.

    Conventions of the embedding.
    - A JavaScript string is a list of code units.  The code units are
      those of Latin-1 (U+0000 to U+00FF), on which [toLowerCase] maps a
      code unit to a code unit and keeps the length.
    - A JavaScript Number that holds a length, a distance, a count or a
      relevance is an integer ([nat] or [Z]); the three places where the
      source divides ([calculateFuzzyScore], [calculateSimilarity] and the
      completeness weights) use IEEE 754 binary64, with the operations of
      the standard library's [SpecFloat].
    - [Array.prototype.sort] is stable (ECMAScript 2019). *)

From Stdlib Require Import Ascii String.
From Stdlib Require Import ZArith QArith Qpower Lqa Lia Bool List.
From Stdlib Require Import Floats.SpecFloat.
From Stdlib Require Import Sorting.Permutation Sorting.Sorted.
Import ListNotations.

Close Scope Q_scope.
Set Implicit Arguments.

(* ================================================================== *)
(** * JavaScript strings and arrays *)
(* ================================================================== *)

Module JS.

Definition jstring := list ascii.

(** String literals of the development. *)
Definition str (s : string) : jstring := list_ascii_of_string s.

Definition code (c : ascii) : nat := nat_of_ascii c.

Definition ascii_eqb (a b : ascii) : bool := Ascii.eqb a b.

Fixpoint jeqb (a b : jstring) : bool :=
  match a, b with
  | [], [] => true
  | x :: a', y :: b' => ascii_eqb x y && jeqb a' b'
  | _, _ => false
  end.

(** [String.prototype.toLowerCase] on one Latin-1 code unit: A-Z and the
    accented capitals U+00C0..U+00DE (but the sign U+00D7) move by 32. *)
Definition lower_char (c : ascii) : ascii :=
  let n := code c in
  if ((65 <=? n) && (n <=? 90))
     || ((192 <=? n) && (n <=? 222) && negb (n =? 215))
  then ascii_of_nat (n + 32) else c.

Definition toLowerCase (s : jstring) : jstring := map lower_char s.

(** White space and line terminators of ECMAScript below U+0100: TAB, LF,
    VT, FF, CR, SP and NBSP.  This is the set [trim] strips and the class
    [\s] of a regular expression. *)
Definition is_space (c : ascii) : bool :=
  let n := code c in
  ((9 <=? n) && (n <=? 13)) || (n =? 32) || (n =? 160).

Fixpoint trimStart (s : jstring) : jstring :=
  match s with
  | c :: s' => if is_space c then trimStart s' else s
  | [] => []
  end.

Definition trim (s : jstring) : jstring :=
  rev (trimStart (rev (trimStart s))).

Fixpoint startsWith (s q : jstring) : bool :=
  match q, s with
  | [], _ => true
  | y :: q', x :: s' => ascii_eqb x y && startsWith s' q'
  | _ :: _, [] => false
  end.

Fixpoint includes (s q : jstring) : bool :=
  startsWith s q ||
  match s with
  | [] => false
  | _ :: s' => includes s' q
  end.

(** [s.split(sep)] for a separator that matches exactly one code unit (a
    one-character string, or a character class): the pieces between the
    separators, empty pieces included; the empty string gives [[""]]. *)
Fixpoint split_on (sep : ascii -> bool) (s : jstring) : list jstring :=
  match s with
  | [] => [[]]
  | c :: s' =>
      if sep c then [] :: split_on sep s'
      else match split_on sep s' with
           | w :: ws => (c :: w) :: ws
           | [] => [[c]]
           end
  end.

(** [s.charAt(i)]: the one-character string at [i], or [""] out of range. *)
Definition charAt (s : jstring) (i : nat) : jstring := firstn 1 (skipn i s).

(** [a.join('')] on an array of strings. *)
Definition join (l : list jstring) : jstring := concat l.

(** [/^\d{5}$/.test(s)]; without the [m] flag [$] matches at the end of
    the input only. *)
Definition is_digit (c : ascii) : bool :=
  let n := code c in (48 <=? n) && (n <=? 57).

Definition is_five_digits (s : jstring) : bool :=
  (length s =? 5) && forallb is_digit s.

(** [a.slice(0, limit)] for a [limit] that is a count. *)
Definition slice0 {A} (l : list A) (limit : nat) : list A := firstn limit l.

(** [a[j] = v] on an array: in range it replaces, at [j = a.length] it
    appends, beyond it the array is extended (the holes read as [d]). *)
Definition arr_set {A} (d : A) (l : list A) (j : nat) (v : A) : list A :=
  firstn j l ++ repeat d (j - length l) ++ v :: skipn (S j) l.

(** [a.find(p)] *)
Fixpoint find {A} (p : A -> bool) (l : list A) : option A :=
  match l with
  | [] => None
  | x :: l' => if p x then Some x else find p l'
  end.

(** A stable sort by insertion, for a comparator [cmp a b] whose sign
    orders [a] and [b] as [Array.prototype.sort] reads it: [a] stays before
    [b] unless [cmp a b > 0]. *)
Fixpoint sort_insert {A} (cmp : A -> A -> Z) (x : A) (l : list A) : list A :=
  match l with
  | [] => [x]
  | y :: l' => if (0 <? cmp x y)%Z then y :: sort_insert cmp x l' else x :: l
  end.

Definition sort {A} (cmp : A -> A -> Z) (l : list A) : list A :=
  fold_right (sort_insert cmp) [] l.

(** The order of [Array.prototype.sort] without a comparator, on strings:
    code unit by code unit, a proper prefix first. *)
Fixpoint compare_code_units (a b : jstring) : Z :=
  match a, b with
  | [], [] => 0%Z
  | [], _ :: _ => (-1)%Z
  | _ :: _, [] => 1%Z
  | x :: a', y :: b' =>
      if code x <? code y then (-1)%Z
      else if code y <? code x then 1%Z
      else compare_code_units a' b'
  end.

(** [a.map(f).filter(Boolean)] for an [f] that gives an object or [null] *)
Fixpoint filter_map {A B} (f : A -> option B) (l : list A) : list B :=
  match l with
  | [] => []
  | x :: l' =>
      match f x with
      | Some y => y :: filter_map f l'
      | None => filter_map f l'
      end
  end.

End JS.

(* ================================================================== *)
(** * IEEE 754 binary64, the JavaScript Number type *)
(* ================================================================== *)

Module Float64.

Definition prec : Z := 53.
Definition emax : Z := 1024.

Definition number := spec_float.

(** The Number of an integer (exact below 2^53, rounded above). *)
Definition of_Z (z : Z) : number := binary_normalize prec emax z 0 false.
Definition of_nat (n : nat) : number := of_Z (Z.of_nat n).

Definition add : number -> number -> number := SFadd prec emax.
Definition sub : number -> number -> number := SFsub prec emax.
Definition mul : number -> number -> number := SFmul prec emax.
Definition div : number -> number -> number := SFdiv prec emax.

(** [a > b], [a >= b] and [a < b]; false when an operand is NaN. *)
Definition gtb (a b : number) : bool := SFltb b a.
Definition geb (a b : number) : bool := SFleb b a.
Definition ltb (a b : number) : bool := SFltb a b.
Definition eqb (a b : number) : bool := SFeqb a b.

(** A decimal literal [n/d] of the source, correctly rounded. *)
Definition literal (n d : Z) : number := div (of_Z n) (of_Z d).

Definition lit_0_6 : number := Eval vm_compute in literal 6 10.
Definition lit_0_3 : number := Eval vm_compute in literal 3 10.
Definition lit_0_2 : number := Eval vm_compute in literal 2 10.
Definition lit_0_15 : number := Eval vm_compute in literal 15 100.
Definition lit_0_8 : number := Eval vm_compute in literal 8 10.

(** [Math.round]: the integer nearest to [x], a tie going up, computed
    exactly as [floor (x + 1/2)].  The result is given as an integer; on
    NaN and the infinities, where JavaScript returns its argument, the
    model gives 0. *)
Definition Math_round (x : number) : Z :=
  match x with
  | S754_finite s m e =>
      let v := if s then Z.neg m else Z.pos m in
      if (0 <=? e)%Z then (v * 2 ^ e)%Z
      else ((2 * v + 2 ^ (- e)) / 2 ^ (1 - e))%Z
  | _ => 0%Z
  end.

(** The sign of a comparator's result, as [Array.prototype.sort] reads
    it (NaN counts as 0). *)
Definition sign (x : number) : Z :=
  match x with
  | S754_finite s _ _ | S754_infinity s => if s then (-1)%Z else 1%Z
  | _ => 0%Z
  end.

(** [Number.isInteger] *)
Definition isInteger (x : number) : bool :=
  match x with
  | S754_zero _ => true
  | S754_finite _ m e =>
      (0 <=? e)%Z || (Z.pos m mod 2 ^ (- e) =? 0)%Z
  | _ => false
  end.

(** [Math.round] with its result as a Number: NaN, the infinities and the
    zeros are returned as they are, and a value that rounds to zero keeps
    its sign. *)
Definition Math_round_number (x : number) : number :=
  match x with
  | S754_finite s _ _ =>
      if (Math_round x =? 0)%Z then S754_zero s else of_Z (Math_round x)
  | _ => x
  end.

End Float64.

(* ================================================================== *)
(** * Outcomes of calls that may throw, and dynamically typed arguments *)
(* ================================================================== *)

Inductive error : Type :=
| TypeError
| Error (message : JS.jstring).

Inductive outcome (A : Type) : Type :=
| Returns (a : A)
| Throws (e : error).

Arguments Returns {A} a.
Arguments Throws {A} e.

Definition bind {A B} (o : outcome A) (k : A -> outcome B) : outcome B :=
  match o with
  | Returns a => k a
  | Throws e => Throws e
  end.

Notation "x <- o ;; k" := (bind o (fun x => k))
  (at level 61, o at next level, right associativity).

(** The values a caller may pass where the source expects a string, an
    address object or an array.  An object is its own enumerable data
    properties; it has no methods. *)
#[local] Set Warnings "-register-all".
Inductive value : Type :=
| VUndefined
| VNull
| VBool (b : bool)
| VNum (n : Float64.number)
| VStr (s : JS.jstring)
| VArr (items : list value)
| VObj (fields : list (JS.jstring * value)).

Module Value.
Import JS.

(** ToBoolean *)
Definition truthy (v : value) : bool :=
  match v with
  | VUndefined | VNull => false
  | VBool b => b
  | VNum (S754_zero _) | VNum S754_nan => false
  | VNum _ => true
  | VStr s => negb (jeqb s [])
  | VArr _ | VObj _ => true
  end.

(** [typeof v === 'object'] *)
Definition typeof_object (v : value) : bool :=
  match v with
  | VNull | VArr _ | VObj _ => true
  | _ => false
  end.

Definition is_string (v : value) : bool :=
  match v with VStr _ => true | _ => false end.

Definition is_array (v : value) : bool :=
  match v with VArr _ => true | _ => false end.

Fixpoint lookup {A} (k : jstring) (l : list (jstring * A)) : option A :=
  match l with
  | [] => None
  | (k', v) :: l' => if jeqb k' k then Some v else lookup k l'
  end.

(** [v.field] for one of the five address fields, on a value that is not
    [undefined] or [null]: a missing property reads as [undefined], and
    so does every such property of a string, a number, a boolean or an
    array. *)
Definition get (v : value) (field : jstring) : value :=
  match v with
  | VObj fields =>
      match lookup field fields with
      | Some x => x
      | None => VUndefined
      end
  | _ => VUndefined
  end.

End Value.

(* ================================================================== *)
(** * The records of the data model *)
(* ================================================================== *)

(** One row of [postal_data]: the four columns of the source table. *)
Module RawEntry.
Record t : Type := make {
  District : JS.jstring;
  Post_Office : JS.jstring;
  Postal_Pin_Code : JS.jstring;
  Post_Office_Type : JS.jstring
}.
End RawEntry.

Module PostOffice.
Record t : Type := make {
  name : JS.jstring;
  postalCode : JS.jstring;
  type : JS.jstring;
  district : JS.jstring
}.
End PostOffice.

Module District.
Record t : Type := make {
  name : JS.jstring;
  postOfficeCount : nat;
  postOffices : list PostOffice.t
}.
End District.

Inductive ResultType : Type := RDistrict | RPostOffice.

Inductive MatchType : Type :=
| exact | exact_postal | prefix | contains | postal_code | fuzzy
| advanced_search.

(** A search result.  [NepalGeoData.search] leaves [matchType] undefined
    and gives a district neither [district] nor [postalCode]. *)
Module SearchResult.
Record t : Type := make {
  type : ResultType;
  name : JS.jstring;
  district : option JS.jstring;
  postalCode : option JS.jstring;
  relevance : Z;
  matchType : option MatchType
}.
End SearchResult.

(** The [includeType] option of a search and the [type] argument of
    [NepalGeoData.search]; any string but the three named ones selects
    nothing. *)
Inductive Scope : Type := ScopeAll | ScopeDistrict | ScopePostOffice | ScopeOther.

(* ================================================================== *)
(** * lib/geo-data.js: class NepalGeoData *)
(* ================================================================== *)

Module NepalGeoData.
Import JS.

(** [this.districts] is a plain object keyed by district name: the pairs
    are kept in insertion order.  [this.postOffices] is an array. *)
Record t : Type := make {
  districts : list (jstring * District.t);
  postOffices : list PostOffice.t
}.

(** The names every plain object inherits from [Object.prototype].  A
    lookup [obj[k]] with such a [k] finds a built-in function or object
    and not a string. *)
Definition inherited_property (k : jstring) : bool :=
  existsb (jeqb k)
    (map str ["constructor"; "toString"; "toLocaleString"; "valueOf";
              "hasOwnProperty"; "isPrototypeOf"; "propertyIsEnumerable";
              "__proto__"; "__defineGetter__"; "__defineSetter__";
              "__lookupGetter__"; "__lookupSetter__"]%string).

(** A canonical array index: the decimal form, without leading zeros, of
    an integer below 2^32 - 1.  An object enumerates such keys first, in
    numeric order, and then the other keys in insertion order. *)
Definition decimal_value (k : jstring) : N :=
  fold_left (fun acc c => (10 * acc + N.of_nat (code c - 48))%N) k 0%N.

Definition array_index (k : jstring) : option N :=
  match k with
  | [] => None
  | c :: k' =>
      if forallb is_digit k
         && (negb (code c =? 48) || (length k' =? 0))
         && (length k <=? 10)
         && (decimal_value k <? 4294967295)%N
      then Some (decimal_value k) else None
  end.

Definition is_array_index (k : jstring) : bool :=
  match array_index k with Some _ => true | None => false end.

Definition index_cmp {A} (a b : jstring * A) : Z :=
  (Z.of_N (decimal_value (fst a)) - Z.of_N (decimal_value (fst b)))%Z.

(** [Object.values(obj)] and [Object.keys(obj)] *)
Definition own_properties {A} (obj : list (jstring * A)) : list (jstring * A) :=
  sort index_cmp (filter (fun kv => is_array_index (fst kv)) obj)
  ++ filter (fun kv => negb (is_array_index (fst kv))) obj.

Definition Object_values {A} (obj : list (jstring * A)) : list A :=
  map snd (own_properties obj).

Definition Object_keys {A} (obj : list (jstring * A)) : list jstring :=
  map fst (own_properties obj).

(** [obj[k] = v] for an own property: an existing key keeps its place. *)
Fixpoint set_property {A} (obj : list (jstring * A)) (k : jstring) (v : A)
  : list (jstring * A) :=
  match obj with
  | [] => [(k, v)]
  | (k', v') :: obj' =>
      if jeqb k' k then (k', v) :: obj' else (k', v') :: set_property obj' k v
  end.

Definition corrections : list (jstring * jstring) :=
  [ (str "Chitawan", str "Chitwan");
    (str "Kaverpalanchok", str "Kavrepalanchok");
    (str "Makabanpur", str "Makawanpur");
    (str "Taplajung", str "Taplejung");
    (str "Kailal", str "Kailali");
    (str "Syanja", str "Syangja") ].

(** [normalizeDistrictName]: [corrections[normalized] || normalized].
    For a name inherited from [Object.prototype] the lookup yields a
    function, which [||] returns in place of a string: the model gives
    [None] there, and does not follow such a record further. *)
Definition normalizeDistrictName (district : jstring) : option jstring :=
  let normalized := trim district in
  if inherited_property normalized then None
  else match Value.lookup normalized corrections with
       | Some fixed => Some fixed
       | None => Some normalized
       end.

(** One step of the [forEach] of [processData]. *)
Definition process_entry (st : t) (entry : RawEntry.t) : option t :=
  match normalizeDistrictName (RawEntry.District entry) with
  | None => None
  | Some district =>
      let postOffice :=
        PostOffice.make (RawEntry.Post_Office entry)
                        (RawEntry.Postal_Pin_Code entry)
                        (RawEntry.Post_Office_Type entry)
                        district in
      let d :=
        match Value.lookup district (districts st) with
        | Some d => d
        | None => District.make district 0 []
        end in
      Some (make
              (set_property (districts st) district
                 (District.make (District.name d)
                    (S (District.postOfficeCount d))
                    (District.postOffices d ++ [postOffice])))
              (postOffices st ++ [postOffice]))
  end.

(** [processData], on the rows of [this.data.postal_data]. *)
Fixpoint process_entries (st : t) (l : list RawEntry.t) : option t :=
  match l with
  | [] => Some st
  | entry :: l' =>
      match process_entry st entry with
      | Some st' => process_entries st' l'
      | None => None
      end
  end.

Definition processData (postal_data : list RawEntry.t) : option t :=
  process_entries (make [] []) postal_data.

Definition getAllDistricts (st : t) : list District.t :=
  Object_values (districts st).

Definition getDistrictByName (st : t) (name : jstring) : option District.t :=
  let normalizedName := trim (toLowerCase name) in
  match find (fun key => jeqb (toLowerCase key) normalizedName)
             (Object_keys (districts st)) with
  | Some districtKey =>
      (* [districtKey ? this.districts[districtKey] : null] *)
      if jeqb districtKey [] then None
      else Value.lookup districtKey (districts st)
  | None => None
  end.

Definition getAllPostOffices (st : t) : list PostOffice.t := postOffices st.

Definition getPostOfficeByCode (st : t) (postalCode : jstring)
  : option PostOffice.t :=
  find (fun po => jeqb (PostOffice.postalCode po) postalCode) (postOffices st).

(** ** Similarity engine *)

Definition mget (matrix : list (list nat)) (i j : nat) : nat :=
  nth j (nth i matrix []) 0.

Definition mset (matrix : list (list nat)) (i j v : nat) : list (list nat) :=
  arr_set [] matrix i (arr_set 0 (nth i matrix []) j v).

(** The matrix that [levenshteinDistance] (and, with the same loops,
    [LocationValidator.calculateSimilarity]) fills: one row per prefix
    of [str2], one column per prefix of [str1]. *)
Definition cell (str1 str2 : jstring) (matrix : list (list nat)) (i j : nat)
  : nat :=
  if jeqb (charAt str2 (i - 1)) (charAt str1 (j - 1))
  then mget matrix (i - 1) (j - 1)
  else Nat.min (mget matrix (i - 1) (j - 1) + 1)
               (Nat.min (mget matrix i (j - 1) + 1)
                        (mget matrix (i - 1) j + 1)).

Definition distance_matrix (str1 str2 : jstring) : list (list nat) :=
  let matrix := [] in
  let matrix :=
    fold_left (fun m i => arr_set [] m i [i]) (seq 0 (S (length str2))) matrix in
  let matrix :=
    fold_left (fun m j => mset m 0 j j) (seq 0 (S (length str1))) matrix in
  fold_left
    (fun m i =>
       fold_left (fun m j => mset m i j (cell str1 str2 m i j))
                 (seq 1 (length str1)) m)
    (seq 1 (length str2)) matrix.

Definition levenshteinDistance (str1 str2 : jstring) : nat :=
  mget (distance_matrix str1 str2) (length str2) (length str1).

Definition abbreviations : list (jstring * jstring) :=
  [ (str "ktm", str "kathmandu");
    (str "pok", str "pokhara");
    (str "pokhra", str "pokhara");
    (str "lalitpurr", str "lalitpur");
    (str "bhkt", str "bhaktapur");
    (str "bkt", str "bhaktapur");
    (str "chitawan", str "chitwan");
    (str "chit", str "chitwan") ].

Definition is_word_break (c : ascii) : bool :=
  is_space c || (code c =? 45).

(** [calculateFuzzyScore]: abbreviation table, acronym, then edit
    distance.  (A [query] that names a member of [Object.prototype] finds
    a function in the table, whose text has capital letters; the lower-
    cased [text] that [calculateRelevance] passes never includes it, so
    the table is read as a plain map.) *)
Definition calculateFuzzyScore (text query : jstring) : Z :=
  if match Value.lookup query abbreviations with
     | Some full => includes text full
     | None => false
     end
  then 75%Z
  else if existsb (fun '(abbrev, full) => jeqb query full && includes text abbrev)
                  abbreviations
  then 75%Z
  else if (2 <=? length query) && (length query <=? 4)
          && (let words := split_on is_word_break text in
              (length query <=? length words)
              && jeqb (join (map (fun w => charAt w 0)
                                 (firstn (length query) words)))
                      query)
  then 70%Z
  else
    let distance := levenshteinDistance text query in
    let maxLength := Nat.max (length text) (length query) in
    let similarity :=
      Float64.sub (Float64.of_Z 1)
        (Float64.div (Float64.of_nat distance) (Float64.of_nat maxLength)) in
    if Float64.gtb similarity Float64.lit_0_6
    then Float64.Math_round (Float64.mul similarity (Float64.of_Z 50))
    else 0%Z.

Definition calculateRelevance (text query : jstring) : Z :=
  let normalizedText := toLowerCase text in
  let normalizedQuery := toLowerCase query in
  if jeqb normalizedText normalizedQuery then 100%Z
  else if startsWith normalizedText normalizedQuery then 80%Z
  else if includes normalizedText normalizedQuery then 60%Z
  else
    let fuzzyScore := calculateFuzzyScore normalizedText normalizedQuery in
    if (0 <? fuzzyScore)%Z then fuzzyScore
    else
      let queryWords := split_on (fun c => code c =? 32) normalizedQuery in
      fold_left
        (fun score word =>
           if includes normalizedText word then (score + 20)%Z else score)
        queryWords 0%Z.

(** The comparator [(a, b) => b.relevance - a.relevance] *)
Definition by_score (a b : SearchResult.t) : Z :=
  (SearchResult.relevance b - SearchResult.relevance a)%Z.

Definition includes_district (type : Scope) : bool :=
  match type with ScopeAll | ScopeDistrict => true | _ => false end.

Definition includes_postOffice (type : Scope) : bool :=
  match type with ScopeAll | ScopePostOffice => true | _ => false end.

Definition search (st : t) (query : jstring) (type : Scope)
  : list SearchResult.t :=
  let normalizedQuery := trim (toLowerCase query) in
  let results := [] in
  let results :=
    if includes_district type then
      fold_left
        (fun results district =>
           let relevance :=
             calculateRelevance (District.name district) normalizedQuery in
           if (0 <? relevance)%Z
           then results ++
                [SearchResult.make RDistrict (District.name district)
                                   None None relevance None]
           else results)
        (Object_values (districts st)) results
    else results in
  let results :=
    if includes_postOffice type then
      fold_left
        (fun results po =>
           let nameRelevance :=
             calculateRelevance (PostOffice.name po) normalizedQuery in
           let postalRelevance :=
             if includes (PostOffice.postalCode po) query then 90%Z else 0%Z in
           let maxRelevance := Z.max nameRelevance postalRelevance in
           if (0 <? maxRelevance)%Z
           then results ++
                [SearchResult.make RPostOffice (PostOffice.name po)
                                   (Some (PostOffice.district po))
                                   (Some (PostOffice.postalCode po))
                                   maxRelevance None]
           else results)
        (postOffices st) results
    else results in
  sort by_score (filter (fun r => (20 <? SearchResult.relevance r)%Z) results).

(** ** Reading the table *)

(** One turn of the loop of [parseCSVLine], on the fields pushed so far,
    the field being read and the flag [inQuotes]. *)
Definition csv_step (state : list jstring * jstring * bool) (char : ascii)
  : list jstring * jstring * bool :=
  let '(fields, current, inQuotes) := state in
  if code char =? 34 then (fields, current, negb inQuotes)
  else if (code char =? 44) && negb inQuotes
       then (fields ++ [trim current], [], inQuotes)
       else (fields, current ++ [char], inQuotes).

Definition parseCSVLine (line : jstring) : list jstring :=
  let '(fields, current, _) := fold_left csv_step line ([], [], false) in
  fields ++ [trim current].

(** [parseCSV]: the first line is the header; a line with fewer than four
    fields gives no record, and fields after the fourth are dropped. *)
Definition parseCSV (csvData : jstring) : list RawEntry.t :=
  let lines := split_on (fun c => code c =? 10) (trim csvData) in
  fold_left
    (fun data line =>
       match parseCSVLine line with
       | f0 :: f1 :: f2 :: f3 :: _ => data ++ [RawEntry.make f0 f1 f2 f3]
       | _ => data
       end)
    (skipn 1 lines) [].

(** ** Statistics *)

Record Statistics : Type := mkStatistics {
  totalDistricts : nat;
  totalPostOffices : nat;
  averagePostOfficesPerDistrict : Float64.number
}.

Definition getStatistics (st : t) : Statistics :=
  mkStatistics
    (length (Object_keys (districts st)))
    (length (postOffices st))
    (Float64.div
       (Float64.Math_round_number
          (Float64.mul
             (Float64.div (Float64.of_nat (length (postOffices st)))
                          (Float64.of_nat (length (Object_keys (districts st)))))
             (Float64.of_Z 100)))
       (Float64.of_Z 100)).

End NepalGeoData.

(* ================================================================== *)
(** * lib/geo-search.js: class GeoSearch *)
(* ================================================================== *)

Inductive SortBy : Type := ByRelevance | ByName | ByDistrict.

Module GeoSearch.
Import JS.

(** The options of [searchByQuery], with the defaults of its destructuring
    pattern.  A [sortBy] other than ['name'] and ['district'] takes the
    [default] branch of [sortResults], as ['relevance'] does. *)
Record QueryOptions : Type := mkQueryOptions {
  limit : nat;
  minRelevance : Float64.number;
  includeType : Scope;
  sortBy : SortBy
}.

Definition default_options : QueryOptions :=
  mkQueryOptions 10 Float64.lit_0_3 ScopeAll ByRelevance.

Definition searchByPostalCode (st : NepalGeoData.t) (postalCode : jstring)
  : option PostOffice.t :=
  NepalGeoData.getPostOfficeByCode st postalCode.

Definition determineMatchType (query : jstring) (result : SearchResult.t)
  : MatchType :=
  let normalizedQuery := toLowerCase query in
  let normalizedName := toLowerCase (SearchResult.name result) in
  if jeqb normalizedName normalizedQuery then exact
  else if startsWith normalizedName normalizedQuery then prefix
  else if includes normalizedName normalizedQuery then contains
  else if match SearchResult.postalCode result with
          | Some code => negb (jeqb code []) && includes code query
          | None => false
          end
  then postal_code
  else fuzzy.

Definition type_name (ty : ResultType) : jstring :=
  match ty with
  | RDistrict => str "district"
  | RPostOffice => str "postOffice"
  end.

(** [x || ''] for an optional string *)
Definition or_empty (x : option jstring) : jstring :=
  match x with Some s => s | None => [] end.

Definition dedup_key (result : SearchResult.t) : jstring :=
  type_name (SearchResult.type result) ++ str "-"
  ++ SearchResult.name result ++ str "-"
  ++ or_empty (SearchResult.district result) ++ str "-"
  ++ or_empty (SearchResult.postalCode result).

(** [removeDuplicates]: a [filter] whose callback records each key it
    lets through in the set [seen]. *)
Fixpoint remove_seen (seen : list jstring) (results : list SearchResult.t)
  : list SearchResult.t :=
  match results with
  | [] => []
  | result :: rest =>
      let key := dedup_key result in
      if existsb (jeqb key) seen then remove_seen seen rest
      else result :: remove_seen (key :: seen) rest
  end.

Definition removeDuplicates (results : list SearchResult.t)
  : list SearchResult.t :=
  remove_seen [] results.

(** [matchTypePriority[m] || 0] *)
Definition matchTypePriority (m : option MatchType) : Z :=
  match m with
  | Some exact | Some exact_postal => 5
  | Some prefix => 4
  | Some contains => 3
  | Some postal_code => 2
  | Some fuzzy | Some advanced_search => 1
  | None => 0
  end.

Definition by_relevance (a b : SearchResult.t) : Z :=
  let aPriority := matchTypePriority (SearchResult.matchType a) in
  let bPriority := matchTypePriority (SearchResult.matchType b) in
  if negb (aPriority =? bPriority)%Z then (bPriority - aPriority)%Z
  else (SearchResult.relevance b - SearchResult.relevance a)%Z.

Section WithCollation.

(** [String.prototype.localeCompare] depends on the locale of the host;
    the two sort modes that use it take it as a parameter. *)
Variable localeCompare : jstring -> jstring -> Z.

Definition sortResults (results : list SearchResult.t) (sortBy : SortBy)
  : list SearchResult.t :=
  match sortBy with
  | ByName =>
      sort (fun a b =>
              localeCompare (SearchResult.name a) (SearchResult.name b))
           results
  | ByDistrict =>
      sort (fun a b =>
              let districtCompare :=
                localeCompare (or_empty (SearchResult.district a))
                              (or_empty (SearchResult.district b)) in
              if negb (districtCompare =? 0)%Z then districtCompare
              else localeCompare (SearchResult.name a) (SearchResult.name b))
           results
  | ByRelevance => sort by_relevance results
  end.

(** [searchByQuery].  Only a non-empty string passes the guard. *)
Definition searchByQuery (st : NepalGeoData.t) (query : value)
           (options : QueryOptions) : list SearchResult.t :=
  match query with
  | VStr query =>
      if jeqb query [] then []
      else
        let results := [] in
        let results :=
          if is_five_digits (trim query) then
            match searchByPostalCode st (trim query) with
            | Some postalResult =>
                results ++
                [SearchResult.make RPostOffice
                   (PostOffice.name postalResult)
                   (Some (PostOffice.district postalResult))
                   (Some (PostOffice.postalCode postalResult))
                   100 (Some exact_postal)]
            | None => results
            end
          else results in
        let searchResults :=
          NepalGeoData.search st query (includeType options) in
        let results :=
          fold_left
            (fun results result =>
               if Float64.geb (Float64.of_Z (SearchResult.relevance result))
                              (minRelevance options)
               then results ++
                    [SearchResult.make
                       (SearchResult.type result)
                       (SearchResult.name result)
                       (SearchResult.district result)
                       (SearchResult.postalCode result)
                       (SearchResult.relevance result)
                       (Some (determineMatchType query result))]
               else results)
            searchResults results in
        let results := removeDuplicates results in
        let results := sortResults results (sortBy options) in
        slice0 results (limit options)
  | _ => []
  end.

End WithCollation.

(** A result of [searchDistricts]: the four fields of a district result
    and, with [includeStats], [stats = {postOfficeCount, hasMainOffice}]. *)
Record DistrictResult : Type := mkDistrictResult {
  result : SearchResult.t;
  stats : option (nat * bool)
}.

Definition is_main_office (po : PostOffice.t) : bool :=
  jeqb (PostOffice.type po) (str "D.P.O.")
  || jeqb (PostOffice.type po) (str "G.P.O.").

(** [searchDistricts] has no guard: on a [query] that is not a string,
    [query.toLowerCase()] in [NepalGeoData.search] throws a TypeError. *)
Definition searchDistricts (st : NepalGeoData.t) (query : value)
           (limit : nat) (includeStats : bool)
  : outcome (list DistrictResult) :=
  match query with
  | VStr query =>
      let results := NepalGeoData.search st query ScopeDistrict in
      Returns
        (map
           (fun result =>
              let district :=
                NepalGeoData.getDistrictByName st (SearchResult.name result) in
              let searchResult :=
                SearchResult.make RDistrict (SearchResult.name result)
                                  None None (SearchResult.relevance result)
                                  (Some (determineMatchType query result)) in
              mkDistrictResult searchResult
                (match district with
                 | Some district =>
                     if includeStats
                     then Some (District.postOfficeCount district,
                                existsb is_main_office
                                        (District.postOffices district))
                     else None
                 | None => None
                 end))
           (slice0 results limit))
  | _ => Throws TypeError
  end.

(** [new Set()], [add] and [Array.from]: the members in insertion order. *)
Definition set_add (s : list jstring) (x : jstring) : list jstring :=
  if existsb (jeqb x) s then s else s ++ [x].

(** [getSuggestions], with the defaults [limit = 5] and [type = 'all']. *)
Definition getSuggestions (st : NepalGeoData.t) (partialQuery : jstring)
           (limit : nat) (type : Scope) : list jstring :=
  if jeqb partialQuery [] || (length partialQuery <? 2) then []
  else
    let normalizedQuery := toLowerCase partialQuery in
    let suggestions := [] in
    let suggestions :=
      if NepalGeoData.includes_district type then
        fold_left
          (fun suggestions district =>
             if startsWith (toLowerCase (District.name district)) normalizedQuery
             then set_add suggestions (District.name district)
             else suggestions)
          (NepalGeoData.getAllDistricts st) suggestions
      else suggestions in
    let suggestions :=
      if NepalGeoData.includes_postOffice type then
        fold_left
          (fun suggestions po =>
             if startsWith (toLowerCase (PostOffice.name po)) normalizedQuery
             then set_add suggestions (PostOffice.name po)
             else suggestions)
          (NepalGeoData.getAllPostOffices st) suggestions
      else suggestions in
    slice0 suggestions limit.

(** ** [searchPostOffices] *)

(** The options of [searchPostOffices]; [district] and [type] are [null]
    by default and may be any value. *)
Record PostOfficeOptions : Type := mkPostOfficeOptions {
  po_limit : nat;
  po_district : value;
  po_type : value;
  includeDetails : bool
}.

(** A result of [searchPostOffices]: the six fields of a post office
    result and, with [includeDetails], [officeType] and [isMainOffice]. *)
Record PostOfficeResult : Type := mkPostOfficeResult {
  office : SearchResult.t;
  details : option (jstring * bool)
}.

(** [p.name === result.name && p.district === result.district] *)
Definition same_office (result : SearchResult.t) (p : PostOffice.t) : bool :=
  jeqb (PostOffice.name p) (SearchResult.name result)
  && match SearchResult.district result with
     | Some d => jeqb (PostOffice.district p) d
     | None => false
     end.

(** [result.district && result.district.toLowerCase() ===
    district.toLowerCase()], for a truthy [district]: only a string has
    the method. *)
Definition in_district (district : value) (result : SearchResult.t)
  : outcome bool :=
  match SearchResult.district result with
  | Some d =>
      if jeqb d [] then Returns false
      else match district with
           | VStr x => Returns (jeqb (toLowerCase d) (toLowerCase x))
           | _ => Throws TypeError
           end
  | None => Returns false
  end.

(** [a.filter(p)] for a callback that may throw *)
Fixpoint filter_throwing {A} (p : A -> outcome bool) (l : list A)
  : outcome (list A) :=
  match l with
  | [] => Returns []
  | x :: l' =>
      b <- p x ;; ys <- filter_throwing p l' ;;
      Returns (if b then x :: ys else ys)
  end.

(** [po && po.type === type] for the first stored post office with the
    name and the district of [result] *)
Definition has_type (st : NepalGeoData.t) (type : value)
           (result : SearchResult.t) : bool :=
  match find (same_office result) (NepalGeoData.getAllPostOffices st) with
  | Some po =>
      match type with
      | VStr t => jeqb (PostOffice.type po) t
      | _ => false
      end
  | None => false
  end.

Definition searchPostOffices (st : NepalGeoData.t) (query : value)
           (options : PostOfficeOptions)
  : outcome (list PostOfficeResult) :=
  match query with
  | VStr query =>
      let results := NepalGeoData.search st query ScopePostOffice in
      results <-
        (if Value.truthy (po_district options)
         then filter_throwing (in_district (po_district options)) results
         else Returns results) ;;
      let results :=
        if Value.truthy (po_type options)
        then filter (has_type st (po_type options)) results
        else results in
      Returns
        (map
           (fun result =>
              mkPostOfficeResult
                (SearchResult.make RPostOffice (SearchResult.name result)
                   (SearchResult.district result)
                   (SearchResult.postalCode result)
                   (SearchResult.relevance result)
                   (Some (determineMatchType query result)))
                (if includeDetails options then
                   match find (same_office result)
                              (NepalGeoData.getAllPostOffices st) with
                   | Some po => Some (PostOffice.type po, is_main_office po)
                   | None => None
                   end
                 else None))
           (slice0 results (po_limit options)))
  | _ => Throws TypeError
  end.

End GeoSearch.

(* ================================================================== *)
(** * lib/location-validator.js: class LocationValidator *)
(* ================================================================== *)

(** A message built by a template literal: literal text and interpolated
    values, which JavaScript converts with ToString. *)
Inductive piece : Type :=
| Lit (s : JS.jstring)
| Interp (v : value).

Definition message := list piece.

Module LocationValidator.
Import JS.

Definition lit (s : string) : message := [Lit (str s)].

Record Completeness : Type := mkCompleteness {
  score : Z;
  percentage : message;
  present : list jstring;
  missing : list jstring;
  isComplete : bool
}.

(** The result of [validateAddress]; the early return for a value that
    is not an object has neither [completeness] nor [recommendation]. *)
Record ValidationResult : Type := mkValidationResult {
  isValid : bool;
  errors : list message;
  warnings : list message;
  suggestions : list message;
  completeness : option Completeness;
  recommendation : option (list message)
}.

Record DistrictValidation : Type := mkDistrictValidation {
  d_isValid : bool;
  d_error : option message;
  d_district : option District.t;
  d_suggestions : list jstring
}.

Record PostalValidation : Type := mkPostalValidation {
  p_isValid : bool;
  p_error : option message;
  p_postalInfo : option PostOffice.t
}.

Record PostOfficeValidation : Type := mkPostOfficeValidation {
  o_isValid : bool;
  o_error : option message;
  o_postOffice : option PostOffice.t;
  o_suggestions : list jstring
}.

(** [calculateSimilarity]: the matrix of [levenshteinDistance], then
    [(maxLength - distance) / maxLength]. *)
Definition calculateSimilarity (str1 str2 : jstring) : Float64.number :=
  let len1 := length str1 in
  let len2 := length str2 in
  let matrix := NepalGeoData.distance_matrix str1 str2 in
  let maxLength := Nat.max len1 len2 in
  if maxLength =? 0 then Float64.of_Z 1
  else Float64.div
         (Float64.of_Z (Z.of_nat maxLength
                        - Z.of_nat (NepalGeoData.mget matrix len2 len1)))
         (Float64.of_nat maxLength).

(** The comparator [(a, b) => b.similarity - a.similarity] *)
Definition by_similarity {A} (a b : A * Float64.number) : Z :=
  Float64.sign (Float64.sub (snd b) (snd a)).

Definition findSimilarDistricts (st : NepalGeoData.t) (input : jstring)
  : list jstring :=
  let districts := NepalGeoData.getAllDistricts st in
  let similarities :=
    slice0
      (sort by_similarity
         (filter (fun item => Float64.gtb (snd item) Float64.lit_0_3)
            (map (fun district =>
                    (District.name district,
                     calculateSimilarity (toLowerCase input)
                       (toLowerCase (District.name district))))
                 districts)))
      3 in
  map fst similarities.

Definition findSimilarPostOffices (input : jstring)
           (postOffices : list PostOffice.t)
  : list (PostOffice.t * Float64.number) :=
  slice0
    (sort by_similarity
       (filter (fun item => Float64.gtb (snd item) Float64.lit_0_3)
          (map (fun po =>
                  (po, calculateSimilarity (toLowerCase input)
                         (toLowerCase (PostOffice.name po))))
               postOffices)))
    5.

Definition validateDistrict (st : NepalGeoData.t) (district : value)
  : DistrictValidation :=
  match district with
  | VStr name =>
      if jeqb name [] then
        mkDistrictValidation false
          (Some (lit "District name is required and must be a string")) None []
      else
        match NepalGeoData.getDistrictByName st name with
        | Some districtData => mkDistrictValidation true None (Some districtData) []
        | None =>
            mkDistrictValidation false
              (Some [Lit (str "District '"); Interp district; Lit (str "' not found")])
              None (findSimilarDistricts st name)
        end
  | _ =>
      mkDistrictValidation false
        (Some (lit "District name is required and must be a string")) None []
  end.

Definition validatePostalCode (st : NepalGeoData.t) (postalCode : value)
  : PostalValidation :=
  match postalCode with
  | VStr code =>
      if jeqb code [] then
        mkPostalValidation false
          (Some (lit "Postal code is required and must be a string")) None
      else
        let trimmed := trim code in
        if negb (is_five_digits trimmed) then
          mkPostalValidation false
            (Some (lit "Nepal postal codes must be exactly 5 digits")) None
        else
          let postalInfo := NepalGeoData.getPostOfficeByCode st trimmed in
          (* [isValid: postalInfo !== null]: [find] answers [undefined]
             when no post office has the code, never [null] *)
          mkPostalValidation true
            (match postalInfo with
             | Some _ => None
             | None => Some (lit "Postal code does not exist")
             end)
            postalInfo
  | _ =>
      mkPostalValidation false
        (Some (lit "Postal code is required and must be a string")) None
  end.

(** [po.district.toLowerCase() === district.toLowerCase()] for the
    [district] argument of [validatePostOffice], which may be any truthy
    value: only a string has the method. *)
Definition same_district (district : value) (po : PostOffice.t) : outcome bool :=
  match district with
  | VStr d => Returns (jeqb (toLowerCase (PostOffice.district po)) (toLowerCase d))
  | _ => Throws TypeError
  end.

Fixpoint filterM {A} (p : A -> outcome bool) (l : list A) : outcome (list A) :=
  match l with
  | [] => Returns []
  | x :: l' =>
      b <- p x ;; ys <- filterM p l' ;;
      Returns (if b then x :: ys else ys)
  end.

Definition validatePostOffice (st : NepalGeoData.t) (postOffice district : value)
  : outcome PostOfficeValidation :=
  match postOffice with
  | VStr name =>
      if jeqb name [] then
        Returns (mkPostOfficeValidation false
                   (Some (lit "Post office name is required and must be a string"))
                   None [])
      else
        let allPostOffices := NepalGeoData.getAllPostOffices st in
        postOffices <-
          (if Value.truthy district
           then filterM (same_district district) allPostOffices
           else Returns allPostOffices) ;;
        match find (fun po => jeqb (toLowerCase (PostOffice.name po))
                                   (toLowerCase name)) postOffices with
        | Some exactMatch =>
            Returns (mkPostOfficeValidation true None (Some exactMatch) [])
        | None =>
            let suggestions := findSimilarPostOffices name postOffices in
            Returns
              (mkPostOfficeValidation false
                 (Some ([Lit (str "Post office '"); Interp postOffice;
                         Lit (str "' not found")]
                        ++ if Value.truthy district
                           then [Lit (str " in "); Interp district] else []))
                 None
                 (map (fun po => PostOffice.name (fst po)) (slice0 suggestions 3)))
        end
  | _ =>
      Returns (mkPostOfficeValidation false
                 (Some (lit "Post office name is required and must be a string"))
                 None [])
  end.

(** [a.join(', ')] *)
Fixpoint join_comma (l : list jstring) : jstring :=
  match l with
  | [] => []
  | [x] => x
  | x :: l' => x ++ str ", " ++ join_comma l'
  end.

Definition address_fields : list (jstring * Float64.number) :=
  [ (str "district", Float64.lit_0_3);
    (str "municipality", Float64.lit_0_2);
    (str "ward", Float64.lit_0_2);
    (str "postOffice", Float64.lit_0_15);
    (str "postalCode", Float64.lit_0_15) ].

Definition is_present (v : value) : bool :=
  match v with
  | VUndefined | VNull => false
  | VStr s => negb (jeqb s [])
  | _ => true
  end.

Definition calculateCompleteness (address : value) : Completeness :=
  let '(score, missing, present) :=
    fold_left
      (fun '(score, missing, present) '(field, weight) =>
         if is_present (Value.get address field)
         then (Float64.add score weight, missing, present ++ [field])
         else (score, missing ++ [field], present))
      address_fields (Float64.of_Z 0, [], []) in
  let percent := Float64.Math_round (Float64.mul score (Float64.of_Z 100)) in
  mkCompleteness percent
    [Interp (VNum (Float64.of_Z percent)); Lit (str "%")]
    present missing
    (Float64.geb score Float64.lit_0_8).

Definition push_if {A} (b : bool) (l : list A) (x : A) : list A :=
  if b then l ++ [x] else l.

Definition getRecommendation (address : value) (errors warnings : list message)
  : list message :=
  let recommendations := [] in
  let recommendations :=
    push_if (0 <? length errors) recommendations
            (lit "Fix validation errors before using this address") in
  let recommendations :=
    push_if (negb (Value.truthy (Value.get address (str "district"))))
            recommendations
            (lit "Add district name for better address identification") in
  let recommendations :=
    push_if (negb (Value.truthy (Value.get address (str "postalCode"))))
            recommendations
            (lit "Include postal code for accurate mail delivery") in
  let recommendations :=
    push_if (negb (Value.truthy (Value.get address (str "municipality")))
             && negb (Value.truthy (Value.get address (str "postOffice"))))
            recommendations
            (lit "Add municipality or post office for precise location") in
  let recommendations :=
    push_if (negb (Value.truthy (Value.get address (str "ward"))))
            recommendations
            (lit "Include ward number for local administrative purposes") in
  let recommendations :=
    push_if ((0 <? length warnings) && (length errors =? 0)) recommendations
            (lit "Address is valid but could be more complete") in
  push_if (length recommendations =? 0) recommendations
          (lit "Address is complete and valid").

Definition not_an_object : ValidationResult :=
  mkValidationResult false [lit "Address must be a valid object"] [] [] None None.

(** [validateAddress].  The three lists [errors], [warnings] and
    [suggestions] are threaded through the five checks in order. *)
Definition validateAddress (st : NepalGeoData.t) (address : value)
  : outcome ValidationResult :=
  if negb (Value.truthy address) || negb (Value.typeof_object address)
  then Returns not_an_object
  else
    let district := Value.get address (str "district") in
    let postalCode := Value.get address (str "postalCode") in
    let postOffice := Value.get address (str "postOffice") in
    let ward := Value.get address (str "ward") in
    let municipality := Value.get address (str "municipality") in
    let errors := [] in
    let warnings := [] in
    let suggestions := [] in
    (* district *)
    let '(errors, warnings, suggestions) :=
      if Value.truthy district then
        let districtResult := validateDistrict st district in
        if negb (d_isValid districtResult) then
          (errors ++ [[Lit (str "Invalid district: "); Interp district]],
           warnings,
           push_if (0 <? length (d_suggestions districtResult)) suggestions
                   [Lit (str "Did you mean: ");
                    Lit (join_comma (d_suggestions districtResult));
                    Lit (str "?")])
        else (errors, warnings, suggestions)
      else (errors, warnings ++ [lit "District not specified"], suggestions) in
    (* postal code, and its district *)
    st1 <-
      (if Value.truthy postalCode then
         let postalResult := validatePostalCode st postalCode in
         if negb (p_isValid postalResult) then
           Returns (errors ++ [[Lit (str "Invalid postal code: "); Interp postalCode]],
                    suggestions)
         else if Value.truthy district then
           match postalCode with
           | VStr code =>
               match NepalGeoData.getPostOfficeByCode st code with
               | Some postalInfo =>
                   same <- same_district district postalInfo ;;
                   if negb same then
                     Returns
                       (errors ++ [[Lit (str "Postal code "); Interp postalCode;
                                    Lit (str " does not belong to district ");
                                    Interp district]],
                        suggestions ++ [[Lit (str "Postal code "); Interp postalCode;
                                         Lit (str " belongs to ");
                                         Lit (PostOffice.district postalInfo)]])
                   else Returns (errors, suggestions)
               | None => Returns (errors, suggestions)
               end
           | _ => Returns (errors, suggestions)
           end
         else Returns (errors, suggestions)
       else Returns (errors, suggestions)) ;;
    let '(errors, suggestions) := st1 in
    (* post office *)
    st2 <-
      (if Value.truthy postOffice then
         postOfficeResult <- validatePostOffice st postOffice district ;;
         if negb (o_isValid postOfficeResult) then
           Returns (errors ++ [[Lit (str "Invalid post office: "); Interp postOffice]],
                    push_if (0 <? length (o_suggestions postOfficeResult)) suggestions
                            [Lit (str "Similar post offices: ");
                             Lit (join_comma (o_suggestions postOfficeResult))])
         else Returns (errors, suggestions)
       else Returns (errors, suggestions)) ;;
    let '(errors, suggestions) := st2 in
    (* ward *)
    let errors :=
      match ward with
      | VUndefined => errors
      | VNum n =>
          push_if (negb (Float64.isInteger n)
                   || Float64.ltb n (Float64.of_Z 1)
                   || Float64.gtb n (Float64.of_Z 35))
                  errors (lit "Ward number must be an integer between 1 and 35")
      | _ => errors ++ [lit "Ward number must be an integer between 1 and 35"]
      end in
    (* municipality *)
    let errors :=
      if Value.truthy municipality then
        match municipality with
        | VStr m =>
            push_if (length (trim m) <? 2) errors
                    (lit "Municipality name must be a valid string")
        | _ => errors ++ [lit "Municipality name must be a valid string"]
        end
      else errors in
    let isValid := length errors =? 0 in
    Returns (mkValidationResult isValid errors warnings suggestions
               (Some (calculateCompleteness address))
               (Some (getRecommendation address errors warnings))).

Fixpoint batch_from (st : NepalGeoData.t) (index : nat) (addresses : list value)
  : outcome (list (nat * value * ValidationResult)) :=
  match addresses with
  | [] => Returns []
  | address :: rest =>
      validation <- validateAddress st address ;;
      results <- batch_from st (S index) rest ;;
      Returns ((index, address, validation) :: results)
  end.

(** [batchValidate]: the guard throws on a value that is not an array. *)
Definition batchValidate (st : NepalGeoData.t) (addresses : value)
  : outcome (list (nat * value * ValidationResult)) :=
  match addresses with
  | VArr items => batch_from st 0 items
  | _ => Throws (Error (str "Addresses must be an array"))
  end.

End LocationValidator.

(* ================================================================== *)
(** * lib/district-utils.js: class DistrictUtils *)
(* ================================================================== *)

Module DistrictUtils.
Import JS.

Definition getAllDistricts (st : NepalGeoData.t) : list District.t :=
  NepalGeoData.getAllDistricts st.

(** [getDistrictByName]: [null] for a value that is not a non-empty
    string. *)
Definition getDistrictByName (st : NepalGeoData.t) (name : value)
  : option District.t :=
  match name with
  | VStr name =>
      if jeqb name [] then None else NepalGeoData.getDistrictByName st name
  | _ => None
  end.

Definition getTotalDistricts (st : NepalGeoData.t) : nat :=
  NepalGeoData.totalDistricts (NepalGeoData.getStatistics st).

(** [getDistrictNames]: [sort()] without a comparator. *)
Definition getDistrictNames (st : NepalGeoData.t) : list jstring :=
  sort compare_code_units (map District.name (getAllDistricts st)).

Definition searchDistricts (st : NepalGeoData.t) (query : value)
  : list District.t :=
  match query with
  | VStr q =>
      if jeqb q [] then []
      else
        let results := NepalGeoData.search st q ScopeDistrict in
        filter_map
          (fun result => getDistrictByName st (VStr (SearchResult.name result)))
          results
  | _ => []
  end.

(** The comparator [(a, b) => b.postOfficeCount - a.postOfficeCount] *)
Definition by_count_desc (a b : District.t) : Z :=
  (Z.of_nat (District.postOfficeCount b)
   - Z.of_nat (District.postOfficeCount a))%Z.

(** The comparator [(a, b) => a.postOfficeCount - b.postOfficeCount] *)
Definition by_count_asc (a b : District.t) : Z :=
  (Z.of_nat (District.postOfficeCount a)
   - Z.of_nat (District.postOfficeCount b))%Z.

Definition getDistrictsWithMostPostOffices (st : NepalGeoData.t) (limit : nat)
  : list District.t :=
  slice0 (sort by_count_desc (getAllDistricts st)) limit.

Definition getDistrictsWithLeastPostOffices (st : NepalGeoData.t) (limit : nat)
  : list District.t :=
  slice0 (sort by_count_asc (getAllDistricts st)) limit.

(** [exists]: [getDistrictByName(name) !== null] *)
Definition exists_ (st : NepalGeoData.t) (name : value) : bool :=
  match getDistrictByName st name with
  | Some _ => true
  | None => false
  end.

(** [po.type === type]: strict equality, false for a [type] that is not
    a string. *)
Definition has_office_type (type : value) (po : PostOffice.t) : bool :=
  match type with
  | VStr t => jeqb (PostOffice.type po) t
  | _ => false
  end.

Definition getDistrictsByPostOfficeType (st : NepalGeoData.t) (type : value)
  : list District.t :=
  filter (fun district => existsb (has_office_type type)
                                  (District.postOffices district))
         (getAllDistricts st).

End DistrictUtils.

(* ================================================================== *)
(** * lib/postal-utils.js: class PostalUtils *)
(* ================================================================== *)

Module PostalUtils.
Import JS.

Record PostalInfo : Type := mkPostalInfo {
  postalCode : jstring;
  postOffice : jstring;
  district : jstring;
  type : jstring;
  isMainOffice : bool
}.

Definition getPostalInfo (st : NepalGeoData.t) (code : value)
  : option PostalInfo :=
  match code with
  | VStr code =>
      if jeqb code [] then None
      else
        match NepalGeoData.getPostOfficeByCode st (trim code) with
        | Some po =>
            Some (mkPostalInfo (PostOffice.postalCode po) (PostOffice.name po)
                    (PostOffice.district po) (PostOffice.type po)
                    (GeoSearch.is_main_office po))
        | None => None
        end
  | _ => None
  end.

Definition getPostOfficesByDistrict (st : NepalGeoData.t) (name : value)
  : list PostOffice.t :=
  match name with
  | VStr name =>
      if jeqb name [] then []
      else
        match NepalGeoData.getDistrictByName st name with
        | Some districtData => District.postOffices districtData
        | None => []
        end
  | _ => []
  end.

Definition getTotalPostOffices (st : NepalGeoData.t) : nat :=
  NepalGeoData.totalPostOffices (NepalGeoData.getStatistics st).

Definition getAveragePostOfficesPerDistrict (st : NepalGeoData.t)
  : Float64.number :=
  NepalGeoData.averagePostOfficesPerDistrict (NepalGeoData.getStatistics st).

(** A result of [searchPostalCodes]: [{name, district, postalCode,
    relevance}]. *)
Record PostalMatch : Type := mkPostalMatch {
  m_name : jstring;
  m_district : option jstring;
  m_postalCode : option jstring;
  m_relevance : Z
}.

Definition searchPostalCodes (st : NepalGeoData.t) (query : value)
  : list PostalMatch :=
  match query with
  | VStr q =>
      if jeqb q [] then []
      else
        map (fun result =>
               mkPostalMatch (SearchResult.name result)
                             (SearchResult.district result)
                             (SearchResult.postalCode result)
                             (SearchResult.relevance result))
            (NepalGeoData.search st q ScopePostOffice)
  | _ => []
  end.

(** The result of [validatePostalCode]; the two early returns have no
    [postalCode]. *)
Record CodeValidation : Type := mkCodeValidation {
  isValid : bool;
  error : option jstring;
  v_postalCode : option jstring
}.

Definition validatePostalCode (st : NepalGeoData.t) (code : value)
  : CodeValidation :=
  match code with
  | VStr code =>
      if jeqb code [] then
        mkCodeValidation false
          (Some (str "Postal code is required and must be a string")) None
      else
        let trimmed := trim code in
        if negb (is_five_digits trimmed) then
          mkCodeValidation false
            (Some (str "Nepal postal codes must be exactly 5 digits")) None
        else
          let exists_ :=
            match getPostalInfo st (VStr trimmed) with
            | Some _ => true
            | None => false
            end in
          mkCodeValidation exists_
            (if exists_ then None
             else Some (str "Postal code does not exist in Nepal"))
            (Some trimmed)
  | _ =>
      mkCodeValidation false
        (Some (str "Postal code is required and must be a string")) None
  end.

Definition isValidPostalCode (st : NepalGeoData.t) (code : value) : bool :=
  isValid (validatePostalCode st code).

Definition getPostOfficesByType (st : NepalGeoData.t) (type : value)
  : list PostOffice.t :=
  match type with
  | VStr t =>
      if jeqb t [] then []
      else filter (fun po => jeqb (PostOffice.type po) t)
                  (NepalGeoData.getAllPostOffices st)
  | _ => []
  end.

Definition getMainPostOffices (st : NepalGeoData.t) : list PostOffice.t :=
  filter GeoSearch.is_main_office (NepalGeoData.getAllPostOffices st).

Definition getAllPostalCodes (st : NepalGeoData.t) : list jstring :=
  map PostOffice.postalCode (NepalGeoData.getAllPostOffices st).

(** ** [exportData] *)

(** The double quote and the line feed *)
Definition quote : ascii := ascii_of_nat 34.
Definition line_feed : ascii := ascii_of_nat 10.

(** One row of the CSV export: the four fields, each between double
    quotes, with commas between them; the line feed that ends the row in
    the template is added by [exportData]. *)
Definition csv_row (po : PostOffice.t) : jstring :=
  [quote] ++ PostOffice.name po ++ [quote] ++ str "," ++
  [quote] ++ PostOffice.postalCode po ++ [quote] ++ str "," ++
  [quote] ++ PostOffice.district po ++ [quote] ++ str "," ++
  [quote] ++ PostOffice.type po ++ [quote].

Section WithJSON.

(** [JSON.stringify(postOffices, null, 2)] is taken as a parameter. *)
Variable JSON_stringify : list PostOffice.t -> jstring.

(** [exportData(format, {district, type})] *)
Definition exportData (st : NepalGeoData.t) (format : jstring)
           (district type : value) : outcome jstring :=
  let postOffices := NepalGeoData.getAllPostOffices st in
  postOffices <-
    (if Value.truthy district
     then LocationValidator.filterM (LocationValidator.same_district district)
                                    postOffices
     else Returns postOffices) ;;
  let postOffices :=
    if Value.truthy type
    then filter (DistrictUtils.has_office_type type) postOffices
    else postOffices in
  if jeqb (toLowerCase format) (str "json") then
    Returns (JSON_stringify postOffices)
  else if jeqb (toLowerCase format) (str "csv") then
    Returns (str "Post Office,Postal Code,District,Type" ++ [line_feed]
             ++ concat (map (fun po => csv_row po ++ [line_feed]) postOffices))
  else Throws (Error (str "Unsupported export format: " ++ format)).

End WithJSON.

End PostalUtils.

(* ================================================================== *)
(** * Reference definitions used by the proofs *)
(* ================================================================== *)

Module EditDistance.
Import JS.

(** The edit distance by its recurrence on two strings. *)
Fixpoint lev (a b : jstring) : nat :=
  match a with
  | [] => length b
  | x :: a' =>
      (fix lev_a (b : jstring) : nat :=
         match b with
         | [] => length a
         | y :: b' =>
             if ascii_eqb x y then lev a' b'
             else Nat.min (lev a' b' + 1) (Nat.min (lev_a b' + 1) (lev a' b + 1))
         end) b
  end.

(** The entry that row [i], column [j] of the matrix of [str1] and [str2]
    must hold: the distance between the prefixes, read backwards. *)
Definition entry (str1 str2 : jstring) (i j : nat) : nat :=
  lev (rev (firstn i str2)) (rev (firstn j str1)).

Definition full_row (str1 str2 : jstring) (i : nat) : list nat :=
  map (entry str1 str2 i) (seq 0 (S (length str1))).

(** The matrix while the outer loop runs: the rows it has completed, and
    the rows that still hold their first entry only. *)
Definition rows_done (str1 str2 : jstring) (k : nat) : list (list nat) :=
  map (full_row str1 str2) (seq 0 k).

Definition rows_todo (str2 : jstring) (k : nat) : list (list nat) :=
  map (fun i => [i]) (seq k (S (length str2) - k)).

End EditDistance.

(** The exact value of a binary64 number, and the bracket that the
    rounding of [SpecFloat] works on. *)
Module FloatSpec.

Definition pow2 (e : Z) : Q := Qpower (2 # 1) e.

(** [m * 2^e] *)
Definition F2Q (m e : Z) : Q := (inject_Z m * pow2 e)%Q.

(** [x] lies in [[m * 2^e, (m + 1) * 2^e)] at the place [l] says: on the
    lower end, or below, at or above the middle. *)
Definition inbetween (x : Q) (m e : Z) (l : location) : Prop :=
  match l with
  | loc_Exact => (x == F2Q m e)%Q
  | loc_Inexact c =>
      (F2Q m e < x)%Q /\ (x < F2Q (m + 1) e)%Q
      /\ Qcompare x (F2Q (2 * m + 1) (e - 1)) = c
  end.

(** What [binary_round_aux] makes of the rounded mantissa [m] at the
    exponent [e]. *)
Definition finish (m e : Z) : Float64.number :=
  match m with
  | Z0 => S754_zero false
  | Z.pos p =>
      if (m =? 2 ^ 53)%Z then
        if (e + 1 <=? 971)%Z then S754_finite false (Z.to_pos (2 ^ 52)) (e + 1)
        else S754_infinity false
      else
        if (e <=? 971)%Z then S754_finite false p e
        else S754_infinity false
  | Z.neg _ => S754_nan
  end.

(** A number whose sign bit is clear, or NaN. *)
Definition nonneg (x : Float64.number) : Prop :=
  match x with
  | S754_zero true | S754_finite true _ _ | S754_infinity true => False
  | _ => True
  end.

(** A rounding result that is a number in [[lo, hi]]. *)
Definition rounded_in (r : Float64.number) (lo hi : Q) : Prop :=
  match r with
  | S754_zero false => (lo <= 0)%Q
  | S754_finite false m e =>
      bounded Float64.prec Float64.emax m e = true
      /\ (lo <= F2Q (Z.pos m) e)%Q /\ (F2Q (Z.pos m) e <= hi)%Q
  | _ => False
  end.

Definition loc_of (mrs : shr_record) : location := loc_of_shr_record mrs.

(** The mantissas of the numbers 1, 0.6, 50, 29.5 and 1 - 2^-53. *)
Definition m_one : positive := 4503599627370496.
Definition m_0_6 : positive := 5404319552844595.
Definition m_fifty : positive := 7036874417766400.
Definition m_29_5 : positive := 8303511812964352.
Definition m_pred_one : positive := 9007199254740991.

End FloatSpec.

(** The rules of the scoring cascade, named as the specification numbers
    them, on the lower-cased text and query that [calculateRelevance]
    works on. *)
Module Rules.
Import JS NepalGeoData.

(** Rule 4: the two tests of the abbreviation table. *)
Definition abbreviation_rule (text query : jstring) : bool :=
  match Value.lookup query abbreviations with
  | Some full => includes text full
  | None => false
  end
  || existsb (fun '(abbrev, full) => jeqb query full && includes text abbrev)
             abbreviations.

(** Rule 5: the acronym of the first words. *)
Definition acronym_rule (text query : jstring) : bool :=
  (2 <=? length query) && (length query <=? 4)
  && (let words := split_on is_word_break text in
      (length query <=? length words)
      && jeqb (join (map (fun w => charAt w 0) (firstn (length query) words)))
              query).

(** Rule 6: [1 - distance / maxLength], in binary64. *)
Definition similarity (text query : jstring) : Float64.number :=
  Float64.sub (Float64.of_Z 1)
    (Float64.div (Float64.of_nat (levenshteinDistance text query))
                 (Float64.of_nat (Nat.max (length text) (length query)))).

(** Rules 1 to 5 on a candidate text and a query. *)
Definition rules_1_to_5 (text query : jstring) : bool :=
  let normalizedText := toLowerCase text in
  let normalizedQuery := toLowerCase query in
  jeqb normalizedText normalizedQuery
  || startsWith normalizedText normalizedQuery
  || includes normalizedText normalizedQuery
  || abbreviation_rule normalizedText normalizedQuery
  || acronym_rule normalizedText normalizedQuery.

(** Rule 7 works on the pieces of the query between spaces. *)
Definition tokens (query : jstring) : list jstring :=
  split_on (fun c => code c =? 32) (toLowerCase query).

End Rules.

(** The shapes that the proofs follow through the code: the objects that
    [search] and [searchByQuery] push, and what the load and the suggestion
    set keep true. *)
Module Shape.
Import JS NepalGeoData GeoSearch.

(** The result [search] pushes for a district, scored against [nq]. *)
Definition district_result (nq : jstring) (d : District.t) : SearchResult.t :=
  SearchResult.make RDistrict (District.name d) None None
                    (calculateRelevance (District.name d) nq) None.

(** The result [search] pushes for a post office. *)
Definition office_result (nq query : jstring) (po : PostOffice.t)
  : SearchResult.t :=
  SearchResult.make RPostOffice (PostOffice.name po)
    (Some (PostOffice.district po)) (Some (PostOffice.postalCode po))
    (Z.max (calculateRelevance (PostOffice.name po) nq)
           (if includes (PostOffice.postalCode po) query then 90 else 0)%Z)
    None.

(** [{...result, matchType: this.determineMatchType(query, result)}] *)
Definition with_matchType (query : jstring) (r : SearchResult.t)
  : SearchResult.t :=
  SearchResult.make (SearchResult.type r) (SearchResult.name r)
                    (SearchResult.district r) (SearchResult.postalCode r)
                    (SearchResult.relevance r)
                    (Some (determineMatchType query r)).

(** A string that [trim] leaves alone: no space at either end. *)
Definition trimmed (s : jstring) : Prop := trim s = s.

(** What [processData] keeps true of [this.districts]: a district is
    stored under its name, and the name has no space at either end. *)
Definition districts_ok (obj : list (jstring * District.t)) : Prop :=
  forall k d, In (k, d) obj -> District.name d = k /\ trimmed k.

(** What [getSuggestions] keeps true of its set while it fills it. *)
Definition good_set (q : jstring) (s : list jstring) : Prop :=
  NoDup s /\ Forall (fun name => startsWith (toLowerCase name) q = true) s.

End Shape.

(** The inputs at which the claims are tried. *)
Module Examples.
Import JS.

(** Two records with one postal code. *)
Definition c3_raw : list RawEntry.t :=
  [ RawEntry.make (str "Kathmandu") (str "Kathmandu G.P.O.") (str "44600") (str "G.P.O.");
    RawEntry.make (str "Kathmandu") (str "Thamel") (str "44600") (str "A.P.O.") ].

Definition c4_store : NepalGeoData.t :=
  NepalGeoData.make
    [(str "Kathmandu",
      District.make (str "Kathmandu") 1
        [PostOffice.make (str "Thamel") (str "44601") (str "A.P.O.") (str "Kathmandu")])]
    [PostOffice.make (str "Thamel") (str "44601") (str "A.P.O.") (str "Kathmandu")].

(** Two spellings of one district that differ in case only. *)
Definition c5_raw : list RawEntry.t :=
  [ RawEntry.make (str "Kathmandu") (str "Thamel") (str "44601") (str "A.P.O.");
    RawEntry.make (str "KATHMANDU") (str "Kalimati") (str "44602") (str "A.P.O.") ].

(** A district whose name has five tokens, stored after a district whose
    name contains each of them. *)
Definition c5_raw_tokens : list RawEntry.t :=
  [ RawEntry.make (str "e d c b a") (str "Thamel") (str "44601") (str "A.P.O.");
    RawEntry.make (str "a b c d e") (str "Kalimati") (str "44602") (str "A.P.O.") ].

(** Two strings of 23 characters at distance 9. *)
Definition c6_text : jstring := str "aaaaaaaaaaaaaabbbbbbbbb".
Definition c6_query : jstring := str "aaaaaaaaaaaaaaccccccccc".

End Examples.

(** What [processData] keeps true of the store while it fills it. *)
Module StoreShape.
Import JS NepalGeoData.

(** The keys of [districts] are distinct; a district is stored under its
    name, counts its post offices, and holds the stored post offices of
    its name, in order, at least one; and every post office belongs to a
    stored district. *)
Definition store_ok (st : NepalGeoData.t) : Prop :=
  NoDup (map fst (districts st))
  /\ (forall k d, In (k, d) (districts st) ->
        District.name d = k
        /\ District.postOfficeCount d = length (District.postOffices d)
        /\ District.postOffices d
           = filter (fun po => jeqb (PostOffice.district po) k) (postOffices st)
        /\ District.postOffices d <> [])
  /\ Forall (fun po => In (PostOffice.district po) (map fst (districts st)))
            (postOffices st).

(** The post office that [processData] stores for a row, given the
    normalized name of its district. *)
Definition office_of (entry : RawEntry.t) (district : jstring) : PostOffice.t :=
  PostOffice.make (RawEntry.Post_Office entry) (RawEntry.Postal_Pin_Code entry)
                  (RawEntry.Post_Office_Type entry) district.

End StoreShape.

(* ================================================================== *)
(** * Facts about strings *)
(* ================================================================== *)

Unset Implicit Arguments.
Import JS.

Section StringFacts.

Lemma ascii_eqb_true (a b : ascii) : ascii_eqb a b = true <-> a = b.
Proof. apply Ascii.eqb_eq. Qed.

Lemma ascii_eqb_refl (a : ascii) : ascii_eqb a a = true.
Proof. apply Ascii.eqb_refl. Qed.

Lemma ascii_eqb_sym (a b : ascii) : ascii_eqb a b = ascii_eqb b a.
Proof. apply Ascii.eqb_sym. Qed.

Lemma jeqb_true (a b : jstring) : jeqb a b = true <-> a = b.
Proof.
  revert b; induction a as [|x a IH]; intros [|y b]; simpl; split;
    try congruence; try reflexivity.
  - intros H. apply andb_true_iff in H as [Hx Ha].
    apply ascii_eqb_true in Hx. apply IH in Ha. congruence.
  - intros H. injection H as -> ->.
    rewrite ascii_eqb_refl. simpl. now apply IH.
Qed.

Lemma jeqb_refl (a : jstring) : jeqb a a = true.
Proof. now apply jeqb_true. Qed.

Lemma jeqb_false (a b : jstring) : jeqb a b = false <-> a <> b.
Proof.
  split.
  - intros H E. apply jeqb_true in E. congruence.
  - intros H. destruct (jeqb a b) eqn:E; [|reflexivity].
    apply jeqb_true in E. contradiction.
Qed.

Lemma jeqb_sym (a b : jstring) : jeqb a b = jeqb b a.
Proof.
  destruct (jeqb a b) eqn:E.
  - apply jeqb_true in E. subst. now rewrite jeqb_refl.
  - symmetry. apply jeqb_false. apply jeqb_false in E. congruence.
Qed.

End StringFacts.

Module LevFacts.
Import EditDistance.

Lemma lev_nil_r a : lev a [] = length a.
Proof. destruct a; reflexivity. Qed.

Lemma lev_cons x a y b :
  lev (x :: a) (y :: b) =
  if ascii_eqb x y then lev a b
  else Nat.min (lev a b + 1) (Nat.min (lev (x :: a) b + 1) (lev a (y :: b) + 1)).
Proof. reflexivity. Qed.

Lemma lev_sym a : forall b, lev a b = lev b a.
Proof.
  induction a as [|x a IHa]; intros b.
  - now rewrite lev_nil_r.
  - induction b as [|y b IHb].
    + reflexivity.
    + rewrite !lev_cons, (ascii_eqb_sym y x), IHb, (IHa b), (IHa (y :: b)).
      destruct (ascii_eqb x y); lia.
Qed.

Lemma lev_bounds a : forall b,
  length a - length b <= lev a b /\ length b - length a <= lev a b
  /\ lev a b <= Nat.max (length a) (length b).
Proof.
  induction a as [|x a IHa]; intros b.
  - simpl. lia.
  - induction b as [|y b IHb].
    + simpl. lia.
    + rewrite lev_cons.
      pose proof (IHa b). pose proof (IHa (y :: b)).
      simpl length in *.
      destruct (ascii_eqb x y); lia.
Qed.

Lemma lev_refl a : lev a a = 0.
Proof.
  induction a as [|x a IH]; [reflexivity|].
  now rewrite lev_cons, ascii_eqb_refl.
Qed.

Lemma lev_zero a : forall b, lev a b = 0 -> a = b.
Proof.
  induction a as [|x a IHa]; intros [|y b].
  - reflexivity.
  - simpl. discriminate.
  - simpl. discriminate.
  - rewrite lev_cons. destruct (ascii_eqb x y) eqn:E.
    + intros H. apply ascii_eqb_true in E. f_equal; auto.
    + lia.
Qed.

End LevFacts.

Module MatrixFacts.
Import EditDistance NepalGeoData LevFacts.

Lemma arr_set_append {A} (d : A) l j v :
  length l = j -> arr_set d l j v = l ++ [v].
Proof.
  intros <-. unfold arr_set.
  rewrite firstn_all, Nat.sub_diag, skipn_all2 by lia. reflexivity.
Qed.

Lemma arr_set_mid {A} (d : A) pre r post i v :
  length pre = i -> arr_set d (pre ++ r :: post) i v = pre ++ v :: post.
Proof.
  intros <-. unfold arr_set.
  replace (length pre - length (pre ++ r :: post)) with 0
    by (rewrite length_app; lia).
  cbn [repeat app]. f_equal.
  - induction pre as [|x pre IH]; simpl; [reflexivity|now f_equal].
  - f_equal. induction pre as [|x pre IH]; simpl; [reflexivity|exact IH].
Qed.

Lemma nth_mid {A} (d : A) pre r post i :
  length pre = i -> nth i (pre ++ r :: post) d = r.
Proof. intros <-. rewrite app_nth2, Nat.sub_diag by lia. reflexivity. Qed.

Lemma mset_mid pre r post i j v :
  length pre = i -> length r = j ->
  mset (pre ++ r :: post) i j v = pre ++ (r ++ [v]) :: post.
Proof.
  intros Hi Hj. unfold mset.
  rewrite (nth_mid [] pre r post i Hi), (arr_set_append 0 r j v Hj).
  now apply arr_set_mid.
Qed.

Lemma mget_mid pre r post i j :
  length pre = i -> mget (pre ++ r :: post) i j = nth j r 0.
Proof. intros Hi. unfold mget. now rewrite (nth_mid [] pre r post i Hi). Qed.

Lemma mget_pre pre post i j :
  i < length pre -> mget (pre ++ post) i j = nth j (nth i pre []) 0.
Proof. intros Hi. unfold mget. now rewrite app_nth1. Qed.

Lemma init_rows k : forall a acc,
  length acc = a ->
  fold_left (fun m i => arr_set [] m i [i]) (seq a k) acc
  = acc ++ map (fun i => [i]) (seq a k).
Proof.
  induction k as [|k IH]; intros a acc Ha; simpl.
  - now rewrite app_nil_r.
  - rewrite (arr_set_append [] acc a [a] Ha).
    rewrite IH by (rewrite length_app; simpl; lia).
    now rewrite <- app_assoc.
Qed.

Lemma init_row0 k : forall c post,
  fold_left (fun m j => mset m 0 j j) (seq (S c) k) (seq 0 (S c) :: post)
  = seq 0 (S c + k) :: post.
Proof.
  induction k as [|k IH]; intros c post.
  - now rewrite Nat.add_0_r.
  - change (seq (S c) (S k)) with (S c :: seq (S (S c)) k). cbn [fold_left].
    change (seq 0 (S c) :: post) with ([] ++ seq 0 (S c) :: post).
    rewrite (mset_mid [] (seq 0 (S c)) post 0 (S c) (S c));
      [|reflexivity|now rewrite length_seq].
    cbn [app]. rewrite <- seq_S, IH. f_equal. f_equal. lia.
Qed.

Section Matrix.
Variables str1 str2 : jstring.

Local Abbreviation n1 := (length str1).
Local Abbreviation n2 := (length str2).
Local Abbreviation rows_done := (EditDistance.rows_done str1 str2).
Local Abbreviation rows_todo := (EditDistance.rows_todo str2).

Lemma length_rows_done k : length (rows_done k) = k.
Proof. unfold EditDistance.rows_done. now rewrite length_map, length_seq. Qed.

Lemma entry_0_l j : j <= n1 -> entry str1 str2 0 j = j.
Proof.
  intros Hj. unfold entry. simpl.
  rewrite length_rev, length_firstn. lia.
Qed.

Lemma entry_0_r i : i <= n2 -> entry str1 str2 i 0 = i.
Proof.
  intros Hi. unfold entry. simpl. rewrite lev_nil_r.
  rewrite length_rev, length_firstn. lia.
Qed.

Lemma rev_firstn_S (s : jstring) i d :
  i < length s -> rev (firstn (S i) s) = nth i s d :: rev (firstn i s).
Proof.
  intros Hi.
  assert (E : firstn (S i) s = firstn i s ++ [nth i s d]).
  { revert s Hi. induction i as [|i IH]; intros [|x s] Hs; simpl in *;
      try lia; [reflexivity|].
    f_equal. apply IH. lia. }
  rewrite E, rev_app_distr. reflexivity.
Qed.

Lemma charAt_in (s : jstring) i d :
  i < length s -> charAt s i = [nth i s d].
Proof.
  unfold charAt. revert s. induction i as [|i IH]; intros [|x s] Hs;
    simpl in *; try lia.
  - now destruct s.
  - apply IH. lia.
Qed.

Lemma entry_S i j :
  i < n2 -> j < n1 ->
  entry str1 str2 (S i) (S j)
  = if jeqb (charAt str2 i) (charAt str1 j)
    then entry str1 str2 i j
    else Nat.min (entry str1 str2 i j + 1)
                 (Nat.min (entry str1 str2 (S i) j + 1)
                          (entry str1 str2 i (S j) + 1)).
Proof.
  intros Hi Hj. unfold entry.
  rewrite (rev_firstn_S str2 i "000"%char Hi), (rev_firstn_S str1 j "000"%char Hj).
  rewrite lev_cons.
  rewrite (charAt_in str2 i "000"%char Hi), (charAt_in str1 j "000"%char Hj).
  simpl jeqb. now rewrite andb_true_r.
Qed.

Lemma nth_full_row i j :
  j <= n1 -> nth j (full_row str1 str2 i) 0 = entry str1 str2 i j.
Proof.
  intros Hj. unfold full_row.
  rewrite nth_indep with (d' := entry str1 str2 i 0)
    by (rewrite length_map, length_seq; lia).
  rewrite (map_nth (entry str1 str2 i)), seq_nth by lia. reflexivity.
Qed.

Lemma nth_rows_done k i :
  i < k -> nth i (rows_done k) [] = full_row str1 str2 i.
Proof.
  intros Hi. unfold EditDistance.rows_done.
  rewrite nth_indep with (d' := full_row str1 str2 0)
    by (rewrite length_map, length_seq; lia).
  rewrite (map_nth (full_row str1 str2)), seq_nth by lia. reflexivity.
Qed.

Lemma nth_partial_row i c j :
  j <= c -> nth j (map (entry str1 str2 i) (seq 0 (S c))) 0 = entry str1 str2 i j.
Proof.
  intros Hj.
  rewrite nth_indep with (d' := entry str1 str2 i 0)
    by (rewrite length_map, length_seq; lia).
  rewrite (map_nth (entry str1 str2 i)), seq_nth by lia. reflexivity.
Qed.

(** The inner loop completes row [i]. *)
Lemma inner_loop i post k c :
  1 <= i <= n2 -> c + k = n1 ->
  fold_left (fun m j => mset m i j (cell str1 str2 m i j)) (seq (S c) k)
            (rows_done i ++ map (entry str1 str2 i) (seq 0 (S c)) :: post)
  = rows_done i ++ map (entry str1 str2 i) (seq 0 (S (c + k))) :: post.
Proof.
  revert c. induction k as [|k IH]; intros c Hi Hc.
  - now rewrite Nat.add_0_r.
  - change (seq (S c) (S k)) with (S c :: seq (S (S c)) k). cbn [fold_left].
    set (r := map (entry str1 str2 i) (seq 0 (S c))).
    assert (Hr : length r = S c) by (unfold r; now rewrite length_map, length_seq).
    assert (Hcell : cell str1 str2 (rows_done i ++ r :: post) i (S c)
                    = entry str1 str2 i (S c)).
    { unfold cell.
      rewrite (mget_mid (rows_done i) r post i (S c - 1) (length_rows_done i)).
      rewrite !mget_pre by (rewrite length_rows_done; lia).
      rewrite nth_rows_done by lia.
      rewrite !nth_full_row by lia.
      replace (S c - 1) with c by lia.
      unfold r. rewrite nth_partial_row by lia.
      destruct i as [|i]; [lia|].
      replace (S i - 1) with i by lia.
      rewrite entry_S by lia. reflexivity. }
    rewrite Hcell.
    rewrite (mset_mid (rows_done i) r post i (S c) (entry str1 str2 i (S c))
                      (length_rows_done i) Hr).
    replace (r ++ [entry str1 str2 i (S c)])
      with (map (entry str1 str2 i) (seq 0 (S (S c)))).
    2:{ unfold r. rewrite (seq_S (S c)), map_app. reflexivity. }
    rewrite IH by lia. now replace (S c + k) with (c + S k) by lia.
Qed.

Lemma rows_todo_cons i :
  i <= n2 -> rows_todo i = [i] :: rows_todo (S i).
Proof.
  intros Hi. unfold EditDistance.rows_todo.
  replace (S n2 - i) with (S (S n2 - S i)) by lia. reflexivity.
Qed.

Lemma rows_done_S i :
  rows_done (S i) = rows_done i ++ [full_row str1 str2 i].
Proof. unfold EditDistance.rows_done. now rewrite seq_S, map_app. Qed.

(** The outer loop completes the rows one after the other. *)
Lemma outer_loop k i :
  1 <= i -> i + k = S n2 ->
  fold_left
    (fun m i =>
       fold_left (fun m j => mset m i j (cell str1 str2 m i j)) (seq 1 n1) m)
    (seq i k) (rows_done i ++ rows_todo i)
  = rows_done (S n2).
Proof.
  revert i. induction k as [|k IH]; intros i Hi Hk.
  - replace i with (S n2) by lia. unfold EditDistance.rows_todo.
    rewrite Nat.sub_diag. simpl. now rewrite app_nil_r.
  - change (seq i (S k)) with (i :: seq (S i) k). cbn [fold_left].
    rewrite rows_todo_cons by lia.
    replace [i] with (map (entry str1 str2 i) (seq 0 1))
      by (simpl; rewrite entry_0_r by lia; reflexivity).
    rewrite (inner_loop i (rows_todo (S i)) n1 0) by lia.
    change (map (entry str1 str2 i) (seq 0 (S (0 + n1))))
      with (full_row str1 str2 i).
    replace (rows_done i ++ full_row str1 str2 i :: rows_todo (S i))
      with (rows_done (S i) ++ rows_todo (S i))
      by (rewrite rows_done_S, <- app_assoc; reflexivity).
    apply IH; lia.
Qed.

Lemma distance_matrix_rows :
  distance_matrix str1 str2 = rows_done (S n2).
Proof.
  unfold distance_matrix.
  rewrite (init_rows (S n2) 0 [] eq_refl). cbn [app].
  cbn [seq map fold_left].
  replace (mset ([0] :: map (fun i => [i]) (seq 1 n2)) 0 0 0)
    with (seq 0 1 :: map (fun i => [i]) (seq 1 n2)) by reflexivity.
  rewrite init_row0.
  rewrite <- (outer_loop n2 1) by lia.
  f_equal. unfold EditDistance.rows_done, EditDistance.rows_todo. cbn [seq map app].
  f_equal.
  - unfold full_row. cbn [Nat.add].
    apply nth_ext with (d := 0) (d' := 0).
    + now rewrite length_map.
    + intros j Hj. rewrite length_seq in Hj.
      rewrite nth_partial_row, seq_nth, entry_0_l by lia. reflexivity.
  - now replace (S n2 - 1) with n2 by lia.
Qed.

Theorem levenshteinDistance_lev :
  levenshteinDistance str1 str2 = lev (rev str2) (rev str1).
Proof.
  unfold levenshteinDistance. rewrite distance_matrix_rows.
  unfold mget.
  rewrite nth_rows_done, nth_full_row by lia.
  unfold entry. now rewrite !firstn_all.
Qed.

End Matrix.

End MatrixFacts.

(* ================================================================== *)
(** * Facts about binary64 rounding *)
(* ================================================================== *)

Module FloatFacts.
Import FloatSpec Float64.
Open Scope Z_scope.

(** ** Powers of two *)

Lemma pow2_pos e : (0 < pow2 e)%Q.
Proof. apply Qpower_0_lt. reflexivity. Qed.

Lemma pow2_add a b : (pow2 (a + b) == pow2 a * pow2 b)%Q.
Proof. apply Qpower_plus. discriminate. Qed.

Lemma pow2_succ e : (pow2 (e + 1) == 2 * pow2 e)%Q.
Proof. rewrite pow2_add. unfold pow2 at 2. simpl. ring. Qed.

Lemma pow2_pred e : (pow2 e == 2 * pow2 (e - 1))%Q.
Proof. rewrite <- pow2_succ. now replace (e - 1 + 1) with e by lia. Qed.

Lemma pow2_Z e : 0 <= e -> (pow2 e == inject_Z (2 ^ e))%Q.
Proof. intros He. unfold pow2. now rewrite Zpower_Qpower. Qed.

Lemma pow2_le a b : a <= b -> (pow2 a <= pow2 b)%Q.
Proof.
  intros H. replace b with (a + (b - a)) by lia.
  rewrite pow2_add, (pow2_Z (b - a)) by lia.
  assert (1 <= 2 ^ (b - a)) by (apply Z.pow_le_mono_r with (b := 0); lia).
  assert (inject_Z 1 <= inject_Z (2 ^ (b - a)))%Q by (now rewrite <- Zle_Qle).
  change (inject_Z 1) with 1%Q in *.
  pose proof (pow2_pos a). nra.
Qed.

Lemma F2Q_shift m e k : 0 <= k -> (F2Q (m * 2 ^ k) e == F2Q m (e + k))%Q.
Proof.
  intros Hk. unfold F2Q.
  rewrite inject_Z_mult, pow2_add, (pow2_Z k Hk). ring.
Qed.

Lemma F2Q_le m n e : m <= n -> (F2Q m e <= F2Q n e)%Q.
Proof.
  intros H. unfold F2Q. apply Qmult_le_compat_r.
  - now rewrite <- Zle_Qle.
  - apply Qlt_le_weak, pow2_pos.
Qed.

Lemma F2Q_lt m n e : m < n -> (F2Q m e < F2Q n e)%Q.
Proof.
  intros H. unfold F2Q. apply Qmult_lt_compat_r.
  - apply pow2_pos.
  - now rewrite <- Zlt_Qlt.
Qed.

Lemma F2Q_le_inv m n e : (F2Q m e <= F2Q n e)%Q -> m <= n.
Proof.
  intros H. destruct (Z_lt_le_dec n m) as [L|L]; [|exact L].
  apply (F2Q_lt _ _ e) in L. lra.
Qed.

Lemma F2Q_lt_inv m n e : (F2Q m e < F2Q n e)%Q -> m < n.
Proof.
  intros H. destruct (Z_lt_le_dec m n) as [L|L]; [exact L|].
  apply (F2Q_le _ _ e) in L. lra.
Qed.

Lemma F2Q_nonneg m e : 0 <= m -> (0 <= F2Q m e)%Q.
Proof.
  intros H. unfold F2Q. apply Qmult_le_0_compat.
  - change 0%Q with (inject_Z 0). now rewrite <- Zle_Qle.
  - apply Qlt_le_weak, pow2_pos.
Qed.

Lemma F2Q_pos m e : 0 < m -> (0 < F2Q m e)%Q.
Proof.
  intros H. unfold F2Q. apply Qmult_lt_0_compat.
  - change 0%Q with (inject_Z 0). now rewrite <- Zlt_Qlt.
  - apply pow2_pos.
Qed.

Lemma F2Q_succ m e : (F2Q (m + 1) e == F2Q m e + pow2 e)%Q.
Proof. unfold F2Q. rewrite inject_Z_plus. ring. Qed.

Lemma F2Q_half m e : (F2Q (2 * m + 1) (e - 1) == F2Q m e + pow2 (e - 1))%Q.
Proof.
  unfold F2Q. rewrite inject_Z_plus, inject_Z_mult, (pow2_pred e). ring.
Qed.

(** ** Number of binary digits *)

Lemma digits2_pos_bounds p :
  2 ^ (Z.pos (digits2_pos p) - 1) <= Z.pos p < 2 ^ Z.pos (digits2_pos p).
Proof.
  induction p as [p IH|p IH|]; cbn [digits2_pos].
  - rewrite Pos2Z.inj_succ, Pos2Z.inj_xI.
    replace (Z.succ (Z.pos (digits2_pos p)) - 1)
      with (Z.succ (Z.pos (digits2_pos p) - 1)) by lia.
    rewrite !Z.pow_succ_r by lia. lia.
  - rewrite Pos2Z.inj_succ. change (Z.pos p~0) with (2 * Z.pos p).
    replace (Z.succ (Z.pos (digits2_pos p)) - 1)
      with (Z.succ (Z.pos (digits2_pos p) - 1)) by lia.
    rewrite !Z.pow_succ_r by lia. lia.
  - simpl. lia.
Qed.

Lemma Zdigits2_bounds m :
  0 < m -> 2 ^ (Zdigits2 m - 1) <= m < 2 ^ Zdigits2 m.
Proof. destruct m; try lia. intros _. apply digits2_pos_bounds. Qed.

Lemma Zdigits2_pos m : 0 < m -> 0 < Zdigits2 m.
Proof. destruct m; simpl; lia. Qed.

Lemma Zdigits2_unique m d :
  0 < d -> 2 ^ (d - 1) <= m < 2 ^ d -> Zdigits2 m = d.
Proof.
  intros Hd [Hl Hu].
  assert (Hm : 0 < m) by (pose proof (Z.pow_pos_nonneg 2 (d - 1)); lia).
  pose proof (Zdigits2_bounds m Hm) as [Hl' Hu'].
  pose proof (Zdigits2_pos m Hm).
  destruct (Z.lt_trichotomy (Zdigits2 m) d) as [L|[E|L]]; [|exact E|].
  - assert (2 ^ Zdigits2 m <= 2 ^ (d - 1)) by (apply Z.pow_le_mono_r; lia). lia.
  - assert (2 ^ d <= 2 ^ (Zdigits2 m - 1)) by (apply Z.pow_le_mono_r; lia). lia.
Qed.

Lemma Zdigits2_le m d : 0 <= d -> 0 <= m < 2 ^ d -> Zdigits2 m <= d.
Proof.
  intros Hd [Hl Hu]. destruct (Z.eq_dec m 0) as [->|N]; [simpl; lia|].
  assert (Hm : 0 < m) by lia.
  pose proof (Zdigits2_bounds m Hm) as [Hl' Hu'].
  destruct (Z_lt_le_dec d (Zdigits2 m)) as [L|L]; [|exact L].
  assert (2 ^ d <= 2 ^ (Zdigits2 m - 1)) by (apply Z.pow_le_mono_r; lia). lia.
Qed.

(** ** Brackets and the shift to the right *)

Lemma inbetween_bounds x m e l :
  inbetween x m e l -> (F2Q m e <= x < F2Q (m + 1) e)%Q.
Proof.
  pose proof (pow2_pos e). pose proof (F2Q_succ m e).
  destruct l as [|c]; simpl.
  - intros E. lra.
  - intros (H1 & H2 & _). lra.
Qed.

Lemma shr_1_inbetween x mrs e :
  0 <= shr_m mrs ->
  inbetween x (shr_m mrs) e (loc_of mrs) ->
  0 <= shr_m (shr_1 mrs)
  /\ inbetween x (shr_m (shr_1 mrs)) (e + 1) (loc_of (shr_1 mrs)).
Proof.
  destruct mrs as [m r s]. cbn [shr_m]. intros Hm H.
  pose proof (pow2_pos (e - 1)) as Hu.
  pose proof (pow2_pred e) as He.
  pose proof (pow2_succ e) as He1.
  assert (Hcases : exists p b, 0 <= p /\ m = 2 * p + Z.b2z b
            /\ shr_m (shr_1 (Build_shr_record m r s)) = p
            /\ loc_of (shr_1 (Build_shr_record m r s))
               = loc_of_shr_record (Build_shr_record p b (r || s))).
  { destruct m as [|[p|p|]|p]; try lia.
    - exists 0, false. repeat split; try lia; reflexivity.
    - exists (Z.pos p), true. repeat split; try lia; reflexivity.
    - exists (Z.pos p), false. repeat split; try lia; reflexivity.
    - exists 0, true. repeat split; try lia; reflexivity. }
  destruct Hcases as (p & b & Hp & -> & -> & ->).
  split; [exact Hp|].
  replace (e + 1 - 1) with e by lia.
  assert (Hm2 : (F2Q (2 * p + Z.b2z b) e
                 == 4 * inject_Z p * pow2 (e - 1)
                    + 2 * inject_Z (Z.b2z b) * pow2 (e - 1))%Q).
  { unfold F2Q. rewrite inject_Z_plus, inject_Z_mult, He. ring. }
  assert (Hm3 : (F2Q (2 * p + Z.b2z b + 1) e
                 == 4 * inject_Z p * pow2 (e - 1)
                    + 2 * inject_Z (Z.b2z b) * pow2 (e - 1)
                    + 2 * pow2 (e - 1))%Q).
  { rewrite F2Q_succ, Hm2, He. ring. }
  assert (Hmid : (F2Q (2 * (2 * p + Z.b2z b) + 1) (e - 1)
                 == 4 * inject_Z p * pow2 (e - 1)
                    + 2 * inject_Z (Z.b2z b) * pow2 (e - 1)
                    + pow2 (e - 1))%Q).
  { rewrite F2Q_half, Hm2. ring. }
  assert (Hp0 : (F2Q p (e + 1) == 4 * inject_Z p * pow2 (e - 1))%Q).
  { unfold F2Q. rewrite He1, He. ring. }
  assert (Hp1 : (F2Q (p + 1) (e + 1)
                 == 4 * inject_Z p * pow2 (e - 1) + 4 * pow2 (e - 1))%Q).
  { rewrite F2Q_succ, Hp0, He1, He. ring. }
  assert (Hph : (F2Q (2 * p + 1) e
                 == 4 * inject_Z p * pow2 (e - 1) + 2 * pow2 (e - 1))%Q).
  { unfold F2Q. rewrite inject_Z_plus, inject_Z_mult, He. ring. }
  set (P := (4 * inject_Z p * pow2 (e - 1))%Q) in *.
  set (u := pow2 (e - 1)) in *.
  unfold loc_of in H.
  destruct r, s, b; cbn [orb loc_of_shr_record inbetween Z.b2z] in *;
    change (inject_Z 1) with 1%Q in *; change (inject_Z 0) with 0%Q in *;
    rewrite ?Z.add_0_r in *;
    replace (e + 1 - 1) with e by lia;
    try (destruct H as (H1 & H2 & H3));
    try (apply Qgt_alt in H3); try (apply Qlt_alt in H3);
    try (apply Qeq_alt in H3);
    first [ lra
          | repeat split; try lra;
            first [ apply (proj1 (Qgt_alt _ _)); lra
                  | apply (proj1 (Qlt_alt _ _)); lra
                  | apply (proj1 (Qeq_alt _ _)); lra ] ].
Qed.

Lemma iter_shr_inbetween x p : forall mrs e,
  0 <= shr_m mrs ->
  inbetween x (shr_m mrs) e (loc_of mrs) ->
  0 <= shr_m (iter_pos shr_1 p mrs)
  /\ inbetween x (shr_m (iter_pos shr_1 p mrs)) (e + Z.pos p)
               (loc_of (iter_pos shr_1 p mrs)).
Proof.
  induction p as [p IH|p IH|]; intros mrs e Hm H; cbn [iter_pos].
  - destruct (shr_1_inbetween x mrs e Hm H) as [Hm1 H1].
    destruct (IH _ _ Hm1 H1) as [Hm2 H2].
    destruct (IH _ _ Hm2 H2) as [Hm3 H3].
    split; [exact Hm3|].
    now replace (e + Z.pos p~1) with (e + 1 + Z.pos p + Z.pos p) by lia.
  - destruct (IH _ _ Hm H) as [Hm2 H2].
    destruct (IH _ _ Hm2 H2) as [Hm3 H3].
    split; [exact Hm3|].
    now replace (e + Z.pos p~0) with (e + Z.pos p + Z.pos p) by lia.
  - now apply shr_1_inbetween.
Qed.

Lemma shr_inbetween x mrs e n :
  0 <= n -> 0 <= shr_m mrs ->
  inbetween x (shr_m mrs) e (loc_of mrs) ->
  snd (shr mrs e n) = e + n
  /\ 0 <= shr_m (fst (shr mrs e n))
  /\ inbetween x (shr_m (fst (shr mrs e n))) (e + n) (loc_of (fst (shr mrs e n))).
Proof.
  intros Hn Hm H. destruct n as [|p|p]; try lia; cbn [shr fst snd].
  - rewrite Z.add_0_r. auto.
  - split; [reflexivity|]. now apply iter_shr_inbetween.
Qed.

Lemma shr_noop mrs e n : n <= 0 -> shr mrs e n = (mrs, e).
Proof. destruct n; try lia; reflexivity. Qed.

Lemma loc_of_record m l : loc_of (shr_record_of_loc m l) = l.
Proof. destruct l as [|[]]; reflexivity. Qed.

Lemma shr_m_record m l : shr_m (shr_record_of_loc m l) = m.
Proof. destruct l as [|[]]; reflexivity. Qed.

(** ** Rounding to nearest, ties to even *)

Lemma rne_range m l :
  m <= round_nearest_even m l <= m + 1.
Proof.
  destruct l as [|[]]; simpl; try lia. destruct (Z.even m); lia.
Qed.

Lemma rne_le x m e l t :
  inbetween x m e l -> (x <= F2Q t e)%Q -> round_nearest_even m l <= t.
Proof.
  intros H Hx. pose proof (rne_range m l).
  destruct l as [|c].
  - simpl in *. apply (F2Q_le_inv _ _ e). lra.
  - destruct H as (H1 & _). assert (m < t) by (apply (F2Q_lt_inv _ _ e); lra).
    lia.
Qed.

Lemma rne_ge x m e l t :
  inbetween x m e l -> (F2Q t e <= x)%Q -> t <= round_nearest_even m l.
Proof.
  intros H Hx. pose proof (rne_range m l).
  apply inbetween_bounds in H.
  assert (t < m + 1) by (apply (F2Q_lt_inv _ _ e); lra).
  lia.
Qed.

(** ** The rounding of [binary_round_aux] *)

Lemma fexp_eq e : fexp prec emax e = Z.max (e - 53) (-1074).
Proof. reflexivity. Qed.

Lemma pow2_F2Q e k : 0 <= k -> (pow2 (e + k) == F2Q (2 ^ k) e)%Q.
Proof.
  intros Hk. rewrite <- (Z.mul_1_l (2 ^ k)), (F2Q_shift 1 e k Hk).
  unfold F2Q. change (inject_Z 1) with 1%Q. ring.
Qed.

Lemma round_aux_correct x mx ex lx :
  0 <= mx -> inbetween x mx ex lx ->
  ex <= fexp prec emax (Zdigits2 mx + ex) ->
  exists f l,
    inbetween x f (fexp prec emax (Zdigits2 mx + ex)) l
    /\ 0 <= f < 2 ^ 53
    /\ (2 ^ 52 <= f \/ fexp prec emax (Zdigits2 mx + ex) = -1074)
    /\ binary_round_aux prec emax false mx ex lx
       = finish (round_nearest_even f l) (fexp prec emax (Zdigits2 mx + ex)).
Proof.
  intros Hmx Hin Hex.
  set (D := Zdigits2 mx + ex) in *.
  set (e1 := fexp prec emax D) in *.
  assert (He1 : e1 = Z.max (D - 53) (-1074)) by apply fexp_eq.
  unfold binary_round_aux, shr_fexp. fold D. fold e1.
  pose proof (shr_inbetween x (shr_record_of_loc mx lx) ex (e1 - ex)) as Hs.
  rewrite shr_m_record, loc_of_record in Hs.
  destruct Hs as (Hs1 & Hs2 & Hs3); [lia|exact Hmx|exact Hin|].
  destruct (shr (shr_record_of_loc mx lx) ex (e1 - ex)) as [mrs' e'].
  cbn [fst snd] in *. replace (ex + (e1 - ex)) with e1 in * by lia. subst e'.
  set (f := shr_m mrs') in *. set (l := loc_of mrs') in *.
  fold (loc_of mrs'). fold l.
  (* the range of x *)
  pose proof (inbetween_bounds _ _ _ _ Hin) as [Hxl Hxu].
  pose proof (inbetween_bounds _ _ _ _ Hs3) as [Hfl Hfu].
  assert (Hup : (x < F2Q (2 ^ 53) e1)%Q).
  { assert (mx + 1 <= 2 ^ Zdigits2 mx).
    { destruct (Z.eq_dec mx 0) as [->|N]; [simpl; lia|].
      pose proof (Zdigits2_bounds mx). lia. }
    assert (0 <= Zdigits2 mx) by (destruct mx; simpl; lia).
    assert (F2Q (mx + 1) ex <= F2Q (2 ^ Zdigits2 mx) ex)%Q by now apply F2Q_le.
    rewrite <- pow2_F2Q in * by lia.
    replace (ex + Zdigits2 mx) with D in * by (unfold D; lia).
    assert (pow2 D <= pow2 (e1 + 53))%Q by (apply pow2_le; lia). lra. }
  assert (Hf : 0 <= f < 2 ^ 53).
  { split; [exact Hs2|]. apply (F2Q_lt_inv _ _ e1). lra. }
  assert (Hlow : 2 ^ 52 <= f \/ e1 = -1074).
  { destruct (Z.eq_dec e1 (-1074)) as [E|N]; [now right|left].
    assert (Hpos : 0 < mx).
    { destruct (Z.eq_dec mx 0) as [E0|N0]; [|lia].
      subst mx. unfold D in *. simpl in *. lia. }
    pose proof (Zdigits2_bounds mx Hpos) as [Hd _].
    pose proof (Zdigits2_pos mx Hpos).
    assert (F2Q (2 ^ (Zdigits2 mx - 1)) ex <= F2Q mx ex)%Q by now apply F2Q_le.
    rewrite <- pow2_F2Q in * by lia.
    replace (ex + (Zdigits2 mx - 1)) with (e1 + 52) in * by (unfold D in *; lia).
    rewrite pow2_F2Q in * by lia.
    assert (2 ^ 52 < f + 1) by (apply (F2Q_lt_inv _ _ e1); lra).
    lia. }
  exists f, l. repeat split; try tauto; try lia.
  (* the second normalisation *)
  pose proof (rne_range f l) as Hr.
  set (m2 := round_nearest_even f l) in *.
  destruct (Z.eq_dec m2 0) as [E0|N0].
  - rewrite E0. simpl Zdigits2. rewrite shr_noop by (rewrite fexp_eq; lia).
    reflexivity.
  - destruct (Z.eq_dec m2 (2 ^ 53)) as [E|N].
    + rewrite E.
      replace (fexp prec emax (Zdigits2 (2 ^ 53) + e1) - e1) with 1
        by (rewrite fexp_eq; change (Zdigits2 (2 ^ 53)) with 54; lia).
      reflexivity.
    + assert (Hd : fexp prec emax (Zdigits2 m2 + e1) = e1).
      { rewrite fexp_eq. destruct Hlow as [Hl|Hl].
        - rewrite (Zdigits2_unique m2 53) by lia. lia.
        - pose proof (Zdigits2_le m2 53). lia. }
      rewrite Hd, Z.sub_diag. cbn [shr shr_record_of_loc shr_m].
      unfold finish. destruct m2 as [|p|p]; try lia.
      destruct (Z.eqb_spec (Z.pos p) (2 ^ 53)); [contradiction|reflexivity].
Qed.

(** ** Canonical numbers *)

Lemma bounded_inv m e :
  bounded prec emax m e = true ->
  Z.pos m < 2 ^ 53 /\ -1074 <= e <= 971
  /\ (2 ^ 52 <= Z.pos m \/ e = -1074).
Proof.
  unfold bounded, canonical_mantissa. intros H.
  apply andb_true_iff in H as [Hc He].
  apply Z.eqb_eq in Hc. apply Z.leb_le in He. rewrite fexp_eq in Hc.
  change (emax - prec) with 971 in He.
  pose proof (digits2_pos_bounds m) as [Hl Hu].
  assert (Hd : Z.pos (digits2_pos m) <= 53) by lia.
  assert (2 ^ Z.pos (digits2_pos m) <= 2 ^ 53) by (apply Z.pow_le_mono_r; lia).
  repeat split; try lia.
  destruct (Z.eq_dec e (-1074)) as [E|N]; [now right|left].
  replace (Z.pos (digits2_pos m)) with 53 in Hl by lia. exact Hl.
Qed.

Lemma bounded_intro m e :
  0 < m < 2 ^ 53 -> -1074 <= e <= 971 -> (2 ^ 52 <= m \/ e = -1074) ->
  bounded prec emax (Z.to_pos m) e = true.
Proof.
  intros Hm He Hc. unfold bounded, canonical_mantissa.
  apply andb_true_iff. split; [|apply Z.leb_le; change (emax - prec) with 971; lia].
  apply Z.eqb_eq. rewrite fexp_eq.
  change (Z.pos (digits2_pos (Z.to_pos m))) with (Zdigits2 (Z.pos (Z.to_pos m))).
  rewrite Z2Pos.id by lia.
  destruct Hc as [Hc|Hc].
  - rewrite (Zdigits2_unique m 53) by lia. lia.
  - pose proof (Zdigits2_le m 53). lia.
Qed.

Lemma bounded_lt_pow m e :
  bounded prec emax m e = true -> (F2Q (Z.pos m) e < pow2 1024)%Q.
Proof.
  intros H. apply bounded_inv in H as (Hm & He & _).
  assert (F2Q (Z.pos m) e < F2Q (2 ^ 53) e)%Q by now apply F2Q_lt.
  rewrite <- pow2_F2Q in * by lia.
  assert (pow2 (e + 53) <= pow2 1024)%Q by (apply pow2_le; lia). lra.
Qed.

(** What [finish] returns, for a mantissa rounded from [f]. *)
Lemma finish_spec f m2 e1 :
  0 <= f < 2 ^ 53 -> (2 ^ 52 <= f \/ e1 = -1074) -> -1074 <= e1 ->
  f <= m2 <= f + 1 ->
  match finish m2 e1 with
  | S754_zero false => m2 = 0
  | S754_finite false m e =>
      bounded prec emax m e = true /\ (F2Q (Z.pos m) e == F2Q m2 e1)%Q
  | S754_infinity false => (pow2 1024 <= F2Q m2 e1)%Q
  | _ => False
  end.
Proof.
  intros Hf Hc He Hm. unfold finish.
  destruct m2 as [|p|p]; try lia.
  destruct (Z.eqb_spec (Z.pos p) (2 ^ 53)) as [E|N].
  - destruct (Z.leb_spec (e1 + 1) 971) as [L|L].
    + split.
      * apply (bounded_intro (2 ^ 52) (e1 + 1)); lia.
      * rewrite E. rewrite <- (F2Q_shift (2 ^ 52) e1 1) by lia. reflexivity.
    + rewrite E, <- pow2_F2Q by lia. apply pow2_le. lia.
  - destruct (Z.leb_spec e1 971) as [L|L].
    + split; [|reflexivity].
      apply (bounded_intro (Z.pos p) e1); lia.
    + assert (2 ^ 52 <= Z.pos p) by lia.
      assert (F2Q (2 ^ 52) e1 <= F2Q (Z.pos p) e1)%Q by now apply F2Q_le.
      rewrite <- pow2_F2Q in * by lia.
      assert (pow2 1024 <= pow2 (e1 + 52))%Q by (apply pow2_le; lia). lra.
Qed.

(** Rounding does not cross a canonical number: a value below one
    rounds to a number that is not above it, and likewise from above. *)
Lemma round_aux_le x mx ex lx mhi ehi :
  0 <= mx -> inbetween x mx ex lx ->
  ex <= fexp prec emax (Zdigits2 mx + ex) ->
  bounded prec emax mhi ehi = true ->
  (x <= F2Q (Z.pos mhi) ehi)%Q ->
  rounded_in (binary_round_aux prec emax false mx ex lx) 0 (F2Q (Z.pos mhi) ehi).
Proof.
  intros Hmx Hin Hex Hb Hx.
  destruct (round_aux_correct x mx ex lx Hmx Hin Hex)
    as (f & l & Hfl & Hf & Hc & ->).
  set (e1 := fexp prec emax (Zdigits2 mx + ex)) in *.
  assert (He1 : -1074 <= e1) by (unfold e1; rewrite fexp_eq; lia).
  pose proof (bounded_inv _ _ Hb) as (Hm & He & _).
  pose proof (bounded_lt_pow _ _ Hb) as Hlt.
  pose proof (inbetween_bounds _ _ _ _ Hfl) as [Hxl Hxu].
  pose proof (rne_range f l) as Hr.
  assert (Hle : e1 <= ehi).
  { destruct (Z_lt_le_dec ehi e1) as [L|L]; [exfalso|exact L].
    destruct Hc as [Hc|Hc]; [|lia].
    assert (F2Q (2 ^ 52) e1 <= F2Q f e1)%Q by now apply F2Q_le.
    assert (F2Q (Z.pos mhi) ehi < F2Q (2 ^ 53) ehi)%Q by now apply F2Q_lt.
    rewrite <- pow2_F2Q in * by lia.
    assert (pow2 (ehi + 53) <= pow2 (e1 + 52))%Q by (apply pow2_le; lia).
    lra. }
  assert (Hgrid : (F2Q (Z.pos mhi * 2 ^ (ehi - e1)) e1 == F2Q (Z.pos mhi) ehi)%Q).
  { rewrite F2Q_shift by lia. now replace (e1 + (ehi - e1)) with ehi by lia. }
  assert (Hm2 : round_nearest_even f l <= Z.pos mhi * 2 ^ (ehi - e1)).
  { apply (rne_le x f e1 l); [exact Hfl|lra]. }
  apply (F2Q_le _ _ e1) in Hm2.
  pose proof (finish_spec f (round_nearest_even f l) e1 Hf Hc He1 Hr) as Hfin.
  unfold rounded_in.
  destruct (finish (round_nearest_even f l) e1) as [[|]|[|]| |[|] m e];
    try contradiction.
  - lra.
  - lra.
  - destruct Hfin as [Hbm Hv]. repeat split; [exact Hbm| |lra].
    rewrite Hv. apply F2Q_nonneg. lia.
Qed.

Lemma round_aux_between x mx ex lx mlo elo mhi ehi :
  0 <= mx -> inbetween x mx ex lx ->
  ex <= fexp prec emax (Zdigits2 mx + ex) ->
  bounded prec emax mlo elo = true ->
  bounded prec emax mhi ehi = true ->
  (F2Q (Z.pos mlo) elo <= x)%Q ->
  (x <= F2Q (Z.pos mhi) ehi)%Q ->
  rounded_in (binary_round_aux prec emax false mx ex lx)
             (F2Q (Z.pos mlo) elo) (F2Q (Z.pos mhi) ehi).
Proof.
  intros Hmx Hin Hex Hbl Hbh Hlo Hhi.
  pose proof (round_aux_le x mx ex lx mhi ehi Hmx Hin Hex Hbh Hhi) as Hle.
  destruct (round_aux_correct x mx ex lx Hmx Hin Hex)
    as (f & l & Hfl & Hf & Hc & E).
  rewrite E in *. clear E.
  set (e1 := fexp prec emax (Zdigits2 mx + ex)) in *.
  assert (He1 : -1074 <= e1) by (unfold e1; rewrite fexp_eq; lia).
  pose proof (bounded_inv _ _ Hbl) as (Hm & He & _).
  pose proof (rne_range f l) as Hr.
  assert (Hpos : (0 < F2Q (Z.pos mlo) elo)%Q) by (apply F2Q_pos; lia).
  assert (Hge : (F2Q (Z.pos mlo) elo <= F2Q (round_nearest_even f l) e1)%Q).
  { destruct (Z_lt_le_dec elo e1) as [L|L].
    - destruct Hc as [Hc|Hc]; [|lia].
      assert (F2Q (2 ^ 52) e1 <= F2Q (round_nearest_even f l) e1)%Q
        by (apply F2Q_le; lia).
      assert (F2Q (Z.pos mlo) elo < F2Q (2 ^ 53) elo)%Q by now apply F2Q_lt.
      rewrite <- pow2_F2Q in * by lia.
      assert (pow2 (elo + 53) <= pow2 (e1 + 52))%Q by (apply pow2_le; lia).
      lra.
    - assert (Hgrid : (F2Q (Z.pos mlo * 2 ^ (elo - e1)) e1
                       == F2Q (Z.pos mlo) elo)%Q).
      { rewrite F2Q_shift by lia. now replace (e1 + (elo - e1)) with elo by lia. }
      rewrite <- Hgrid. apply F2Q_le.
      apply (rne_ge x f e1 l); [exact Hfl|lra]. }
  pose proof (finish_spec f (round_nearest_even f l) e1 Hf Hc He1 Hr) as Hfin.
  unfold rounded_in in *.
  destruct (finish (round_nearest_even f l) e1) as [[|]|[|]| |[|] m e];
    try contradiction.
  - rewrite Hfin in Hge. unfold F2Q at 2 in Hge.
    change (inject_Z 0) with 0%Q in Hge. lra.
  - destruct Hfin as [Hbm Hv]. destruct Hle as (_ & _ & Hu).
    repeat split; [exact Hbm| |exact Hu]. rewrite Hv. exact Hge.
Qed.

(** ** Comparison of canonical numbers *)

Lemma SFcompare_pos m1 e1 m2 e2 :
  bounded prec emax m1 e1 = true -> bounded prec emax m2 e2 = true ->
  SFcompare (S754_finite false m1 e1) (S754_finite false m2 e2)
  = Some (F2Q (Z.pos m1) e1 ?= F2Q (Z.pos m2) e2)%Q.
Proof.
  intros H1 H2.
  apply bounded_inv in H1 as (Hm1 & He1 & Hc1).
  apply bounded_inv in H2 as (Hm2 & He2 & Hc2).
  assert (Hlt : forall ma ea mb eb,
             Z.pos ma < 2 ^ 53 -> -1074 <= ea -> ea < eb ->
             (2 ^ 52 <= Z.pos mb \/ eb = -1074) ->
             (F2Q (Z.pos ma) ea < F2Q (Z.pos mb) eb)%Q).
  { intros ma ea mb eb Ha Hea Hab [Hb|Hb]; [|lia].
    assert (F2Q (Z.pos ma) ea < F2Q (2 ^ 53) ea)%Q by now apply F2Q_lt.
    assert (F2Q (2 ^ 52) eb <= F2Q (Z.pos mb) eb)%Q by now apply F2Q_le.
    rewrite <- pow2_F2Q in * by lia.
    assert (pow2 (ea + 53) <= pow2 (eb + 52))%Q by (apply pow2_le; lia).
    lra. }
  cbn [SFcompare]. f_equal. symmetry.
  destruct (Z.compare_spec e1 e2) as [E|L|L].
  - subst e2. rewrite Pos.compare_cont_spec. cbn [Pos.switch_Eq].
    destruct (Pos.compare_spec m1 m2) as [E|L|L].
    + subst. apply Qeq_alt. reflexivity.
    + apply Qlt_alt, F2Q_lt. lia.
    + apply Qgt_alt, F2Q_lt. lia.
  - apply Qlt_alt, Hlt; lia || assumption.
  - apply Qgt_alt, Hlt; lia || assumption.
Qed.

Lemma SFltb_pos m1 e1 m2 e2 :
  bounded prec emax m1 e1 = true -> bounded prec emax m2 e2 = true ->
  SFltb (S754_finite false m1 e1) (S754_finite false m2 e2) = true
  <-> (F2Q (Z.pos m1) e1 < F2Q (Z.pos m2) e2)%Q.
Proof.
  intros H1 H2. unfold SFltb. rewrite (SFcompare_pos _ _ _ _ H1 H2).
  rewrite Qlt_alt.
  destruct (F2Q (Z.pos m1) e1 ?= F2Q (Z.pos m2) e2)%Q; split; congruence.
Qed.

(** ** [binary_round_aux] keeps the sign it is given *)

Lemma binary_round_aux_sign sx m e l :
  match binary_round_aux prec emax sx m e l with
  | S754_zero s | S754_infinity s | S754_finite s _ _ => s = sx
  | S754_nan => True
  end.
Proof.
  unfold binary_round_aux.
  destruct (shr_fexp prec emax m e l) as [mrs' e'].
  destruct (shr_fexp prec emax _ e' loc_Exact) as [mrs'' e''].
  destruct (shr_m mrs''); try reflexivity.
  destruct (e'' <=? emax - prec); reflexivity.
Qed.

(** ** [binary_round]: rounding of [m * 2^e] *)

Lemma iter_xO m d : Z.pos (Pos.iter xO m d) = Z.pos m * 2 ^ Z.pos d.
Proof.
  induction d as [|d IH] using Pos.peano_ind.
  - cbn [Pos.iter]. lia.
  - rewrite Pos.iter_succ, Pos2Z.inj_succ, Z.pow_succ_r by lia.
    change (Z.pos (Pos.iter xO m d)~0) with (2 * Z.pos (Pos.iter xO m d)).
    rewrite IH. ring.
Qed.

Lemma shl_align_spec mx ex ex' :
  snd (shl_align mx ex ex') = Z.min ex ex'
  /\ Z.pos (fst (shl_align mx ex ex')) = Z.pos mx * 2 ^ (ex - Z.min ex ex').
Proof.
  unfold shl_align. destruct (ex' - ex) as [|d|d] eqn:E; cbn [fst snd].
  - replace (Z.min ex ex') with ex by lia. rewrite Z.sub_diag. lia.
  - replace (Z.min ex ex') with ex by lia. rewrite Z.sub_diag. lia.
  - replace (Z.min ex ex') with ex' by lia.
    split; [reflexivity|]. rewrite iter_xO. f_equal. f_equal. lia.
Qed.

Lemma Zdigits2_shift m k :
  0 < m -> 0 <= k -> Zdigits2 (m * 2 ^ k) = Zdigits2 m + k.
Proof.
  intros Hm Hk. pose proof (Zdigits2_bounds m Hm) as [Hl Hu].
  pose proof (Zdigits2_pos m Hm).
  assert (0 < 2 ^ k) by (apply Z.pow_pos_nonneg; lia).
  apply Zdigits2_unique; [lia|].
  replace (Zdigits2 m + k - 1) with (Zdigits2 m - 1 + k) by lia.
  rewrite !Z.pow_add_r by lia. nia.
Qed.

Lemma Zdigits2_ge m d : 0 < d -> 2 ^ (d - 1) <= m -> d <= Zdigits2 m.
Proof.
  intros Hd Hm.
  assert (0 < m) by (pose proof (Z.pow_pos_nonneg 2 (d - 1)); lia).
  pose proof (Zdigits2_bounds m H) as [Hl Hu].
  destruct (Z_lt_le_dec (Zdigits2 m) d) as [L|L]; [|exact L].
  assert (2 ^ Zdigits2 m <= 2 ^ (d - 1))
    by (apply Z.pow_le_mono_r; pose proof (Zdigits2_pos m H); lia).
  lia.
Qed.

(** [binary_round] hands [binary_round_aux] an exact bracket of
    [m * 2^e] with enough digits. *)
Lemma binary_round_aux_of_round sx mx ex :
  exists mz ez,
    binary_round prec emax sx mx ex
    = binary_round_aux prec emax sx (Z.pos mz) ez loc_Exact
    /\ inbetween (F2Q (Z.pos mx) ex) (Z.pos mz) ez loc_Exact
    /\ ez <= fexp prec emax (Zdigits2 (Z.pos mz) + ez).
Proof.
  unfold binary_round.
  pose proof (shl_align_spec mx ex (fexp prec emax (Z.pos (digits2_pos mx) + ex)))
    as [He Hm].
  destruct (shl_align mx ex (fexp prec emax (Z.pos (digits2_pos mx) + ex)))
    as [mz ez].
  cbn [fst snd] in *. exists mz, ez. split; [reflexivity|].
  assert (Hk : 0 <= ex - ez) by lia.
  rewrite <- He in Hm.
  split.
  - cbn [inbetween]. rewrite Hm, F2Q_shift by lia.
    now replace (ez + (ex - ez)) with ex by lia.
  - rewrite Hm, Zdigits2_shift by lia.
    change (Zdigits2 (Z.pos mx)) with (Z.pos (digits2_pos mx)).
    replace (Z.pos (digits2_pos mx) + (ex - ez) + ez)
      with (Z.pos (digits2_pos mx) + ex) by lia.
    lia.
Qed.

Lemma binary_round_le mx ex mhi ehi :
  bounded prec emax mhi ehi = true ->
  (F2Q (Z.pos mx) ex <= F2Q (Z.pos mhi) ehi)%Q ->
  rounded_in (binary_round prec emax false mx ex) 0 (F2Q (Z.pos mhi) ehi).
Proof.
  intros Hb Hx.
  destruct (binary_round_aux_of_round false mx ex) as (mz & ez & -> & Hin & Hd).
  apply (round_aux_le (F2Q (Z.pos mx) ex)); auto. lia.
Qed.

Lemma binary_round_between mx ex mlo elo mhi ehi :
  bounded prec emax mlo elo = true ->
  bounded prec emax mhi ehi = true ->
  (F2Q (Z.pos mlo) elo <= F2Q (Z.pos mx) ex)%Q ->
  (F2Q (Z.pos mx) ex <= F2Q (Z.pos mhi) ehi)%Q ->
  rounded_in (binary_round prec emax false mx ex)
             (F2Q (Z.pos mlo) elo) (F2Q (Z.pos mhi) ehi).
Proof.
  intros Hbl Hbh Hlo Hhi.
  destruct (binary_round_aux_of_round false mx ex) as (mz & ez & -> & Hin & Hd).
  apply (round_aux_between (F2Q (Z.pos mx) ex)); auto. lia.
Qed.

(** ** The three operations of [calculateFuzzyScore] *)

Lemma of_Z_1 : of_Z 1 = S754_finite false m_one (-52).
Proof. reflexivity. Qed.

Lemma of_Z_50 : of_Z 50 = S754_finite false m_fifty (-47).
Proof. reflexivity. Qed.

Lemma lit_0_6_eq : lit_0_6 = S754_finite false m_0_6 (-53).
Proof. reflexivity. Qed.

Lemma value_one : (F2Q (Z.pos m_one) (-52) == 1)%Q.
Proof. vm_compute. reflexivity. Qed.

Lemma value_0_6 : (F2Q (Z.pos m_0_6) (-53) == 5404319552844595 # 9007199254740992)%Q.
Proof. vm_compute. reflexivity. Qed.

Lemma value_fifty : (F2Q (Z.pos m_fifty) (-47) == 50)%Q.
Proof. vm_compute. reflexivity. Qed.

Lemma value_29_5 : (F2Q (Z.pos m_29_5) (-48) == 59 # 2)%Q.
Proof. vm_compute. reflexivity. Qed.

Lemma F2Q_sub a b e : (F2Q (a - b) e == F2Q a e - F2Q b e)%Q.
Proof.
  unfold F2Q, Z.sub. rewrite inject_Z_plus, inject_Z_opp. ring.
Qed.

(** [1 - q] for a [q] that is not below zero: when the difference is
    above the literal [0.6], it is a canonical number and at most 1. *)
Lemma sub_one_gt q :
  nonneg q ->
  gtb (sub (of_Z 1) q) lit_0_6 = true ->
  exists m e,
    sub (of_Z 1) q = S754_finite false m e
    /\ bounded prec emax m e = true
    /\ (F2Q (Z.pos m_0_6) (-53) < F2Q (Z.pos m) e)%Q
    /\ (F2Q (Z.pos m) e <= 1)%Q.
Proof.
  intros Hq. rewrite of_Z_1, lit_0_6_eq. unfold gtb, sub.
  assert (Hc : bounded prec emax m_0_6 (-53) = true) by reflexivity.
  assert (H1 : bounded prec emax m_one (-52) = true) by reflexivity.
  destruct q as [s|[|]| |[|] mq eq]; cbn [SFsub nonneg] in *; try contradiction;
    try discriminate.
  - (* q is zero *)
    intros Hgt. exists m_one, (-52).
    split; [reflexivity|]. split; [exact H1|]. split.
    + now apply (SFltb_pos _ _ _ _ Hc H1).
    + rewrite value_one. lra.
  - (* q is a positive number *)
    set (ez := Z.min (-52) eq).
    pose proof (shl_align_spec m_one (-52) ez) as [_ E1].
    pose proof (shl_align_spec mq eq ez) as [_ Eq].
    replace (Z.min (-52) ez) with ez in E1 by lia.
    replace (Z.min eq ez) with ez in Eq by lia.
    cbn [cond_Zopp]. rewrite E1, Eq.
    set (Z1 := Z.pos m_one * 2 ^ (-52 - ez)).
    set (Zq := Z.pos mq * 2 ^ (eq - ez)).
    assert (V1 : (F2Q Z1 ez == 1)%Q).
    { unfold Z1. rewrite F2Q_shift by lia.
      replace (ez + (-52 - ez)) with (-52) by lia. apply value_one. }
    assert (Vq : (0 < F2Q Zq ez)%Q).
    { apply F2Q_pos. unfold Zq.
      assert (0 < 2 ^ (eq - ez)) by (apply Z.pow_pos_nonneg; lia). lia. }
    pose proof (F2Q_sub Z1 Zq ez) as Hd.
    destruct (Z1 - Zq) as [|p|p]; cbn [binary_normalize].
    + discriminate.
    + intros Hgt.
      assert (Hx : (F2Q (Z.pos p) ez <= F2Q (Z.pos m_one) (-52))%Q)
        by (rewrite value_one; lra).
      pose proof (binary_round_le p ez m_one (-52) H1 Hx) as Hr.
      unfold rounded_in in Hr.
      destruct (binary_round prec emax false p ez) as [[|]|[|]| |[|] m e];
        try contradiction; try discriminate.
      destruct Hr as (Hb & _ & Hu). rewrite value_one in Hu.
      exists m, e.
      split; [reflexivity|]. split; [exact Hb|]. split; [|exact Hu].
      now apply (SFltb_pos _ _ _ _ Hc Hb).
    + unfold binary_round.
      destruct (shl_align p ez _) as [mz ez'].
      pose proof (binary_round_aux_sign true (Z.pos mz) ez' loc_Exact) as Hs.
      destruct (binary_round_aux prec emax true (Z.pos mz) ez' loc_Exact)
        as [s|s| |s m e]; subst; discriminate.
Qed.

(** [sim * 50] for a [sim] above the literal [0.6] and at most 1. *)
Lemma mul_fifty m e :
  (F2Q (Z.pos m_0_6) (-53) < F2Q (Z.pos m) e)%Q ->
  (F2Q (Z.pos m) e <= 1)%Q ->
  exists m' e',
    mul (S754_finite false m e) (of_Z 50) = S754_finite false m' e'
    /\ (59 # 2 <= F2Q (Z.pos m') e')%Q /\ (F2Q (Z.pos m') e' <= 50)%Q.
Proof.
  intros Hlo Hhi. rewrite of_Z_50. unfold mul. cbn [SFmul xorb].
  assert (Hx : (F2Q (Z.pos (m * m_fifty)) (e + -47) == F2Q (Z.pos m) e * 50)%Q).
  { rewrite <- value_fifty. unfold F2Q.
    rewrite Pos2Z.inj_mul, inject_Z_mult, pow2_add. ring. }
  rewrite value_0_6 in Hlo.
  assert (Hd : e + -47 <= fexp prec emax (Zdigits2 (Z.pos (m * m_fifty)) + (e + -47))).
  { rewrite fexp_eq.
    assert (53 <= Zdigits2 (Z.pos (m * m_fifty))).
    { apply Zdigits2_ge; [lia|]. rewrite Pos2Z.inj_mul.
      change (2 ^ (53 - 1)) with (Z.pos m_one). unfold m_fifty, m_one. nia. }
    lia. }
  assert (Hl : (F2Q (Z.pos m_29_5) (-48) <= F2Q (Z.pos (m * m_fifty)) (e + -47))%Q)
    by (rewrite value_29_5, Hx; lra).
  assert (Hu : (F2Q (Z.pos (m * m_fifty)) (e + -47) <= F2Q (Z.pos m_fifty) (-47))%Q)
    by (rewrite value_fifty, Hx; lra).
  pose proof (round_aux_between (F2Q (Z.pos (m * m_fifty)) (e + -47))
                (Z.pos (m * m_fifty)) (e + -47) loc_Exact
                m_29_5 (-48) m_fifty (-47)
                ltac:(lia) ltac:(reflexivity) Hd eq_refl eq_refl Hl Hu) as Hr.
  unfold rounded_in in Hr.
  destruct (binary_round_aux prec emax false (Z.pos (m * m_fifty)) (e + -47) loc_Exact)
    as [[|]|[|]| |[|] m' e']; try contradiction.
  destruct Hr as (_ & Hr1 & Hr2). rewrite value_29_5 in Hr1.
  rewrite value_fifty in Hr2. exists m', e'. auto.
Qed.

(** [Math.round] of a number between 29.5 and 50. *)
Lemma Math_round_bounds m e :
  (59 # 2 <= F2Q (Z.pos m) e)%Q -> (F2Q (Z.pos m) e <= 50)%Q ->
  30 <= Math_round (S754_finite false m e) <= 50.
Proof.
  intros Hlo Hhi. unfold Math_round.
  destruct (Z.leb_spec 0 e) as [He|He].
  - unfold F2Q in *. rewrite pow2_Z, <- inject_Z_mult in * by lia.
    assert (inject_Z 29 < inject_Z (Z.pos m * 2 ^ e))%Q
      by (change (inject_Z 29) with 29%Q; lra).
    assert (inject_Z (Z.pos m * 2 ^ e) <= inject_Z 50)%Q
      by (change (inject_Z 50) with 50%Q; lra).
    rewrite <- Zlt_Qlt in *. rewrite <- Zle_Qle in *. lia.
  - assert (Hk : 0 < 2 ^ (- e)) by (apply Z.pow_pos_nonneg; lia).
    assert (Hv : (F2Q (Z.pos m) e * inject_Z (2 ^ (- e)) == inject_Z (Z.pos m))%Q).
    { unfold F2Q. rewrite <- pow2_Z by lia.
      rewrite <- Qmult_assoc, <- pow2_add.
      replace (e + - e) with 0 by lia. change (pow2 0) with 1%Q. ring. }
    assert (Hp : (0 < inject_Z (2 ^ (- e)))%Q)
      by (change 0%Q with (inject_Z 0); now rewrite <- Zlt_Qlt).
    assert (H1 : (inject_Z (59 * 2 ^ (- e)) <= inject_Z (2 * Z.pos m))%Q).
    { rewrite !inject_Z_mult, <- Hv.
      change (inject_Z 59) with 59%Q. change (inject_Z 2) with 2%Q. nra. }
    assert (H2 : (inject_Z (Z.pos m) <= inject_Z (50 * 2 ^ (- e)))%Q).
    { rewrite !inject_Z_mult, <- Hv. change (inject_Z 50) with 50%Q. nra. }
    rewrite <- Zle_Qle in H1, H2.
    replace (1 - e) with (Z.succ (- e)) by lia.
    rewrite Z.pow_succ_r by lia.
    split.
    + apply Z.div_le_lower_bound; lia.
    + assert (Hlt : (2 * Z.pos m + 2 ^ (- e)) / (2 * 2 ^ (- e)) < 51)
        by (apply Z.div_lt_upper_bound; lia).
      lia.
Qed.

(** ** Integers and their quotient, as [calculateSimilarity] needs them *)

Lemma bounded_unique m1 e1 m2 e2 :
  bounded prec emax m1 e1 = true -> bounded prec emax m2 e2 = true ->
  (F2Q (Z.pos m1) e1 == F2Q (Z.pos m2) e2)%Q ->
  S754_finite false m1 e1 = S754_finite false m2 e2.
Proof.
  intros H1 H2 Hv.
  pose proof (SFltb_pos _ _ _ _ H1 H2) as L12.
  pose proof (SFltb_pos _ _ _ _ H2 H1) as L21.
  unfold SFltb in *. cbn [SFcompare] in *.
  destruct (Z.compare_spec e1 e2) as [E|L|L].
  - subst e2. assert (Z.pos m1 = Z.pos m2).
    { apply Z.le_antisymm; apply (F2Q_le_inv _ _ e1); lra. }
    congruence.
  - assert (F2Q (Z.pos m1) e1 < F2Q (Z.pos m2) e2)%Q by now apply L12. lra.
  - rewrite Z.compare_antisym in L21.
    destruct (Z.compare_spec e1 e2) as [E'|L'|L']; try lia.
    cbn [CompOpp] in L21.
    assert (F2Q (Z.pos m2) e2 < F2Q (Z.pos m1) e1)%Q by now apply L21. lra.
Qed.

Lemma binary_round_exact mx ex m e :
  bounded prec emax m e = true ->
  (F2Q (Z.pos mx) ex == F2Q (Z.pos m) e)%Q ->
  binary_round prec emax false mx ex = S754_finite false m e.
Proof.
  intros Hb Hv.
  pose proof (binary_round_between mx ex m e m e Hb Hb) as Hr.
  specialize (Hr ltac:(lra) ltac:(lra)). unfold rounded_in in Hr.
  assert (Hpos : (0 < F2Q (Z.pos m) e)%Q) by (apply F2Q_pos; lia).
  destruct (binary_round prec emax false mx ex) as [[|]|[|]| |[|] m' e'];
    try contradiction.
  - lra.
  - destruct Hr as (Hb' & Hl & Hu). apply bounded_unique; auto. lra.
Qed.

(** An integer below 2^53 is a Number, exactly. *)
Lemma of_Z_exact z :
  0 < z < 2 ^ 53 ->
  exists m e,
    of_Z z = S754_finite false m e
    /\ bounded prec emax m e = true
    /\ 2 ^ 52 <= Z.pos m
    /\ (F2Q (Z.pos m) e == inject_Z z)%Q.
Proof.
  intros Hz.
  pose proof (Zdigits2_bounds z ltac:(lia)) as [Hl Hu].
  pose proof (Zdigits2_pos z ltac:(lia)) as Hd.
  assert (Hd53 : Zdigits2 z <= 53) by (apply Zdigits2_le; lia).
  set (k := 53 - Zdigits2 z) in *.
  assert (Hk : 0 < 2 ^ k) by (apply Z.pow_pos_nonneg; lia).
  assert (Hm : 2 ^ 52 <= z * 2 ^ k < 2 ^ 53).
  { assert (E52 : 2 ^ 52 = 2 ^ (Zdigits2 z - 1) * 2 ^ k)
      by (rewrite <- Z.pow_add_r by lia; f_equal; lia).
    assert (E53 : 2 ^ 53 = 2 ^ Zdigits2 z * 2 ^ k)
      by (rewrite <- Z.pow_add_r by lia; f_equal; lia).
    rewrite E52, E53. nia. }
  exists (Z.to_pos (z * 2 ^ k)), (- k).
  assert (Hb : bounded prec emax (Z.to_pos (z * 2 ^ k)) (- k) = true)
    by (apply bounded_intro; lia).
  assert (Hv : (F2Q (Z.pos (Z.to_pos (z * 2 ^ k))) (- k) == inject_Z z)%Q).
  { rewrite Z2Pos.id by lia. rewrite F2Q_shift by lia.
    replace (- k + k) with 0 by lia. unfold F2Q. change (pow2 0) with 1%Q. ring. }
  repeat split; auto; [|rewrite Z2Pos.id; lia].
  unfold of_Z. destruct z as [|p|p]; try lia. cbn [binary_normalize].
  apply binary_round_exact; [exact Hb|].
  rewrite Hv. unfold F2Q. change (pow2 0) with 1%Q. ring.
Qed.

Lemma new_location_inbetween a b e :
  0 <= a -> 0 < b ->
  inbetween (inject_Z a / inject_Z b * pow2 e) (a / b) e
            (new_location b (a mod b)).
Proof.
  intros Ha Hb.
  pose proof (Z.div_mod a b ltac:(lia)) as Hdm.
  pose proof (Z.mod_pos_bound a b Hb) as Hr.
  set (q := a / b) in *. set (r := a mod b) in *.
  pose proof (pow2_pos e) as HP. pose proof (pow2_pred e) as He.
  pose proof (pow2_pos (e - 1)) as Hu.
  assert (HB : (0 < inject_Z b)%Q)
    by (change 0%Q with (inject_Z 0); now rewrite <- Zlt_Qlt).
  set (y := (inject_Z r / inject_Z b)%Q).
  assert (Hx : (inject_Z a / inject_Z b * pow2 e
                == F2Q q e + y * pow2 e)%Q).
  { unfold F2Q, y. rewrite Hdm, inject_Z_plus, inject_Z_mult. field. lra. }
  assert (Hy : (y * inject_Z b == inject_Z r)%Q) by (unfold y; field; lra).
  assert (Hy0 : (0 <= y)%Q).
  { unfold y. apply Qle_shift_div_l; [exact HB|].
    rewrite Qmult_0_l. change 0%Q with (inject_Z 0). rewrite <- Zle_Qle. lia. }
  assert (Hy1 : (y < 1)%Q).
  { unfold y. apply Qlt_shift_div_r; [exact HB|].
    rewrite Qmult_1_l. rewrite <- Zlt_Qlt. lia. }
  assert (Hcmp : forall c, Z.compare (2 * r) b = c -> Qcompare y (1 # 2) = c).
  { intros c Hc.
    assert (E2 : (inject_Z (2 * r) == 2 * y * inject_Z b)%Q)
      by (rewrite inject_Z_mult, <- Hy; change (inject_Z 2) with 2%Q; ring).
    destruct (Z.compare_spec (2 * r) b) as [E|L|L]; subst c.
    - assert (Eb : (inject_Z b == 2 * inject_Z r)%Q)
        by (rewrite <- E, inject_Z_mult; reflexivity).
      assert (Hr0 : (0 < inject_Z r)%Q) by lra.
      assert (H0 : ((2 * y - 1) * inject_Z r == 0)%Q)
        by (rewrite Eb in Hy; lra).
      apply Qmult_integral in H0 as [H0|H0]; apply (proj1 (Qeq_alt _ _)); lra.
    - apply (proj1 (Qlt_alt _ _)). rewrite Zlt_Qlt, E2 in L.
      apply (Qmult_lt_r _ _ (inject_Z b) HB). lra.
    - apply (proj1 (Qgt_alt _ _)). rewrite Zlt_Qlt, E2 in L.
      apply (Qmult_lt_r _ _ (inject_Z b) HB). lra. }
  assert (Hmid : (F2Q (2 * q + 1) (e - 1) == F2Q q e + (1 # 2) * pow2 e)%Q)
    by (rewrite F2Q_half, He; ring).
  assert (Hsucc := F2Q_succ q e).
  assert (Hloc : forall c, Qcompare y (1 # 2) = c -> 0 < r ->
                 inbetween (inject_Z a / inject_Z b * pow2 e) q e (loc_Inexact c)).
  { intros c Hc Hr0. cbn [inbetween].
    assert (0 < y)%Q.
    { unfold y. apply Qlt_shift_div_l; [exact HB|]. rewrite Qmult_0_l.
      change 0%Q with (inject_Z 0). rewrite <- Zlt_Qlt. lia. }
    assert (HyP0 : (0 < y * pow2 e)%Q) by now apply Qmult_lt_0_compat.
    assert (HyP1 : (y * pow2 e < 1 * pow2 e)%Q)
      by now apply (Qmult_lt_r _ _ (pow2 e) HP).
    repeat split; try (rewrite Hx; lra).
    rewrite Hx, Hmid.
    destruct c.
    - apply Qeq_alt in Hc. apply (proj1 (Qeq_alt _ _)). rewrite Hc. ring.
    - apply Qlt_alt in Hc. apply (proj1 (Qlt_alt _ _)).
      apply (Qmult_lt_r _ _ (pow2 e) HP) in Hc. lra.
    - apply Qgt_alt in Hc. apply (proj1 (Qgt_alt _ _)).
      apply (Qmult_lt_r _ _ (pow2 e) HP) in Hc. lra. }
  assert (Hzero : r = 0 ->
                  inbetween (inject_Z a / inject_Z b * pow2 e) q e loc_Exact).
  { intros E0.
    assert (Hyz : (y == 0)%Q) by (unfold y; rewrite E0; field; lra).
    assert (HyP : (y * pow2 e == 0)%Q) by (rewrite Hyz; ring).
    cbn [inbetween]. lra. }
  unfold new_location, new_location_even, new_location_odd.
  destruct (Z.even b) eqn:Eb; destruct (r =? 0) eqn:Er.
  - apply Hzero. now apply Z.eqb_eq.
  - apply Z.eqb_neq in Er. apply Hloc; [|lia]. now apply Hcmp.
  - apply Hzero. now apply Z.eqb_eq.
  - apply Z.eqb_neq in Er. apply Hloc; [|lia]. apply Hcmp.
    assert (Hodd : Z.odd b = true) by (rewrite <- Z.negb_even, Eb; reflexivity).
    apply Z.odd_spec in Hodd as [k Hk].
    destruct (Z.compare_spec (2 * r + 1) b) as [E|L|L];
      destruct (Z.compare_spec (2 * r) b) as [E'|L'|L']; try reflexivity; lia.
Qed.

Lemma fexp_mono a b : a <= b -> fexp prec emax a <= fexp prec emax b.
Proof. intros H. rewrite !fexp_eq. lia. Qed.

(** The quotient of two normal numbers: [SFdiv] hands [binary_round_aux]
    a bracket of the exact quotient with enough digits. *)
Lemma SFdiv_bracket m1 e1 m2 e2 :
  2 ^ 52 <= Z.pos m1 < 2 ^ 53 -> 2 ^ 52 <= Z.pos m2 < 2 ^ 53 ->
  exists q e' l,
    0 <= q
    /\ inbetween (F2Q (Z.pos m1) e1 / F2Q (Z.pos m2) e2) q e' l
    /\ e' <= fexp prec emax (Zdigits2 q + e')
    /\ div (S754_finite false m1 e1) (S754_finite false m2 e2)
       = binary_round_aux prec emax false q e' l.
Proof.
  intros H1 H2. unfold div. cbn [SFdiv xorb]. unfold SFdiv_core_binary.
  rewrite (Zdigits2_unique (Z.pos m1) 53), (Zdigits2_unique (Z.pos m2) 53) by lia.
  set (e' := Z.min (fexp prec emax (53 + e1 - (53 + e2))) (e1 - e2)).
  set (s := e1 - e2 - e').
  assert (Hs : 0 <= s) by (unfold s, e'; lia).
  set (m' := match s with
             | 0 => Z.pos m1
             | Z.pos _ => Z.shiftl (Z.pos m1) s
             | Z.neg _ => 0
             end).
  assert (Hm' : m' = Z.pos m1 * 2 ^ s).
  { unfold m'. destruct s as [|p|p] eqn:Es; try lia.
    now rewrite Z.shiftl_mul_pow2 by lia. }
  assert (H2s : 0 < 2 ^ s) by (apply Z.pow_pos_nonneg; lia).
  pose proof (new_location_inbetween m' (Z.pos m2) e' ltac:(nia) ltac:(lia)) as Hin.
  unfold Z.div, Z.modulo in Hin.
  destruct (Z.div_eucl m' (Z.pos m2)) as [q r] eqn:Ediv.
  assert (Hq : q = m' / Z.pos m2) by (unfold Z.div; now rewrite Ediv).
  exists q, e', (new_location (Z.pos m2) r).
  assert (Hq0 : 0 <= q) by (rewrite Hq; apply Z.div_pos; nia).
  split; [exact Hq0|]. split; [|split; [|reflexivity]].
  - assert (Hx : (F2Q (Z.pos m1) e1 / F2Q (Z.pos m2) e2
                  == inject_Z m' / inject_Z (Z.pos m2) * pow2 e')%Q).
    { rewrite Hm', inject_Z_mult, <- (pow2_Z s) by lia. unfold F2Q.
      replace e1 with (s + e' + e2) at 1 by (unfold s; lia).
      rewrite !pow2_add.
      pose proof (pow2_pos e2). pose proof (pow2_pos e').
      assert (0 < inject_Z (Z.pos m2))%Q by reflexivity.
      field. split; lra. }
    destruct (new_location (Z.pos m2) r) as [|c]; cbn [inbetween] in *.
    + rewrite Hx. exact Hin.
    + rewrite Hx. exact Hin.
  - assert (Hd : s <= Zdigits2 q).
    { destruct (Z.eq_dec s 0) as [E0|N0].
      - rewrite E0. destruct q; simpl; lia.
      - apply Zdigits2_ge; [lia|]. rewrite Hq.
        apply Z.div_le_lower_bound; [lia|]. rewrite Hm'.
        assert (E : 2 ^ s = 2 * 2 ^ (s - 1))
          by (rewrite <- Z.pow_succ_r by lia; f_equal; lia).
        rewrite E. assert (0 < 2 ^ (s - 1)) by (apply Z.pow_pos_nonneg; lia).
        nia. }
    apply Z.le_trans with (fexp prec emax (53 + e1 - (53 + e2))); [unfold e'; lia|].
    apply fexp_mono. unfold s in Hd. lia.
Qed.

Lemma value_pred_one :
  (F2Q (Z.pos m_pred_one) (-53) == 1 - (1 # 9007199254740992))%Q.
Proof. vm_compute. reflexivity. Qed.

Lemma value_ulp : (F2Q (Z.pos m_one) (-105) == 1 # 9007199254740992)%Q.
Proof. vm_compute. reflexivity. Qed.

(** [k / m] for two integers [0 < k <= m < 2^53]: a canonical number,
    equal to 1 when [k = m] and below 1 otherwise. *)
Lemma div_of_Z k m :
  0 < k <= m -> m < 2 ^ 53 ->
  exists mr er,
    div (of_Z k) (of_Z m) = S754_finite false mr er
    /\ bounded prec emax mr er = true
    /\ (k = m -> S754_finite false mr er = of_Z 1)
    /\ (k < m -> (F2Q (Z.pos mr) er < 1)%Q).
Proof.
  intros Hk Hm.
  destruct (of_Z_exact k ltac:(lia)) as (m1 & e1 & -> & Hb1 & Hn1 & V1).
  destruct (of_Z_exact m ltac:(lia)) as (m2 & e2 & -> & Hb2 & Hn2 & V2).
  pose proof (bounded_inv _ _ Hb1) as (Hu1 & _).
  pose proof (bounded_inv _ _ Hb2) as (Hu2 & _).
  destruct (SFdiv_bracket m1 e1 m2 e2 ltac:(lia) ltac:(lia))
    as (q & e' & l & Hq & Hin & Hd & ->).
  set (x := (F2Q (Z.pos m1) e1 / F2Q (Z.pos m2) e2)%Q) in *.
  assert (Hx : (x == inject_Z k / inject_Z m)%Q) by (unfold x; now rewrite V1, V2).
  assert (Hik : (1 <= inject_Z k)%Q)
    by (change 1%Q with (inject_Z 1); rewrite <- Zle_Qle; lia).
  assert (Hkm : (inject_Z k <= inject_Z m)%Q) by (rewrite <- Zle_Qle; lia).
  assert (Him : (inject_Z m <= 9007199254740992)%Q)
    by (change 9007199254740992%Q with (inject_Z (2 ^ 53)); rewrite <- Zle_Qle; lia).
  assert (Bone : bounded prec emax m_one (-52) = true) by reflexivity.
  assert (Bulp : bounded prec emax m_one (-105) = true) by reflexivity.
  assert (Bpred : bounded prec emax m_pred_one (-53) = true) by reflexivity.
  assert (Hlo : (F2Q (Z.pos m_one) (-105) <= x)%Q).
  { rewrite value_ulp, Hx. apply Qle_shift_div_l; lra. }
  assert (Hhi : (x <= F2Q (Z.pos m_one) (-52))%Q).
  { rewrite value_one, Hx. apply Qle_shift_div_r; lra. }
  pose proof (round_aux_between x q e' l m_one (-105) m_one (-52)
                Hq Hin Hd Bulp Bone Hlo Hhi) as Hr.
  unfold rounded_in in Hr.
  destruct (binary_round_aux prec emax false q e' l) as [[|]|[|]| |[|] mr er] eqn:Er;
    try contradiction.
  destruct Hr as (Hb & Hl & Hu). exists mr, er.
  split; [reflexivity|]. split; [exact Hb|]. split.
  - intros E. subst m. rewrite of_Z_1.
    apply bounded_unique; [exact Hb|exact Bone|].
    assert (Hx1 : (F2Q (Z.pos m_one) (-52) <= x)%Q).
    { rewrite value_one, Hx. apply Qle_shift_div_l; lra. }
    pose proof (round_aux_between x q e' l m_one (-52) m_one (-52)
                  Hq Hin Hd Bone Bone Hx1 Hhi) as Hr.
    rewrite Er in Hr. unfold rounded_in in Hr. lra.
  - intros L.
    assert (Hk1 : (inject_Z k <= inject_Z m - 1)%Q).
    { change 1%Q with (inject_Z 1). unfold Qminus.
      rewrite <- inject_Z_opp, <- inject_Z_plus, <- Zle_Qle. lia. }
    assert (Hxp : (x <= F2Q (Z.pos m_pred_one) (-53))%Q).
    { rewrite value_pred_one, Hx. apply Qle_shift_div_r; lra. }
    pose proof (round_aux_between x q e' l m_one (-105) m_pred_one (-53)
                  Hq Hin Hd Bulp Bpred Hlo Hxp) as Hr.
    rewrite Er in Hr. unfold rounded_in in Hr.
    destruct Hr as (_ & _ & Hr). rewrite value_pred_one in Hr. lra.
Qed.

End FloatFacts.

(* ================================================================== *)
(** * Facts about the scores *)
(* ================================================================== *)

Module ScoreFacts.
Import FloatSpec Float64 FloatFacts NepalGeoData Rules.
Open Scope Z_scope.

Lemma nonneg_of_Z z : 0 <= z -> nonneg (of_Z z).
Proof.
  intros Hz. unfold of_Z. destruct z as [|p|p]; try lia; cbn [binary_normalize].
  - exact I.
  - unfold binary_round. destruct (shl_align p 0 _) as [mz ez].
    pose proof (binary_round_aux_sign false (Z.pos mz) ez loc_Exact) as Hs.
    destruct (binary_round_aux prec emax false (Z.pos mz) ez loc_Exact)
      as [s|s| |s m e]; subst; exact I.
Qed.

Lemma nonneg_div a b : nonneg a -> nonneg b -> nonneg (div a b).
Proof.
  unfold div.
  destruct a as [[|]|[|]| |[|] ma ea]; destruct b as [[|]|[|]| |[|] mb eb];
    cbn [nonneg SFdiv xorb]; try tauto.
  intros _ _.
  destruct (SFdiv_core_binary prec emax (Z.pos ma) ea (Z.pos mb) eb) as [[mz ez] lz].
  pose proof (binary_round_aux_sign false mz ez lz) as Hs.
  destruct (binary_round_aux prec emax false mz ez lz) as [s|s| |s m e];
    subst; exact I.
Qed.

Lemma nonneg_of_nat n : nonneg (of_nat n).
Proof. apply nonneg_of_Z. lia. Qed.

(** The score of rule 6, whatever the distance and the lengths. *)
Lemma edit_score_range d n :
  gtb (sub (of_Z 1) (div (of_nat d) (of_nat n))) lit_0_6 = true ->
  30 <= Math_round (mul (sub (of_Z 1) (div (of_nat d) (of_nat n))) (of_Z 50)) <= 50.
Proof.
  intros Hgt.
  destruct (sub_one_gt (div (of_nat d) (of_nat n))
              (nonneg_div _ _ (nonneg_of_nat d) (nonneg_of_nat n)) Hgt)
    as (m & e & E & Hb & Hlo & Hhi).
  rewrite E.
  destruct (mul_fifty m e Hlo Hhi) as (m' & e' & -> & H1 & H2).
  now apply Math_round_bounds.
Qed.

Lemma calculateFuzzyScore_unfold text query :
  calculateFuzzyScore text query
  = if abbreviation_rule text query then 75
    else if acronym_rule text query then 70
    else if gtb (similarity text query) lit_0_6
         then Math_round (mul (similarity text query) (of_Z 50))
         else 0.
Proof.
  unfold calculateFuzzyScore, abbreviation_rule, acronym_rule, similarity.
  destruct (match Value.lookup query abbreviations with
            | Some full => includes text full
            | None => false
            end); [reflexivity|].
  cbn [orb]. reflexivity.
Qed.

Lemma calculateFuzzyScore_range text query :
  calculateFuzzyScore text query = 0
  \/ 30 <= calculateFuzzyScore text query <= 75.
Proof.
  rewrite calculateFuzzyScore_unfold.
  destruct (abbreviation_rule text query); [right; lia|].
  destruct (acronym_rule text query); [right; lia|].
  destruct (gtb (similarity text query) lit_0_6) eqn:E; [right|now left].
  unfold similarity in *. pose proof (edit_score_range _ _ E). lia.
Qed.

Lemma calculateRelevance_unfold text query :
  calculateRelevance text query
  = let nt := toLowerCase text in
    let nq := toLowerCase query in
    if jeqb nt nq then 100
    else if startsWith nt nq then 80
    else if includes nt nq then 60
    else if 0 <? calculateFuzzyScore nt nq then calculateFuzzyScore nt nq
    else fold_left (fun score word =>
                      if includes nt word then score + 20 else score)
                   (tokens query) 0.
Proof. reflexivity. Qed.

Lemma token_score_range nt words : forall acc,
  acc <= fold_left (fun score word =>
                      if includes nt word then score + 20 else score) words acc
      <= acc + 20 * Z.of_nat (length words).
Proof.
  induction words as [|w words IH]; intros acc; cbn [fold_left length].
  - lia.
  - pose proof (IH acc). pose proof (IH (acc + 20)).
    destruct (includes nt w); lia.
Qed.

Lemma levenshteinDistance_sym a b :
  levenshteinDistance a b = levenshteinDistance b a.
Proof.
  rewrite !MatrixFacts.levenshteinDistance_lev. apply LevFacts.lev_sym.
Qed.

Lemma levenshteinDistance_le a b :
  (levenshteinDistance a b <= Nat.max (length a) (length b))%nat.
Proof.
  rewrite MatrixFacts.levenshteinDistance_lev.
  pose proof (LevFacts.lev_bounds (rev b) (rev a)) as H.
  rewrite !length_rev in H. lia.
Qed.

Lemma levenshteinDistance_zero a b :
  levenshteinDistance a b = 0%nat <-> a = b.
Proof.
  rewrite MatrixFacts.levenshteinDistance_lev. split.
  - intros H. apply LevFacts.lev_zero in H.
    apply (f_equal (@rev ascii)) in H. rewrite !rev_involutive in H. congruence.
  - intros ->. apply LevFacts.lev_refl.
Qed.

End ScoreFacts.

Module ArrayFacts.

Lemma fold_push {A B} (p : A -> bool) (f : A -> B) (l : list A) : forall acc,
  fold_left (fun results x => if p x then results ++ [f x] else results) l acc
  = acc ++ map f (filter p l).
Proof.
  induction l as [|x l IH]; intros acc; cbn [fold_left filter].
  - now rewrite app_nil_r.
  - rewrite IH. destruct (p x); [|reflexivity].
    cbn [map]. now rewrite <- app_assoc.
Qed.

Lemma sort_insert_length {A} (cmp : A -> A -> Z) x l :
  length (sort_insert cmp x l) = S (length l).
Proof.
  induction l as [|y l IH]; cbn [sort_insert]; [reflexivity|].
  destruct (0 <? cmp x y)%Z; cbn [length]; now rewrite ?IH.
Qed.

Lemma sort_length {A} (cmp : A -> A -> Z) l : length (sort cmp l) = length l.
Proof.
  induction l as [|x l IH]; [reflexivity|].
  unfold sort in *. cbn [fold_right]. now rewrite sort_insert_length, IH.
Qed.

Lemma sort_insert_in {A} (cmp : A -> A -> Z) x l y :
  In y (sort_insert cmp x l) <-> y = x \/ In y l.
Proof.
  induction l as [|z l IH]; cbn [sort_insert].
  - simpl. intuition congruence.
  - destruct (0 <? cmp x z)%Z; simpl; rewrite ?IH; intuition congruence.
Qed.

Lemma sort_in {A} (cmp : A -> A -> Z) l y : In y (sort cmp l) <-> In y l.
Proof.
  induction l as [|x l IH]; [reflexivity|].
  unfold sort in *. cbn [fold_right]. rewrite sort_insert_in, IH.
  simpl. intuition congruence.
Qed.

(** An element that no other element must precede stays first. *)
Lemma sort_head {A} (cmp : A -> A -> Z) x l :
  (forall y, In y l -> (cmp x y <= 0)%Z) ->
  sort cmp (x :: l) = x :: sort cmp l.
Proof.
  intros H. unfold sort. cbn [fold_right]. fold (sort cmp l).
  destruct (sort cmp l) as [|y l'] eqn:E; [reflexivity|].
  cbn [sort_insert].
  assert (Hy : In y l) by (apply (sort_in cmp); rewrite E; now left).
  specialize (H y Hy). destruct (Z.ltb_spec 0 (cmp x y)); [lia|reflexivity].
Qed.

Lemma find_some {A} (p : A -> bool) l x :
  find p l = Some x -> In x l /\ p x = true.
Proof.
  induction l as [|y l IH]; cbn [find]; [discriminate|].
  destruct (p y) eqn:E.
  - intros [= ->]. split; [now left|exact E].
  - intros H. apply IH in H as [H1 H2]. split; [now right|exact H2].
Qed.

Lemma find_exists {A} (p : A -> bool) l x :
  In x l -> p x = true -> exists y, find p l = Some y.
Proof.
  induction l as [|z l IH]; cbn [find]; [contradiction|].
  intros [->|Hin] Hp.
  - rewrite Hp. eauto.
  - destruct (p z); eauto.
Qed.

Lemma existsb_jeqb_in x l : existsb (jeqb x) l = true <-> In x l.
Proof.
  rewrite existsb_exists. split.
  - intros (y & Hy & E). apply jeqb_true in E. now subst.
  - intros H. exists x. split; [exact H|apply jeqb_refl].
Qed.

End ArrayFacts.

Module SuggestionFacts.
Import Shape ArrayFacts NepalGeoData GeoSearch.

Lemma set_add_good q s x :
  good_set q s -> startsWith (toLowerCase x) q = true -> good_set q (set_add s x).
Proof.
  intros [Hnd Hall] Hx. unfold set_add.
  destruct (existsb (jeqb x) s) eqn:E; [now split|].
  split.
  - assert (Hnin : ~ In x s).
    { intros Hin. apply existsb_jeqb_in in Hin. congruence. }
    clear E Hall. induction s as [|y s IH]; cbn [app].
    + constructor; [intros []|constructor].
    + inversion Hnd; subst. constructor.
      * rewrite in_app_iff. simpl. intros [H|[H|[]]]; [contradiction|].
        subst. apply Hnin. now left.
      * apply IH; [assumption|]. intros H. apply Hnin. now right.
  - apply Forall_app. split; [exact Hall|]. constructor; [exact Hx|constructor].
Qed.

Lemma fold_add_good {A} q (name : A -> jstring) l : forall s,
  good_set q s ->
  good_set q
    (fold_left (fun suggestions x =>
                  if startsWith (toLowerCase (name x)) q
                  then set_add suggestions (name x) else suggestions) l s).
Proof.
  induction l as [|x l IH]; intros s Hs; cbn [fold_left]; [exact Hs|].
  apply IH. destruct (startsWith (toLowerCase (name x)) q) eqn:E; [|exact Hs].
  now apply set_add_good.
Qed.

Lemma firstn_NoDup {A} n (l : list A) : NoDup l -> NoDup (firstn n l).
Proof.
  revert n. induction l as [|x l IH]; intros [|n] H; cbn [firstn];
    try constructor.
  - inversion H; subst. intros Hin. apply H2.
    rewrite <- (firstn_skipn n l). apply in_or_app. now left.
  - inversion H; subst. now apply IH.
Qed.

Lemma firstn_Forall {A} (P : A -> Prop) n (l : list A) :
  Forall P l -> Forall P (firstn n l).
Proof.
  revert n. induction l as [|x l IH]; intros [|n] H; cbn [firstn];
    try constructor; inversion H; subst; auto.
Qed.

End SuggestionFacts.

Module SearchFacts.
Import Shape ArrayFacts NepalGeoData GeoSearch.
Local Open Scope Z_scope.

Lemma search_district st query :
  search st query ScopeDistrict
  = sort by_score
      (filter (fun r => 20 <? SearchResult.relevance r)
         (map (district_result (trim (toLowerCase query)))
            (filter (fun d => 0 <? calculateRelevance (District.name d)
                                                    (trim (toLowerCase query)))
                    (Object_values (districts st))))).
Proof.
  unfold search. cbn [includes_district includes_postOffice].
  f_equal. f_equal.
  exact (fold_push _ (district_result (trim (toLowerCase query))) _ []).
Qed.

Lemma filter_all {A} (p : A -> bool) l :
  (forall x, In x l -> p x = true) -> filter p l = l.
Proof.
  induction l as [|x l IH]; intros H; cbn [filter]; [reflexivity|].
  rewrite (H x (or_introl eq_refl)). f_equal. apply IH.
  intros y Hy. apply H. now right.
Qed.

Lemma toLowerCase_nil_inv s : toLowerCase s = [] -> s = [].
Proof. destruct s; [reflexivity|discriminate]. Qed.

Lemma startsWith_nil s : startsWith s [] = true.
Proof. destruct s; reflexivity. Qed.

Lemma relevance_empty_query text :
  calculateRelevance text [] = if jeqb text [] then 100 else 80.
Proof.
  unfold calculateRelevance. change (toLowerCase []) with (@nil ascii).
  rewrite startsWith_nil.
  destruct text as [|c text]; reflexivity.
Qed.

End SearchFacts.

Module DatasetFacts.
Import ArrayFacts NepalGeoData.

Lemma process_entry_codes st entry st' :
  process_entry st entry = Some st' ->
  postOffices st'
  = postOffices st
    ++ [PostOffice.make (RawEntry.Post_Office entry)
                        (RawEntry.Postal_Pin_Code entry)
                        (RawEntry.Post_Office_Type entry)
                        (match normalizeDistrictName (RawEntry.District entry) with
                         | Some d => d
                         | None => []
                         end)].
Proof.
  unfold process_entry.
  destruct (normalizeDistrictName (RawEntry.District entry)); [|discriminate].
  intros [= <-]. reflexivity.
Qed.

Lemma process_entries_codes l : forall st st',
  process_entries st l = Some st' ->
  map PostOffice.postalCode (postOffices st')
  = map PostOffice.postalCode (postOffices st)
    ++ map RawEntry.Postal_Pin_Code l.
Proof.
  induction l as [|entry l IH]; intros st st'; cbn [process_entries].
  - intros [= <-]. now rewrite app_nil_r.
  - destruct (process_entry st entry) as [st1|] eqn:E; [|discriminate].
    intros H. rewrite (IH _ _ H), (process_entry_codes _ _ _ E).
    rewrite map_app, <- app_assoc. reflexivity.
Qed.

End DatasetFacts.

Module TrimFacts.
Import Shape.

Lemma lower_char_space c : is_space (lower_char c) = is_space c.
Proof.
  destruct c as [b0 b1 b2 b3 b4 b5 b6 b7].
  destruct b0, b1, b2, b3, b4, b5, b6, b7; reflexivity.
Qed.

Lemma lower_char_idem c : lower_char (lower_char c) = lower_char c.
Proof.
  destruct c as [b0 b1 b2 b3 b4 b5 b6 b7].
  destruct b0, b1, b2, b3, b4, b5, b6, b7; reflexivity.
Qed.

Lemma lower_char_is_32 c : (code (lower_char c) =? 32) = (code c =? 32).
Proof.
  destruct c as [b0 b1 b2 b3 b4 b5 b6 b7].
  destruct b0, b1, b2, b3, b4, b5, b6, b7; reflexivity.
Qed.

Lemma digit_not_space c : is_digit c = true -> is_space c = false.
Proof.
  destruct c as [b0 b1 b2 b3 b4 b5 b6 b7].
  destruct b0, b1, b2, b3, b4, b5, b6, b7; try reflexivity; discriminate.
Qed.

Lemma digit_lower c : is_digit c = true -> lower_char c = c.
Proof.
  destruct c as [b0 b1 b2 b3 b4 b5 b6 b7].
  destruct b0, b1, b2, b3, b4, b5, b6, b7; try reflexivity; discriminate.
Qed.

Lemma toLowerCase_idem s : toLowerCase (toLowerCase s) = toLowerCase s.
Proof.
  unfold toLowerCase. rewrite map_map. apply map_ext. apply lower_char_idem.
Qed.

Lemma trimStart_head s :
  trimStart s = s <-> match s with [] => True | c :: _ => is_space c = false end.
Proof.
  destruct s as [|c s]; cbn [trimStart]; [tauto|].
  destruct (is_space c) eqn:E; split; try congruence; try discriminate.
  intros H. exfalso.
  assert (Hlen : forall t, length (trimStart t) <= length t).
  { induction t as [|x t IH]; cbn [trimStart]; [lia|].
    destruct (is_space x); simpl; lia. }
  specialize (Hlen s). rewrite H in Hlen. simpl in Hlen. lia.
Qed.

Lemma trimStart_idem s : trimStart (trimStart s) = trimStart s.
Proof.
  induction s as [|c s IH]; cbn [trimStart]; [reflexivity|].
  destruct (is_space c) eqn:E; [exact IH|].
  cbn [trimStart]. now rewrite E.
Qed.

Lemma trimStart_suffix s : exists p, s = p ++ trimStart s.
Proof.
  induction s as [|c s [p IH]]; cbn [trimStart]; [now exists []|].
  destruct (is_space c).
  - exists (c :: p). cbn [app]. now f_equal.
  - now exists [].
Qed.

Lemma trimmed_iff s :
  trimmed s <-> trimStart s = s /\ trimStart (rev s) = rev s.
Proof.
  unfold trimmed, trim. split.
  - intros H.
    set (t := trimStart s) in *. set (u := trimStart (rev t)) in *.
    assert (Ht : trimStart t = t) by apply trimStart_idem.
    assert (Hu : trimStart u = u) by apply trimStart_idem.
    assert (Es : rev s = u) by (rewrite <- H; apply rev_involutive).
    split.
    + (* s = rev u is also a piece of t *)
      destruct (trimStart_suffix (rev t)) as [p Hp]. fold u in Hp.
      apply (f_equal (@rev ascii)) in Hp.
      rewrite rev_involutive, rev_app_distr, H in Hp.
      apply trimStart_head. apply trimStart_head in Ht.
      destruct s as [|c s']; [exact I|]. rewrite Hp in Ht. exact Ht.
    + now rewrite Es.
  - intros [H1 H2]. now rewrite H1, H2, rev_involutive.
Qed.

Lemma trim_trimmed s : trimmed (trim s).
Proof.
  apply trimmed_iff. unfold trim.
  set (t := trimStart s). set (u := trimStart (rev t)).
  assert (Ht : trimStart t = t) by apply trimStart_idem.
  assert (Hu : trimStart u = u) by apply trimStart_idem.
  rewrite rev_involutive. split; [|exact Hu].
  destruct (trimStart_suffix (rev t)) as [p Hp]. fold u in Hp.
  apply (f_equal (@rev ascii)) in Hp.
  rewrite rev_involutive, rev_app_distr in Hp.
  apply trimStart_head. apply trimStart_head in Ht.
  destruct (rev u) as [|c r]; [exact I|]. rewrite Hp in Ht. exact Ht.
Qed.

Lemma trimStart_lower s : trimStart (toLowerCase s) = toLowerCase (trimStart s).
Proof.
  induction s as [|c s IH]; cbn [toLowerCase map trimStart]; [reflexivity|].
  rewrite lower_char_space. destruct (is_space c); [exact IH|reflexivity].
Qed.

Lemma rev_lower s : rev (toLowerCase s) = toLowerCase (rev s).
Proof. unfold toLowerCase. symmetry. apply map_rev. Qed.

Lemma trim_lower s : trim (toLowerCase s) = toLowerCase (trim s).
Proof.
  unfold trim.
  now rewrite trimStart_lower, rev_lower, trimStart_lower, rev_lower.
Qed.

Lemma trimmed_lower s : trimmed s -> trimmed (toLowerCase s).
Proof. unfold trimmed. intros H. now rewrite trim_lower, H. Qed.

Lemma trimmed_no_space s :
  Forall (fun c => is_space c = false) s -> trimmed s.
Proof.
  intros H. apply trimmed_iff. split; apply trimStart_head.
  - destruct H; [exact I|assumption].
  - apply Forall_rev in H. destruct H; [exact I|assumption].
Qed.

Lemma five_digits_facts P :
  is_five_digits P = true ->
  jeqb P [] = false /\ trim P = P /\ toLowerCase P = P.
Proof.
  unfold is_five_digits. intros H. apply andb_true_iff in H as [Hlen Hd].
  apply Nat.eqb_eq in Hlen. rewrite forallb_forall in Hd.
  split; [destruct P; [discriminate|reflexivity]|]. split.
  - apply trimmed_no_space. apply Forall_forall. intros c Hc.
    apply digit_not_space. now apply Hd.
  - unfold toLowerCase. rewrite <- (map_id P) at 2. apply map_ext_in.
    intros c Hc. apply digit_lower. now apply Hd.
Qed.

End TrimFacts.

Module QueryFacts.
Import Shape ArrayFacts SearchFacts TrimFacts NepalGeoData GeoSearch.
Local Open Scope Z_scope.

(** Every result of [search] is the result of a district or of a post
    office, scored against the trimmed, lower-cased query. *)
Lemma search_in st query ty r :
  In r (search st query ty) ->
  (exists d, r = district_result (trim (toLowerCase query)) d)
  \/ (exists po, r = office_result (trim (toLowerCase query)) query po).
Proof.
  unfold search. intros H. apply sort_in, filter_In in H as [H _].
  set (nq := trim (toLowerCase query)) in *.
  set (rd := if includes_district ty then _ else _) in H.
  assert (Hrd : forall x, In x rd -> exists d, x = district_result nq d).
  { intros x Hx. unfold rd in Hx. destruct (includes_district ty); [|contradiction].
    rewrite (fold_push
               (fun d => 0 <? calculateRelevance (District.name d) nq)
               (district_result nq)) in Hx.
    apply in_map_iff in Hx as (d & <- & _). eauto. }
  destruct (includes_postOffice ty).
  - rewrite (fold_push
               (fun po => 0 <? Z.max (calculateRelevance (PostOffice.name po) nq)
                                     (if includes (PostOffice.postalCode po) query
                                      then 90 else 0))
               (office_result nq query)) in H.
    apply in_app_or in H as [H|H]; [left; auto|right].
    apply in_map_iff in H as (po & <- & _). eauto.
  - left. auto.
Qed.

Lemma exact_relevance name q :
  jeqb (toLowerCase name) (toLowerCase q) = true ->
  calculateRelevance name q = 100.
Proof. unfold calculateRelevance. now intros ->. Qed.

Lemma priority_5 query r :
  matchTypePriority (Some (determineMatchType query r)) = 5 ->
  jeqb (toLowerCase (SearchResult.name r)) (toLowerCase query) = true.
Proof.
  unfold determineMatchType.
  destruct (jeqb _ _); [reflexivity|].
  destruct (startsWith _ _); [discriminate|].
  destruct (includes _ _); [discriminate|].
  destruct (match SearchResult.postalCode r with
            | Some code => _
            | None => false
            end); discriminate.
Qed.

Lemma remove_seen_in seen l y : In y (remove_seen seen l) -> In y l.
Proof.
  revert seen. induction l as [|x l IH]; intros seen; cbn [remove_seen];
    [tauto|].
  destruct (existsb _ seen).
  - intros H. right. eauto.
  - intros [->|H]; [now left|right; eauto].
Qed.

End QueryFacts.

Module StoreFacts.
Import Shape ArrayFacts TrimFacts NepalGeoData.

Lemma lookup_in {A} k (l : list (jstring * A)) v :
  Value.lookup k l = Some v -> In (k, v) l.
Proof.
  induction l as [|[k' v'] l IH]; cbn [Value.lookup]; [discriminate|].
  destruct (jeqb k' k) eqn:E.
  - intros [= ->]. apply jeqb_true in E. subst. now left.
  - intros H. right. auto.
Qed.

Lemma set_property_in {A} (obj : list (jstring * A)) k v k' v' :
  In (k', v') (set_property obj k v) -> In (k', v') obj \/ (k' = k /\ v' = v).
Proof.
  induction obj as [|[k0 v0] obj IH]; cbn [set_property].
  - intros [[= <- <-]|[]]. now right.
  - destruct (jeqb k0 k) eqn:E.
    + apply jeqb_true in E. subst.
      intros [[= <- <-]|H]; [now right|left; now right].
    + intros [H|H]; [left; now left|].
      apply IH in H as [H|H]; [left; now right|now right].
Qed.

Lemma corrections_trimmed : Forall (fun kv => trimmed (snd kv)) corrections.
Proof. repeat constructor. Qed.

Lemma normalizeDistrictName_trimmed district name :
  normalizeDistrictName district = Some name -> trimmed name.
Proof.
  unfold normalizeDistrictName.
  destruct (inherited_property (trim district)); [discriminate|].
  destruct (Value.lookup (trim district) corrections) as [fixed|] eqn:E.
  - intros [= <-]. apply lookup_in in E.
    pose proof corrections_trimmed as H. rewrite Forall_forall in H.
    exact (H _ E).
  - intros [= <-]. apply trim_trimmed.
Qed.

Lemma process_entry_ok st entry st' :
  districts_ok (districts st) -> process_entry st entry = Some st' ->
  districts_ok (districts st').
Proof.
  intros Hok. unfold process_entry.
  destruct (normalizeDistrictName (RawEntry.District entry)) as [district|] eqn:En;
    [|discriminate].
  intros [= <-]. cbn [districts]. intros k d Hin.
  apply set_property_in in Hin as [Hin|[-> ->]]; [now apply Hok|].
  cbn [District.name]. split; [|eapply normalizeDistrictName_trimmed; eassumption].
  destruct (Value.lookup district (districts st)) as [d0|] eqn:El; [|reflexivity].
  apply lookup_in in El. now apply Hok in El.
Qed.

Lemma process_entries_ok l : forall st st',
  districts_ok (districts st) -> process_entries st l = Some st' ->
  districts_ok (districts st').
Proof.
  induction l as [|entry l IH]; intros st st' Hok; cbn [process_entries].
  - now intros [= <-].
  - destruct (process_entry st entry) as [st1|] eqn:E; [|discriminate].
    apply IH. eapply process_entry_ok; eassumption.
Qed.

Lemma processData_ok raw st :
  processData raw = Some st -> districts_ok (districts st).
Proof.
  apply process_entries_ok. intros k d [].
Qed.

Lemma own_properties_in {A} (obj : list (jstring * A)) kv :
  In kv (own_properties obj) -> In kv obj.
Proof.
  unfold own_properties. intros H. apply in_app_or in H as [H|H].
  - apply sort_in, filter_In in H. tauto.
  - apply filter_In in H. tauto.
Qed.

Lemma district_trimmed raw st D :
  processData raw = Some st -> In D (getAllDistricts st) ->
  trimmed (District.name D).
Proof.
  intros Hp HD. unfold getAllDistricts, Object_values in HD.
  apply in_map_iff in HD as ([k d] & <- & Hin). cbn [snd].
  apply own_properties_in in Hin.
  destruct (processData_ok raw st Hp k d Hin) as [-> Ht]. exact Ht.
Qed.

End StoreFacts.

Module RankFacts.
Import Shape ArrayFacts SearchFacts TrimFacts NepalGeoData Rules.
Local Open Scope Z_scope.

(** With a ranking by relevance alone, the first of the results with the
    greatest relevance comes first. *)
Lemma sort_first_max (M : Z) (l : list SearchResult.t) x :
  (forall y, In y l -> SearchResult.relevance y <= M) ->
  find (fun r => SearchResult.relevance r =? M) l = Some x ->
  exists rest, sort by_score l = x :: rest.
Proof.
  induction l as [|a l IH]; intros Hmax Hfind; [discriminate|].
  cbn [find] in Hfind. unfold sort. cbn [fold_right]. fold (sort by_score l).
  destruct (Z.eqb_spec (SearchResult.relevance a) M) as [E|N].
  - injection Hfind as <-.
    destruct (sort by_score l) as [|y l'] eqn:Es; [now exists []|].
    cbn [sort_insert].
    assert (Hy : In y l) by (apply (sort_in by_score); rewrite Es; now left).
    assert (SearchResult.relevance y <= M) by (apply Hmax; now right).
    unfold by_score at 1.
    destruct (Z.ltb_spec 0 (SearchResult.relevance y - SearchResult.relevance a));
      [lia|eauto].
  - destruct (IH (fun y Hy => Hmax y (or_intror Hy)) Hfind) as [rest Hrest].
    rewrite Hrest. cbn [sort_insert].
    assert (Hx : SearchResult.relevance x = M).
    { apply find_some in Hfind as [_ Hx]. now apply Z.eqb_eq in Hx. }
    assert (SearchResult.relevance a <= M) by (apply Hmax; now left).
    unfold by_score at 1.
    destruct (Z.ltb_spec 0 (SearchResult.relevance x - SearchResult.relevance a));
      [eauto|lia].
Qed.

Lemma nonexact_relevance name q :
  jeqb (toLowerCase name) (toLowerCase q) = false ->
  (length (tokens q) <= 4)%nat ->
  calculateRelevance name q <= 80.
Proof.
  intros Hne Htok. rewrite ScoreFacts.calculateRelevance_unfold. cbv zeta.
  rewrite Hne.
  destruct (startsWith _ _); [lia|].
  destruct (includes _ _); [lia|].
  pose proof (ScoreFacts.calculateFuzzyScore_range (toLowerCase name) (toLowerCase q)).
  destruct (Z.ltb_spec 0 (calculateFuzzyScore (toLowerCase name) (toLowerCase q)));
    [lia|].
  pose proof (ScoreFacts.token_score_range (toLowerCase name) (tokens q) 0). lia.
Qed.

Lemma tokens_lower q : tokens (toLowerCase q) = tokens q.
Proof. unfold tokens. now rewrite toLowerCase_idem. Qed.

End RankFacts.

(** * The scores (C1, C6, C7, C10) *)
Module ScoreClaims.
Import FloatSpec Float64 FloatFacts NepalGeoData Rules ScoreFacts.
Import Examples.
Local Open Scope Z_scope.

(** ** C1: the range of the relevance *)

(** C1, as stated, fails: six query tokens that the candidate contains
    score 120 by rule 7. *)
Lemma C1_counterexample :
  calculateRelevance (str "ab") (str "a b a b a b") = 120
  /\ ~ (0 <= calculateRelevance (str "ab") (str "a b a b a b") <= 100).
Proof.
  assert (E : calculateRelevance (str "ab") (str "a b a b a b") = 120)
    by (vm_compute; reflexivity).
  split; [exact E|]. rewrite E. lia.
Qed.

(** C1, amended: the relevance is an integer that is never negative; it
    is at most 100 by rules 1 to 6, and by rule 7 at most 20 for each of
    the query's tokens, which the code does not cap. *)
Theorem C1_relevance_range (text query : jstring) :
  0 <= calculateRelevance text query
    <= Z.max 100 (20 * Z.of_nat (length (tokens query))).
Proof.
  rewrite calculateRelevance_unfold. cbv zeta.
  destruct (jeqb _ _); [lia|].
  destruct (startsWith _ _); [lia|].
  destruct (includes _ _); [lia|].
  pose proof (calculateFuzzyScore_range (toLowerCase text) (toLowerCase query)).
  destruct (Z.ltb_spec 0 (calculateFuzzyScore (toLowerCase text) (toLowerCase query)));
    [lia|].
  pose proof (token_score_range (toLowerCase text) (tokens query) 0). lia.
Qed.

(** ** C6: the score of the edit-distance rule *)

(** C6, as stated, fails at the lower end: a distance of 9 on 23
    characters has similarity 14/23 > 0.6 and scores round(30.43) = 30,
    which is not in (30, 50]. *)
Lemma C6_counterexample :
  rules_1_to_5 c6_text c6_query = false
  /\ levenshteinDistance (toLowerCase c6_text) (toLowerCase c6_query) = 9%nat
  /\ Nat.max (length c6_text) (length c6_query) = 23%nat
  /\ gtb (similarity (toLowerCase c6_text) (toLowerCase c6_query)) lit_0_6 = true
  /\ ~ (30 < calculateRelevance c6_text c6_query <= 50).
Proof.
  repeat split; try (vm_compute; reflexivity).
  assert (E : calculateRelevance c6_text c6_query = 30) by (vm_compute; reflexivity).
  rewrite E. lia.
Qed.

(** C6, amended: when rules 1 to 5 do not apply and the similarity is
    above 0.6, the relevance is [Math.round] of the binary64 product
    [similarity * 50] and lies in the closed interval [30, 50]. *)
Theorem C6_edit_distance_score (text query : jstring) :
  rules_1_to_5 text query = false ->
  gtb (similarity (toLowerCase text) (toLowerCase query)) lit_0_6 = true ->
  calculateRelevance text query
  = Math_round (mul (similarity (toLowerCase text) (toLowerCase query)) (of_Z 50))
  /\ 30 <= calculateRelevance text query <= 50.
Proof.
  intros Hrules Hsim.
  unfold rules_1_to_5 in Hrules. cbv zeta in Hrules.
  apply orb_false_iff in Hrules as [Hrules H5].
  apply orb_false_iff in Hrules as [Hrules H4].
  apply orb_false_iff in Hrules as [Hrules H3].
  apply orb_false_iff in Hrules as [H1 H2].
  pose proof (edit_score_range _ _ Hsim) as Hrange.
  fold (similarity (toLowerCase text) (toLowerCase query)) in Hrange.
  rewrite calculateRelevance_unfold. cbv zeta.
  rewrite H1, H2, H3, calculateFuzzyScore_unfold, H4, H5, Hsim.
  destruct (Z.ltb_spec 0 (Math_round
             (mul (similarity (toLowerCase text) (toLowerCase query)) (of_Z 50))));
    [|lia].
  split; [reflexivity|exact Hrange].
Qed.

Lemma C6_witness :
  rules_1_to_5 (str "lalitpur") (str "lalitpor") = false
  /\ gtb (similarity (toLowerCase (str "lalitpur")) (toLowerCase (str "lalitpor")))
         lit_0_6 = true
  /\ (calculateRelevance (str "lalitpur") (str "lalitpor")
       = Math_round (mul (similarity (toLowerCase (str "lalitpur"))
                                     (toLowerCase (str "lalitpor"))) (of_Z 50))
      /\ 30 <= calculateRelevance (str "lalitpur") (str "lalitpor") <= 50).
Proof.
  split; [vm_compute; reflexivity|].
  split; [vm_compute; reflexivity|].
  apply (C6_edit_distance_score (str "lalitpur") (str "lalitpor"));
    vm_compute; reflexivity.
Defined.

(** ** C7: the similarity of the validation layer is symmetric *)

Lemma similarity_distance a b :
  mget (distance_matrix a b) (length b) (length a) = levenshteinDistance a b.
Proof. reflexivity. Qed.

(** C7: [calculateSimilarity a b] and [calculateSimilarity b a] are the
    same number, for every pair of strings. *)
Theorem C7_similarity_symmetric (a b : jstring) :
  LocationValidator.calculateSimilarity a b
  = LocationValidator.calculateSimilarity b a.
Proof.
  unfold LocationValidator.calculateSimilarity.
  rewrite !similarity_distance, (levenshteinDistance_sym a b).
  rewrite (Nat.max_comm (length a) (length b)). reflexivity.
Qed.

(** ** C10: the similarity lies in [0, 1] and is 1 on equal strings only *)

(** C10: for two strings of at most 2^53 - 1 code units (the longest a
    JavaScript string can be), [0 <= similarity], [similarity <= 1], and
    [similarity === 1] exactly when the strings are equal. *)
Theorem C10_similarity_unit_interval (a b : jstring) :
  Z.of_nat (length a) < 2 ^ 53 -> Z.of_nat (length b) < 2 ^ 53 ->
  geb (LocationValidator.calculateSimilarity a b) (of_Z 0) = true
  /\ geb (of_Z 1) (LocationValidator.calculateSimilarity a b) = true
  /\ (eqb (LocationValidator.calculateSimilarity a b) (of_Z 1) = true <-> a = b).
Proof.
  intros Ha Hb. unfold LocationValidator.calculateSimilarity.
  rewrite similarity_distance.
  pose proof (levenshteinDistance_le a b) as Hle.
  pose proof (levenshteinDistance_zero a b) as Hzero.
  set (d := levenshteinDistance a b) in *.
  set (n := Nat.max (length a) (length b)) in *.
  destruct (Nat.eqb_spec n 0) as [E0|N0].
  - assert (a = b).
    { destruct a, b; simpl in *; try reflexivity; unfold n in E0; simpl in E0; lia. }
    repeat split; try reflexivity. intros _. assumption.
  - unfold of_nat.
    destruct (Z.eq_dec (Z.of_nat n - Z.of_nat d) 0) as [Ek|Nk].
    + rewrite Ek.
      destruct (of_Z_exact (Z.of_nat n) ltac:(lia)) as (m2 & e2 & -> & _).
      repeat split; try reflexivity; try discriminate.
      intros E. apply Hzero in E. lia.
    + destruct (div_of_Z (Z.of_nat n - Z.of_nat d) (Z.of_nat n) ltac:(lia) ltac:(lia))
        as (mr & er & -> & Hbr & Heq & Hlt).
      assert (Bone : bounded prec emax m_one (-52) = true) by reflexivity.
      destruct (Nat.eq_dec d 0) as [Ed|Nd].
      * rewrite Heq by lia. repeat split; try reflexivity.
        intros _. now apply Hzero.
      * specialize (Hlt ltac:(lia)). rewrite <- value_one in Hlt.
        pose proof (SFcompare_pos mr er m_one (-52) Hbr Bone) as Hc.
        apply (proj1 (Qlt_alt _ _)) in Hlt. rewrite Hlt in Hc.
        rewrite of_Z_1. unfold geb, eqb, SFleb, SFeqb. rewrite Hc.
        repeat split; try reflexivity; try discriminate.
        intros E. apply Hzero in E. contradiction.
Qed.

Lemma C10_witness :
  Z.of_nat (length (str "abc")) < 2 ^ 53
  /\ Z.of_nat (length (str "abd")) < 2 ^ 53
  /\ (geb (LocationValidator.calculateSimilarity (str "abc") (str "abd")) (of_Z 0) = true
      /\ geb (of_Z 1) (LocationValidator.calculateSimilarity (str "abc") (str "abd")) = true
      /\ (eqb (LocationValidator.calculateSimilarity (str "abc") (str "abd")) (of_Z 1) = true
          <-> str "abc" = str "abd")).
Proof.
  split; [vm_compute; reflexivity|].
  split; [vm_compute; reflexivity|].
  apply (C10_similarity_unit_interval (str "abc") (str "abd"));
    vm_compute; reflexivity.
Defined.

End ScoreClaims.

(** * Inputs of the wrong shape (C2) *)
Module GuardClaims.
Import Shape Examples.
Import NepalGeoData GeoSearch LocationValidator.

(** ** C2: arguments of the wrong shape *)

(** C2, as stated, fails: [batchValidate] is not an export function, and
    its guard throws on a value that is not an array. *)
Lemma C2_counterexample :
  Value.is_array VNull = false
  /\ batchValidate (NepalGeoData.make [] []) VNull
     = Throws (Error (str "Addresses must be an array")).
Proof. split; reflexivity. Qed.

(** C2, amended: the operations that guard their argument answer a value
    of the wrong shape as follows.  [searchByQuery] returns the empty list
    for a query that is not a string; [validateDistrict],
    [validatePostalCode] and [validatePostOffice] return an invalid result
    with their error message for a value that is not a string;
    [validateAddress] returns the invalid result "Address must be a valid
    object" for a value that is not an object; and [batchValidate] throws
    the error "Addresses must be an array" for a value that is not an
    array. *)
Theorem C2_guards
        (localeCompare : jstring -> jstring -> Z) (st : NepalGeoData.t)
        (options : QueryOptions) (query address addresses district : value) :
  Value.is_string query = false ->
  Value.truthy address && Value.typeof_object address = false ->
  Value.is_array addresses = false ->
  searchByQuery localeCompare st query options = []
  /\ validateDistrict st query
     = mkDistrictValidation false
         (Some (lit "District name is required and must be a string")) None []
  /\ validatePostalCode st query
     = mkPostalValidation false
         (Some (lit "Postal code is required and must be a string")) None
  /\ validatePostOffice st query district
     = Returns (mkPostOfficeValidation false
                  (Some (lit "Post office name is required and must be a string"))
                  None [])
  /\ validateAddress st address
     = Returns (mkValidationResult false [lit "Address must be a valid object"]
                                   [] [] None None)
  /\ batchValidate st addresses
     = Throws (Error (str "Addresses must be an array")).
Proof.
  intros Hq Ha Hs.
  repeat split.
  - destruct query; try reflexivity; discriminate.
  - destruct query; try reflexivity; discriminate.
  - destruct query; try reflexivity; discriminate.
  - destruct query; try reflexivity; discriminate.
  - unfold validateAddress.
    destruct (Value.truthy address), (Value.typeof_object address);
      try discriminate; reflexivity.
  - destruct addresses; try reflexivity; discriminate.
Qed.

Lemma C2_witness :
  searchByQuery (fun _ _ => 0%Z) (NepalGeoData.make [] []) (VNum (Float64.of_Z 44600))
                default_options = []
  /\ validateAddress (NepalGeoData.make [] []) (VStr (str "Kathmandu"))
     = Returns (mkValidationResult false [lit "Address must be a valid object"]
                                   [] [] None None)
  /\ batchValidate (NepalGeoData.make [] []) (VObj [])
     = Throws (Error (str "Addresses must be an array")).
Proof.
  pose proof (C2_guards (fun _ _ => 0%Z) (NepalGeoData.make [] []) default_options
                (VNum (Float64.of_Z 44600)) (VStr (str "Kathmandu")) (VObj [])
                VUndefined eq_refl eq_refl eq_refl) as H.
  tauto.
Defined.

(** [searchDistricts] has no guard of its own: a query that is not a
    string reaches [query.toLowerCase()] and throws. *)
Lemma searchDistricts_not_a_string st query limit includeStats :
  Value.is_string query = false ->
  searchDistricts st query limit includeStats = Throws TypeError.
Proof. destruct query; try reflexivity; discriminate. Qed.

End GuardClaims.

(** * The loaded data, suggestions and the empty query (C3, C8, C9) *)
Module DatasetClaims.
Import Shape Examples.
Import ArrayFacts SuggestionFacts SearchFacts DatasetFacts NepalGeoData GeoSearch.

(** ** C3: postal codes after the load *)

(** C3, as stated, fails: two raw records with the same postal code are
    both stored. *)
Lemma C3_counterexample :
  exists st, processData c3_raw = Some st
             /\ ~ NoDup (map PostOffice.postalCode (postOffices st)).
Proof.
  eexists. split; [vm_compute; reflexivity|].
  intros H. inversion H as [|x l Hnin _]; subst. apply Hnin. now left.
Qed.

(** C3, amended: the load stores one post office for each raw record, in
    order and with the postal code as it is in the record, without a check
    for duplicates; so the stored postal codes are unique exactly when the
    raw records' are, and [getPostOfficeByCode] finds, for every code of
    a raw record, a stored post office that has the code. *)
Theorem C3_postal_codes_as_loaded (raw : list RawEntry.t) (st : NepalGeoData.t) :
  processData raw = Some st ->
  map PostOffice.postalCode (postOffices st) = map RawEntry.Postal_Pin_Code raw
  /\ (NoDup (map PostOffice.postalCode (postOffices st))
      <-> NoDup (map RawEntry.Postal_Pin_Code raw))
  /\ (forall code,
        In code (map RawEntry.Postal_Pin_Code raw) ->
        exists po, getPostOfficeByCode st code = Some po
                   /\ In po (postOffices st)
                   /\ PostOffice.postalCode po = code).
Proof.
  intros H. unfold processData in H.
  apply process_entries_codes in H. cbn [postOffices map app] in H.
  split; [exact H|]. split; [now rewrite H|].
  intros code Hcode. rewrite <- H in Hcode.
  apply in_map_iff in Hcode as (po0 & Hpo0 & Hin0).
  destruct (find_exists (fun po => jeqb (PostOffice.postalCode po) code)
                        (postOffices st) po0 Hin0) as [po Hfind].
  { rewrite Hpo0. apply jeqb_refl. }
  exists po. split; [exact Hfind|].
  apply find_some in Hfind as [Hin Hpo]. split; [exact Hin|].
  now apply jeqb_true.
Qed.

Lemma C3_witness :
  processData c3_raw
  = Some (NepalGeoData.make
            [(str "Kathmandu",
              District.make (str "Kathmandu") 2
                [PostOffice.make (str "Kathmandu G.P.O.") (str "44600") (str "G.P.O.") (str "Kathmandu");
                 PostOffice.make (str "Thamel") (str "44600") (str "A.P.O.") (str "Kathmandu")])]
            [PostOffice.make (str "Kathmandu G.P.O.") (str "44600") (str "G.P.O.") (str "Kathmandu");
             PostOffice.make (str "Thamel") (str "44600") (str "A.P.O.") (str "Kathmandu")])
  /\ map PostOffice.postalCode
         [PostOffice.make (str "Kathmandu G.P.O.") (str "44600") (str "G.P.O.") (str "Kathmandu");
          PostOffice.make (str "Thamel") (str "44600") (str "A.P.O.") (str "Kathmandu")]
     = map RawEntry.Postal_Pin_Code c3_raw.
Proof.
  split; [vm_compute; reflexivity|].
  exact (proj1 (C3_postal_codes_as_loaded c3_raw _ eq_refl)).
Defined.

(** ** C8: suggestions *)

(** C8: a partial query of fewer than two characters gets no suggestion;
    otherwise the suggestions are distinct names, each starting with the
    query when both are lower-cased, and at most [limit] of them. *)
Theorem C8_getSuggestions (st : NepalGeoData.t) (partialQuery : jstring)
        (limit : nat) (type : Scope) :
  (length partialQuery < 2 -> getSuggestions st partialQuery limit type = [])
  /\ NoDup (getSuggestions st partialQuery limit type)
  /\ Forall (fun name =>
               startsWith (toLowerCase name) (toLowerCase partialQuery) = true)
            (getSuggestions st partialQuery limit type)
  /\ length (getSuggestions st partialQuery limit type) <= limit.
Proof.
  unfold getSuggestions.
  destruct (jeqb partialQuery [] || (length partialQuery <? 2)) eqn:E.
  - split; [reflexivity|]. split; [constructor|]. split; [constructor|simpl; lia].
  - apply orb_false_iff in E as [_ E]. apply Nat.ltb_ge in E.
    set (q := toLowerCase partialQuery).
    assert (G0 : good_set q []) by (split; constructor).
    assert (G1 : good_set q
              (if includes_district type
               then fold_left
                      (fun suggestions district =>
                         if startsWith (toLowerCase (District.name district)) q
                         then set_add suggestions (District.name district)
                         else suggestions) (getAllDistricts st) []
               else [])).
    { destruct (includes_district type); [|exact G0].
      now apply (fold_add_good q District.name). }
    set (s1 := if includes_district type then _ else _) in *.
    assert (G2 : good_set q
              (if includes_postOffice type
               then fold_left
                      (fun suggestions po =>
                         if startsWith (toLowerCase (PostOffice.name po)) q
                         then set_add suggestions (PostOffice.name po)
                         else suggestions) (getAllPostOffices st) s1
               else s1)).
    { destruct (includes_postOffice type); [|exact G1].
      now apply (fold_add_good q PostOffice.name). }
    destruct G2 as [Hnd Hall]. unfold slice0.
    split; [lia|]. split; [now apply firstn_NoDup|].
    split; [now apply firstn_Forall|apply firstn_le_length].
Qed.

(** ** C9: the empty query *)

(** C9: against the empty query a non-empty text scores 80; and
    [searchDistricts("")] returns the first [limit] districts (all of
    them when there are fewer), each non-empty district name with
    relevance 80. *)
Theorem C9_empty_query :
  (forall text, text <> [] -> calculateRelevance text [] = 80%Z)
  /\ (forall st limit includeStats,
        exists results,
          searchDistricts st (VStr []) limit includeStats = Returns results
          /\ length results = Nat.min limit (length (getAllDistricts st))
          /\ Forall (fun r =>
                       In (SearchResult.name (result r))
                          (map District.name (getAllDistricts st))
                       /\ (SearchResult.name (result r) <> [] ->
                           SearchResult.relevance (result r) = 80%Z))
                    results).
Proof.
  split.
  - intros text Ht. rewrite relevance_empty_query.
    destruct (jeqb text []) eqn:E; [|reflexivity].
    apply jeqb_true in E. contradiction.
  - intros st limit includeStats. unfold searchDistricts.
    eexists. split; [reflexivity|].
    rewrite search_district. change (trim (toLowerCase [])) with (@nil ascii).
    assert (Hrel : forall d, (20 <? calculateRelevance (District.name d) [])%Z = true).
    { intros d. rewrite relevance_empty_query. now destruct (jeqb _ _). }
    rewrite (filter_all (fun d => (0 <? calculateRelevance (District.name d) [])%Z)).
    2:{ intros d _. rewrite relevance_empty_query. now destruct (jeqb _ _). }
    rewrite filter_all.
    2:{ intros r Hr. apply in_map_iff in Hr as (d & <- & _). apply Hrel. }
    split.
    + unfold slice0. rewrite length_map, length_firstn, sort_length, length_map.
      reflexivity.
    + apply Forall_forall. intros r Hr.
      apply in_map_iff in Hr as (r0 & <- & Hr0). cbn [result SearchResult.name
        SearchResult.relevance].
      unfold slice0 in Hr0.
      assert (Hin : In r0 (sort by_score
                (map (district_result []) (Object_values (districts st)))))
        by (rewrite <- (firstn_skipn limit); apply in_or_app; now left).
      apply sort_in, in_map_iff in Hin as (d & <- & Hd).
      cbn [district_result SearchResult.name SearchResult.relevance]. split.
      * apply in_map. exact Hd.
      * intros Hne. rewrite relevance_empty_query.
        destruct (jeqb (District.name d) []) eqn:E; [|reflexivity].
        apply jeqb_true in E. contradiction.
Qed.

End DatasetClaims.

(** * A postal code as the query (C4) *)
Module PostalClaims.
Import Shape Examples.
Import ArrayFacts SearchFacts TrimFacts QueryFacts NepalGeoData GeoSearch.
Local Open Scope Z_scope.

(** ** C4: a postal code of the dataset, searched *)

(** C4: for every store and every 5-digit postal code [P] that a stored
    post office has, [searchByQuery(P)] with the relevance ranking (and a
    limit of one or more) has as its first element the [exact_postal]
    entry, relevance 100, of the post office that [getPostOfficeByCode]
    finds for [P]; this holds for every scope and every [minRelevance]. *)
Theorem C4_exact_postal_first
        (localeCompare : jstring -> jstring -> Z)
        (st : NepalGeoData.t) (P : jstring) (options : QueryOptions) :
  In P (map PostOffice.postalCode (postOffices st)) ->
  is_five_digits P = true ->
  sortBy options = ByRelevance ->
  (0 < limit options)%nat ->
  exists po rest,
    getPostOfficeByCode st P = Some po
    /\ PostOffice.postalCode po = P
    /\ searchByQuery localeCompare st (VStr P) options
       = SearchResult.make RPostOffice (PostOffice.name po)
                           (Some (PostOffice.district po)) (Some P)
                           100 (Some exact_postal)
         :: rest.
Proof.
  intros Hin Hfive Hsort Hlimit.
  destruct (five_digits_facts P Hfive) as (Hne & Htrim & Hlow).
  apply in_map_iff in Hin as (po0 & Hcode & Hpo0).
  destruct (find_exists (fun po => jeqb (PostOffice.postalCode po) P)
                        (postOffices st) po0 Hpo0) as [po Hfind].
  { rewrite Hcode. apply jeqb_refl. }
  pose proof (find_some _ _ _ Hfind) as [_ Hpo]. apply jeqb_true in Hpo.
  exists po.
  unfold searchByQuery. rewrite Hne, Htrim, Hfive.
  unfold searchByPostalCode, getPostOfficeByCode. rewrite Hfind, Hsort.
  cbn [app sortResults]. rewrite Hpo.
  set (e := SearchResult.make RPostOffice (PostOffice.name po)
              (Some (PostOffice.district po)) (Some P) 100 (Some exact_postal)).
  rewrite (fold_push
             (fun result => Float64.geb (Float64.of_Z (SearchResult.relevance result))
                                        (minRelevance options))
             (with_matchType P)).
  cbn [app]. unfold removeDuplicates. cbn [remove_seen existsb].
  set (L := remove_seen _ _).
  rewrite sort_head.
  - unfold slice0. destruct (limit options) as [|n]; [lia|].
    cbn [firstn]. eexists. split; [reflexivity|]. split; reflexivity.
  - intros y Hy. unfold L in Hy. apply remove_seen_in in Hy.
    apply in_map_iff in Hy as (r & <- & Hr). apply filter_In in Hr as [Hr _].
    unfold by_relevance.
    cbn [e SearchResult.matchType SearchResult.relevance with_matchType].
    change (matchTypePriority (Some exact_postal)) with 5.
    destruct (Z.eqb_spec 5 (matchTypePriority (Some (determineMatchType P r))))
      as [E|N]; cbn [negb].
    + symmetry in E. apply priority_5 in E.
      apply search_in in Hr. rewrite Hlow, Htrim in Hr.
      pose proof (exact_relevance (SearchResult.name r) P E) as Hrel.
      destruct Hr as [[d ->]|[o ->]];
        cbn [district_result office_result SearchResult.name
             SearchResult.relevance] in *; rewrite Hrel.
      * lia.
      * destruct (includes _ _); lia.
    + destruct (determineMatchType P r); cbn [matchTypePriority] in *; lia.
Qed.

Lemma C4_witness :
  exists po rest,
    getPostOfficeByCode c4_store (str "44601") = Some po
    /\ PostOffice.postalCode po = str "44601"
    /\ searchByQuery (fun _ _ => 0) c4_store (VStr (str "44601")) default_options
       = SearchResult.make RPostOffice (PostOffice.name po)
                           (Some (PostOffice.district po)) (Some (str "44601"))
                           100 (Some exact_postal)
         :: rest.
Proof.
  apply (C4_exact_postal_first (fun _ _ => 0) c4_store (str "44601") default_options).
  - simpl. now left.
  - reflexivity.
  - reflexivity.
  - simpl. lia.
Defined.

End PostalClaims.

(** * A district name as the query (C5) *)
Module DistrictClaims.
Import Shape Examples.
Import ArrayFacts SearchFacts TrimFacts StoreFacts RankFacts QueryFacts.
Import NepalGeoData GeoSearch Rules.
Local Open Scope Z_scope.

(** ** C5: a district searched by its own name *)

(** C5, as stated, fails: of two districts whose names differ in case
    only, the one stored first is the top result for either name; and a
    district whose name contains the five tokens of a later district's
    name scores 100 by rule 7 and stays ahead of it. *)
Lemma C5_counterexample :
  (exists st D r rest,
      processData c5_raw = Some st
      /\ In D (getAllDistricts st)
      /\ searchDistricts st (VStr (District.name D)) 5 false = Returns (r :: rest)
      /\ SearchResult.name (result r) <> District.name D)
  /\ (exists st D r rest,
         processData c5_raw_tokens = Some st
         /\ In D (getAllDistricts st)
         /\ searchDistricts st (VStr (District.name D)) 5 false = Returns (r :: rest)
         /\ SearchResult.name (result r) <> District.name D
         /\ SearchResult.matchType (result r) = Some fuzzy).
Proof.
  split.
  - eexists. exists (District.make (str "KATHMANDU") 1
              [PostOffice.make (str "Kalimati") (str "44602") (str "A.P.O.")
                               (str "KATHMANDU")]).
    eexists. eexists.
    split; [vm_compute; reflexivity|].
    split; [vm_compute; right; left; reflexivity|].
    split; [vm_compute; reflexivity|].
    vm_compute. discriminate.
  - eexists. exists (District.make (str "a b c d e") 1
              [PostOffice.make (str "Kalimati") (str "44602") (str "A.P.O.")
                               (str "a b c d e")]).
    eexists. eexists.
    split; [vm_compute; reflexivity|].
    split; [vm_compute; right; left; reflexivity|].
    split; [vm_compute; reflexivity|].
    split; [vm_compute; discriminate|vm_compute; reflexivity].
Qed.

Lemma find_first_exact (p : District.t -> bool) nq ds first :
  find p ds = Some first ->
  (forall d, p d = true -> calculateRelevance (District.name d) nq = 100) ->
  (forall d, p d = false -> calculateRelevance (District.name d) nq <= 80) ->
  find (fun r => SearchResult.relevance r =? 100)
       (filter (fun r => 20 <? SearchResult.relevance r)
          (map (district_result nq)
             (filter (fun d => 0 <? calculateRelevance (District.name d) nq) ds)))
  = Some (district_result nq first).
Proof.
  intros Hfind Hyes Hno.
  induction ds as [|d ds IH]; [discriminate|].
  cbn [find] in Hfind.
  assert (Hrel : SearchResult.relevance (district_result nq d)
                 = calculateRelevance (District.name d) nq) by reflexivity.
  cbn [filter].
  destruct (p d) eqn:Ep.
  - injection Hfind as <-. pose proof (Hyes d Ep) as E.
    rewrite E. change (0 <? 100) with true. cbn [map filter].
    rewrite Hrel, E. change (20 <? 100) with true. cbn [find].
    rewrite Hrel, E. reflexivity.
  - specialize (Hno d Ep).
    destruct (0 <? calculateRelevance (District.name d) nq); [|now apply IH].
    cbn [map filter]. rewrite Hrel.
    destruct (20 <? calculateRelevance (District.name d) nq); [|now apply IH].
    cbn [find]. rewrite Hrel.
    destruct (Z.eqb_spec (calculateRelevance (District.name d) nq) 100); [lia|].
    now apply IH.
Qed.

(** C5, amended: for a district [D] of the loaded dataset whose name has
    at most four space-separated tokens, [searchDistricts(D.name)] (with a
    limit of one or more) is not empty, and its first element has
    matchType [exact], relevance 100 and the name of the first stored
    district that equals [D.name] when both are lower-cased: [D.name]
    itself unless an earlier district differs from it in case only. *)
Theorem C5_district_exact_first
        (raw : list RawEntry.t) (st : NepalGeoData.t) (D : District.t)
        (limit : nat) (includeStats : bool) :
  processData raw = Some st ->
  In D (getAllDistricts st) ->
  (length (tokens (District.name D)) <= 4)%nat ->
  (0 < limit)%nat ->
  exists first r rest,
    find (fun d => jeqb (toLowerCase (District.name d))
                        (toLowerCase (District.name D)))
         (getAllDistricts st) = Some first
    /\ searchDistricts st (VStr (District.name D)) limit includeStats
       = Returns (r :: rest)
    /\ SearchResult.name (result r) = District.name first
    /\ SearchResult.matchType (result r) = Some exact
    /\ SearchResult.relevance (result r) = 100.
Proof.
  intros Hload HD Htok Hlimit.
  pose proof (district_trimmed raw st D Hload HD) as Htrim.
  apply trimmed_lower in Htrim. unfold trimmed in Htrim.
  set (p := fun d => jeqb (toLowerCase (District.name d))
                          (toLowerCase (District.name D))).
  destruct (find_exists p (getAllDistricts st) D HD (jeqb_refl _)) as [first Hfirst].
  pose proof (find_some _ _ _ Hfirst) as [_ Hp].
  set (nq := toLowerCase (District.name D)) in *.
  assert (Hyes : forall d, p d = true -> calculateRelevance (District.name d) nq = 100).
  { intros d Hd. apply exact_relevance. unfold nq. now rewrite toLowerCase_idem. }
  assert (Hno : forall d, p d = false -> calculateRelevance (District.name d) nq <= 80).
  { intros d Hd. apply nonexact_relevance.
    - unfold nq. now rewrite toLowerCase_idem.
    - unfold nq. now rewrite tokens_lower. }
  pose proof (find_first_exact p nq (getAllDistricts st) first Hfirst Hyes Hno) as Hf.
  assert (Hmax : forall y,
             In y (filter (fun r => 20 <? SearchResult.relevance r)
                     (map (district_result nq)
                        (filter (fun d => 0 <? calculateRelevance (District.name d) nq)
                                (getAllDistricts st)))) ->
             SearchResult.relevance y <= 100).
  { intros y Hy. apply filter_In in Hy as [Hy _].
    apply in_map_iff in Hy as (d & <- & _).
    cbn [district_result SearchResult.relevance].
    destruct (p d) eqn:Ed; [rewrite (Hyes d Ed)|specialize (Hno d Ed)]; lia. }
  destruct (sort_first_max 100 _ _ Hmax Hf) as [rest0 Hsort].
  exists first. unfold searchDistricts. rewrite search_district. fold nq.
  rewrite Htrim.
  unfold getAllDistricts in Hsort. rewrite Hsort.
  unfold slice0. destruct limit as [|n]; [lia|]. cbn [firstn map].
  eexists. eexists. split; [exact Hfirst|]. split; [reflexivity|].
  cbn [result SearchResult.name SearchResult.matchType SearchResult.relevance
       district_result].
  split; [reflexivity|]. split.
  - unfold determineMatchType. cbn [district_result SearchResult.name].
    unfold p in Hp. fold nq. now rewrite Hp.
  - now apply Hyes.
Qed.

Lemma C5_witness :
  exists st D first r rest,
    processData c5_raw = Some st
    /\ In D (getAllDistricts st)
    /\ find (fun d => jeqb (toLowerCase (District.name d))
                           (toLowerCase (District.name D)))
            (getAllDistricts st) = Some first
    /\ searchDistricts st (VStr (District.name D)) 5 false = Returns (r :: rest)
    /\ SearchResult.name (result r) = District.name first
    /\ SearchResult.matchType (result r) = Some exact
    /\ SearchResult.relevance (result r) = 100.
Proof.
  pose (st := NepalGeoData.make
    [(str "Kathmandu",
      District.make (str "Kathmandu") 1
        [PostOffice.make (str "Thamel") (str "44601") (str "A.P.O.") (str "Kathmandu")]);
     (str "KATHMANDU",
      District.make (str "KATHMANDU") 1
        [PostOffice.make (str "Kalimati") (str "44602") (str "A.P.O.") (str "KATHMANDU")])]
    [PostOffice.make (str "Thamel") (str "44601") (str "A.P.O.") (str "Kathmandu");
     PostOffice.make (str "Kalimati") (str "44602") (str "A.P.O.") (str "KATHMANDU")]).
  pose (D := District.make (str "Kathmandu") 1
        [PostOffice.make (str "Thamel") (str "44601") (str "A.P.O.") (str "Kathmandu")]).
  assert (Hload : processData c5_raw = Some st) by (vm_compute; reflexivity).
  assert (HD : In D (getAllDistricts st)) by (vm_compute; left; reflexivity).
  destruct (C5_district_exact_first c5_raw st D 5 false Hload HD)
    as (first & r & rest & H).
  - vm_compute. lia.
  - lia.
  - exists st, D, first, r, rest. tauto.
Defined.

End DistrictClaims.

(* ================================================================== *)
(** * Facts about the stable sort *)
(* ================================================================== *)

Module SortFacts.
Import ArrayFacts.
Local Open Scope Z_scope.

Lemma sort_insert_perm {A} (cmp : A -> A -> Z) x l :
  Permutation (sort_insert cmp x l) (x :: l).
Proof.
  induction l as [|y l IH]; cbn [sort_insert]; [reflexivity|].
  destruct (0 <? cmp x y); [|reflexivity].
  rewrite IH. apply perm_swap.
Qed.

Lemma sort_perm {A} (cmp : A -> A -> Z) l : Permutation (sort cmp l) l.
Proof.
  induction l as [|x l IH]; [reflexivity|].
  unfold sort in *. cbn [fold_right].
  rewrite sort_insert_perm. now constructor.
Qed.

Section Sorted.

Context {A : Type} (cmp : A -> A -> Z).

(** What a comparator must satisfy for the result of [sort] to be in
    order: the relation [cmp a b <= 0] is transitive, and of two elements
    one may stand before the other. *)
Hypothesis cmp_trans : forall x y z, cmp x y <= 0 -> cmp y z <= 0 -> cmp x z <= 0.
Hypothesis cmp_total : forall x y, 0 < cmp x y -> cmp y x <= 0.

Lemma sort_insert_sorted x l :
  StronglySorted (fun a b => cmp a b <= 0) l ->
  StronglySorted (fun a b => cmp a b <= 0) (sort_insert cmp x l).
Proof.
  induction l as [|y l IH]; intros H; cbn [sort_insert].
  - constructor; constructor.
  - inversion H as [|? ? Hs Hall]; subst.
    destruct (Z.ltb_spec 0 (cmp x y)) as [Hlt|Hle].
    + constructor; [now apply IH|].
      apply Forall_forall. intros z Hz. apply sort_insert_in in Hz as [->|Hz].
      * now apply cmp_total.
      * rewrite Forall_forall in Hall. now apply Hall.
    + constructor; [exact H|]. constructor; [exact Hle|].
      rewrite Forall_forall in *. intros z Hz.
      apply (cmp_trans x y z Hle). now apply Hall.
Qed.

Lemma sort_sorted l : StronglySorted (fun a b => cmp a b <= 0) (sort cmp l).
Proof.
  induction l as [|x l IH]; [constructor|].
  unfold sort in *. cbn [fold_right]. now apply sort_insert_sorted.
Qed.

End Sorted.

Lemma firstn_sorted {A} (R : A -> A -> Prop) n l :
  StronglySorted R l -> StronglySorted R (firstn n l).
Proof.
  revert n. induction l as [|x l IH]; intros [|n] H; cbn [firstn];
    try constructor.
  - inversion H; subst. now apply IH.
  - inversion H as [|? ? _ Hall]; subst.
    rewrite Forall_forall in *. intros y Hy. apply Hall.
    rewrite <- (firstn_skipn n l). apply in_or_app. now left.
Qed.

Lemma sorted_weaken {A} (R S : A -> A -> Prop) l :
  (forall a b, R a b -> S a b) -> StronglySorted R l -> StronglySorted S l.
Proof.
  intros H. induction 1 as [|x l Hs IH Hall]; constructor; [exact IH|].
  rewrite Forall_forall in *. auto.
Qed.

Lemma filter_map_comm {A B} (f : A -> B) (p : B -> bool) l :
  filter p (map f l) = map f (filter (fun x => p (f x)) l).
Proof.
  induction l as [|x l IH]; cbn [map filter]; [reflexivity|].
  destruct (p (f x)); cbn [map]; now rewrite IH.
Qed.

Lemma filter_filter {A} (p q : A -> bool) l :
  filter p (filter q l) = filter (fun x => q x && p x) l.
Proof.
  induction l as [|x l IH]; cbn [filter]; [reflexivity|].
  destruct (q x); cbn [filter andb]; [destruct (p x)|]; now rewrite IH.
Qed.

Lemma filter_ext_in_eq {A} (p q : A -> bool) l :
  (forall x, In x l -> p x = q x) -> filter p l = filter q l.
Proof.
  induction l as [|x l IH]; intros H; cbn [filter]; [reflexivity|].
  rewrite (H x (or_introl eq_refl)), IH; [reflexivity|].
  intros y Hy. apply H. now right.
Qed.

End SortFacts.

(* ================================================================== *)
(** * The ranked search of the store *)
(* ================================================================== *)

Module SearchRankFacts.
Import Shape ArrayFacts SortFacts SearchFacts NepalGeoData.
Local Open Scope Z_scope.

Lemma by_score_trans x y z :
  by_score x y <= 0 -> by_score y z <= 0 -> by_score x z <= 0.
Proof. unfold by_score. lia. Qed.

Lemma by_score_total x y : 0 < by_score x y -> by_score y x <= 0.
Proof. unfold by_score. lia. Qed.

(** The candidates of [search], before the threshold and the sort. *)
Lemma search_eq st query type :
  search st query type
  = sort by_score
      (filter (fun r => 20 <? SearchResult.relevance r)
         ((if includes_district type
           then map (district_result (trim (toLowerCase query)))
                    (filter (fun d => 0 <? calculateRelevance (District.name d)
                                            (trim (toLowerCase query)))
                            (Object_values (districts st)))
           else [])
          ++ (if includes_postOffice type
              then map (office_result (trim (toLowerCase query)) query)
                       (filter (fun po =>
                                  0 <? Z.max (calculateRelevance (PostOffice.name po)
                                                (trim (toLowerCase query)))
                                             (if includes (PostOffice.postalCode po) query
                                              then 90 else 0))
                               (postOffices st))
              else []))).
Proof.
  unfold search. set (nq := trim (toLowerCase query)). do 2 f_equal.
  pose proof (fold_push (fun d => 0 <? calculateRelevance (District.name d) nq)
                        (district_result nq) (Object_values (districts st)) [])
    as HD.
  cbn [app] in HD. unfold district_result in HD at 1.
  destruct (includes_district type).
  - rewrite HD.
    destruct (includes_postOffice type); [|now rewrite app_nil_r].
    exact (fold_push
             (fun po => 0 <? Z.max (calculateRelevance (PostOffice.name po) nq)
                                   (if includes (PostOffice.postalCode po) query
                                    then 90 else 0))
             (office_result nq query) (postOffices st) _).
  - destruct (includes_postOffice type); [|reflexivity].
    exact (fold_push
             (fun po => 0 <? Z.max (calculateRelevance (PostOffice.name po) nq)
                                   (if includes (PostOffice.postalCode po) query
                                    then 90 else 0))
             (office_result nq query) (postOffices st) []).
Qed.

Lemma search_sorted st query type :
  StronglySorted (fun a b => SearchResult.relevance b <= SearchResult.relevance a)
                 (search st query type).
Proof.
  rewrite search_eq.
  eapply sorted_weaken; [|apply (sort_sorted by_score by_score_trans by_score_total)].
  intros a b. unfold by_score. lia.
Qed.

Lemma search_threshold st query type :
  Forall (fun r => 20 < SearchResult.relevance r) (search st query type).
Proof.
  rewrite search_eq.
  apply Forall_forall. intros r Hr. apply sort_in, filter_In in Hr as [_ Hr].
  now apply Z.ltb_lt.
Qed.

End SearchRankFacts.

Module SearchExtras.
Import Shape ArrayFacts SortFacts SearchFacts SearchRankFacts NepalGeoData.
Local Open Scope Z_scope.

(** X1: whatever the query and the scope, the results of [search] are in
    order of relevance, greatest first, and each has a relevance above
    20. *)
Theorem search_ranked_above_threshold (st : NepalGeoData.t) (query : jstring)
        (type : Scope) :
  StronglySorted (fun a b => SearchResult.relevance b <= SearchResult.relevance a)
                 (search st query type)
  /\ Forall (fun r => 20 < SearchResult.relevance r) (search st query type).
Proof. split; [apply search_sorted|apply search_threshold]. Qed.

(** X2: up to order, [search] returns exactly one result for each stored
    district whose name scores above 20 against the trimmed, lower-cased
    query (when the scope has districts), and one for each stored post
    office whose name score, or 90 when its postal code contains the
    query as typed, is above 20 (when the scope has post offices). *)
Theorem search_exactly_the_matches (st : NepalGeoData.t) (query : jstring)
        (type : Scope) :
  Permutation
    (search st query type)
    ((if includes_district type
      then map (district_result (trim (toLowerCase query)))
               (filter (fun d => 20 <? calculateRelevance (District.name d)
                                         (trim (toLowerCase query)))
                       (getAllDistricts st))
      else [])
     ++ (if includes_postOffice type
         then map (office_result (trim (toLowerCase query)) query)
                  (filter (fun po =>
                             20 <? Z.max (calculateRelevance (PostOffice.name po)
                                            (trim (toLowerCase query)))
                                         (if includes (PostOffice.postalCode po) query
                                          then 90 else 0))
                          (getAllPostOffices st))
         else [])).
Proof.
  rewrite search_eq. etransitivity; [apply sort_perm|].
  match goal with |- Permutation ?a ?b => replace a with b; [reflexivity|symmetry] end.
  rewrite filter_app. f_equal.
  - destruct (includes_district type); [|reflexivity].
    rewrite filter_map_comm, filter_filter. f_equal.
    apply filter_ext_in_eq. intros d _.
    cbn [district_result SearchResult.relevance].
    destruct (Z.ltb_spec 20 (calculateRelevance (District.name d) (trim (toLowerCase query))));
      destruct (Z.ltb_spec 0 (calculateRelevance (District.name d) (trim (toLowerCase query))));
      try reflexivity; lia.
  - destruct (includes_postOffice type); [|reflexivity].
    rewrite filter_map_comm, filter_filter. f_equal.
    apply filter_ext_in_eq. intros po _.
    cbn [office_result SearchResult.relevance].
    set (m := Z.max _ _).
    destruct (Z.ltb_spec 20 m); destruct (Z.ltb_spec 0 m); try reflexivity; lia.
Qed.

End SearchExtras.

(* ================================================================== *)
(** * Deduplication and ranking of query results *)
(* ================================================================== *)

Module DedupFacts.
Import ArrayFacts SortFacts GeoSearch.

Lemma remove_seen_keys seen l :
  NoDup (map dedup_key (remove_seen seen l))
  /\ forall r, In r (remove_seen seen l) -> ~ In (dedup_key r) seen.
Proof.
  revert seen. induction l as [|x l IH]; intros seen; cbn [remove_seen].
  - split; [constructor|intros r []].
  - destruct (existsb (jeqb (dedup_key x)) seen) eqn:E; [apply IH|].
    destruct (IH (dedup_key x :: seen)) as [Hnd Hout].
    split.
    + cbn [map]. constructor; [|exact Hnd].
      intros Hin. apply in_map_iff in Hin as (r & Hk & Hr).
      apply (Hout r Hr). left. now symmetry.
    + intros r [<-|Hr].
      * intros Hin. apply existsb_jeqb_in in Hin. congruence.
      * intros Hin. apply (Hout r Hr). now right.
Qed.

Lemma remove_seen_covers seen l r :
  In r l -> In (dedup_key r) seen \/ In (dedup_key r) (map dedup_key (remove_seen seen l)).
Proof.
  revert seen. induction l as [|x l IH]; intros seen; [intros []|].
  cbn [remove_seen]. intros [<-|Hr].
  - destruct (existsb (jeqb (dedup_key x)) seen) eqn:E.
    + left. now apply existsb_jeqb_in.
    + right. now left.
  - destruct (existsb (jeqb (dedup_key x)) seen) eqn:E; [now apply IH|].
    destruct (IH (dedup_key x :: seen) Hr) as [[<-|H]|H].
    + right. now left.
    + now left.
    + right. now right.
Qed.

Lemma remove_seen_first seen l r :
  In r (remove_seen seen l) ->
  find (fun x => jeqb (dedup_key x) (dedup_key r)) l = Some r.
Proof.
  revert seen. induction l as [|x l IH]; intros seen; cbn [remove_seen];
    [intros []|].
  assert (Hskip : forall seen', In (dedup_key x) seen' ->
                    In r (remove_seen seen' l) ->
                    find (fun y => jeqb (dedup_key y) (dedup_key r)) (x :: l) = Some r).
  { intros seen' Hx Hr. cbn [find].
    destruct (jeqb (dedup_key x) (dedup_key r)) eqn:Ek; [|now apply (IH seen')].
    apply jeqb_true in Ek.
    destruct (proj2 (remove_seen_keys seen' l) r Hr). now rewrite <- Ek. }
  destruct (existsb (jeqb (dedup_key x)) seen) eqn:E.
  - apply Hskip. now apply existsb_jeqb_in.
  - intros [<-|Hr].
    + cbn [find]. now rewrite jeqb_refl.
    + apply (Hskip (dedup_key x :: seen)); [now left|exact Hr].
Qed.

Lemma remove_seen_fixed seen l :
  NoDup (map dedup_key l) -> (forall r, In r l -> ~ In (dedup_key r) seen) ->
  remove_seen seen l = l.
Proof.
  revert seen. induction l as [|x l IH]; intros seen Hnd Hout; [reflexivity|].
  cbn [remove_seen]. cbn [map] in Hnd. inversion Hnd as [|? ? Hx Hnd']; subst.
  destruct (existsb (jeqb (dedup_key x)) seen) eqn:E.
  - apply existsb_jeqb_in in E. destruct (Hout x (or_introl eq_refl) E).
  - f_equal. apply IH; [exact Hnd'|].
    intros r Hr [Hk|Hin].
    + apply Hx. rewrite Hk. now apply in_map.
    + apply (Hout r); [now right|exact Hin].
Qed.

Lemma NoDup_map_perm {A B} (f : A -> B) l l' :
  Permutation l l' -> NoDup (map f l') -> NoDup (map f l).
Proof.
  intros Hp Hnd. apply (Permutation_NoDup (l := map f l')); [|exact Hnd].
  apply Permutation_map. now symmetry.
Qed.

End DedupFacts.

Module RankingFacts.
Import GeoSearch.
Local Open Scope Z_scope.

Lemma by_relevance_le a b :
  by_relevance a b <= 0 <->
  matchTypePriority (SearchResult.matchType b) < matchTypePriority (SearchResult.matchType a)
  \/ (matchTypePriority (SearchResult.matchType a)
      = matchTypePriority (SearchResult.matchType b)
      /\ SearchResult.relevance b <= SearchResult.relevance a).
Proof.
  unfold by_relevance. cbv zeta.
  destruct (Z.eqb_spec (matchTypePriority (SearchResult.matchType a))
                       (matchTypePriority (SearchResult.matchType b)));
    cbn [negb]; lia.
Qed.

Lemma by_relevance_trans x y z :
  by_relevance x y <= 0 -> by_relevance y z <= 0 -> by_relevance x z <= 0.
Proof. rewrite !by_relevance_le. lia. Qed.

Lemma by_relevance_total x y : 0 < by_relevance x y -> by_relevance y x <= 0.
Proof.
  intros H. apply by_relevance_le.
  assert (N : ~ by_relevance x y <= 0) by lia.
  rewrite by_relevance_le in N. lia.
Qed.

End RankingFacts.

Module QueryExtras.
Import Shape ArrayFacts SortFacts SuggestionFacts SearchFacts SearchRankFacts.
Import QueryFacts DedupFacts RankingFacts NepalGeoData GeoSearch.
Local Open Scope Z_scope.

(** X3: [removeDuplicates] leaves no two results with the same key; each
    result it keeps is the first of the input with its key; every key of
    the input is still there; and a second pass changes nothing. *)
Theorem removeDuplicates_first_occurrences (results : list SearchResult.t) :
  NoDup (map dedup_key (removeDuplicates results))
  /\ Forall (fun r => find (fun x => jeqb (dedup_key x) (dedup_key r)) results
                      = Some r)
            (removeDuplicates results)
  /\ Forall (fun r => In (dedup_key r) (map dedup_key (removeDuplicates results)))
            results
  /\ removeDuplicates (removeDuplicates results) = removeDuplicates results.
Proof.
  unfold removeDuplicates.
  destruct (remove_seen_keys [] results) as [Hnd Hout].
  split; [exact Hnd|]. split; [|split].
  - apply Forall_forall. intros r Hr. now apply (remove_seen_first []).
  - apply Forall_forall. intros r Hr.
    destruct (remove_seen_covers [] results r Hr) as [[]|H]. exact H.
  - apply remove_seen_fixed; [exact Hnd|]. intros r _ [].
Qed.

(** X4: [sortResults] returns the results it is given, none dropped or
    added, whatever the sort mode; in the relevance mode they are in order
    of [matchType] priority, highest first, and within one priority in
    order of relevance, greatest first. *)
Theorem sortResults_permutation_ranked
        (localeCompare : jstring -> jstring -> Z)
        (results : list SearchResult.t) (sortBy : SortBy) :
  Permutation (sortResults localeCompare results sortBy) results
  /\ (sortBy = ByRelevance ->
      StronglySorted
        (fun a b =>
           matchTypePriority (SearchResult.matchType b)
           < matchTypePriority (SearchResult.matchType a)
           \/ (matchTypePriority (SearchResult.matchType a)
               = matchTypePriority (SearchResult.matchType b)
               /\ SearchResult.relevance b <= SearchResult.relevance a))
        (sortResults localeCompare results sortBy)).
Proof.
  split.
  - destruct sortBy; apply sort_perm.
  - intros ->. cbn [sortResults].
    eapply sorted_weaken;
      [|apply (sort_sorted by_relevance by_relevance_trans by_relevance_total)].
    intros a b. apply by_relevance_le.
Qed.

(** X5: [searchByQuery] returns at most [limit] results, no two with the
    same key; each has a [matchType] and a relevance above 20; and in the
    relevance mode they are in order of [matchType] priority, then of
    relevance. *)
Theorem searchByQuery_results
        (localeCompare : jstring -> jstring -> Z) (st : NepalGeoData.t)
        (query : value) (options : QueryOptions) :
  (length (searchByQuery localeCompare st query options) <= limit options)%nat
  /\ NoDup (map dedup_key (searchByQuery localeCompare st query options))
  /\ Forall (fun r => SearchResult.matchType r <> None
                      /\ 20 < SearchResult.relevance r)
            (searchByQuery localeCompare st query options)
  /\ (sortBy options = ByRelevance ->
      StronglySorted
        (fun a b =>
           matchTypePriority (SearchResult.matchType b)
           < matchTypePriority (SearchResult.matchType a)
           \/ (matchTypePriority (SearchResult.matchType a)
               = matchTypePriority (SearchResult.matchType b)
               /\ SearchResult.relevance b <= SearchResult.relevance a))
        (searchByQuery localeCompare st query options)).
Proof.
  assert (Hnil : (length (@nil SearchResult.t) <= limit options)%nat
                 /\ NoDup (map dedup_key [])
                 /\ Forall (fun r => SearchResult.matchType r <> None
                                     /\ 20 < SearchResult.relevance r) []
                 /\ (sortBy options = ByRelevance ->
                     StronglySorted
                       (fun a b =>
                          matchTypePriority (SearchResult.matchType b)
                          < matchTypePriority (SearchResult.matchType a)
                          \/ (matchTypePriority (SearchResult.matchType a)
                              = matchTypePriority (SearchResult.matchType b)
                              /\ SearchResult.relevance b <= SearchResult.relevance a))
                       [])).
  { split; [cbn; lia|]. split; [constructor|]. split; constructor. }
  destruct query as [| |b|n|q|items|fields]; try exact Hnil.
  unfold searchByQuery. destruct (jeqb q []); [exact Hnil|]. clear Hnil.
  cbv zeta.
  rewrite (fold_push
             (fun result => Float64.geb (Float64.of_Z (SearchResult.relevance result))
                                        (minRelevance options))
             (with_matchType q)).
  set (first := if is_five_digits (trim q) then _ else _).
  set (found := map _ (filter _ _)).
  assert (Hcand : Forall (fun r => SearchResult.matchType r <> None
                                   /\ 20 < SearchResult.relevance r)
                         (first ++ found)).
  { apply Forall_app. split.
    - unfold first. destruct (is_five_digits (trim q)); [|constructor].
      destruct (searchByPostalCode st (trim q)); [|constructor].
      cbn [app]. constructor; [|constructor].
      cbn [SearchResult.matchType SearchResult.relevance]. split; [discriminate|lia].
    - unfold found. apply Forall_forall. intros r Hr.
      apply in_map_iff in Hr as (r0 & <- & Hr0). apply filter_In in Hr0 as [Hr0 _].
      cbn [with_matchType SearchResult.matchType SearchResult.relevance].
      split; [discriminate|].
      pose proof (search_threshold st q (includeType options)) as Ht.
      rewrite Forall_forall in Ht. now apply Ht. }
  set (sorted := sortResults localeCompare _ _).
  assert (Hperm : Permutation sorted (removeDuplicates (first ++ found)))
    by (unfold sorted; destruct (sortBy options); apply sort_perm).
  unfold slice0. split; [apply firstn_le_length|]. split; [|split].
  - rewrite <- firstn_map. apply firstn_NoDup.
    apply (NoDup_map_perm dedup_key _ _ Hperm).
    apply (remove_seen_keys [] (first ++ found)).
  - apply firstn_Forall. apply Forall_forall. intros r Hr.
    apply (Permutation_in _ Hperm), remove_seen_in in Hr.
    rewrite Forall_forall in Hcand. now apply Hcand.
  - intros Hs. apply firstn_sorted. unfold sorted. rewrite Hs. cbn [sortResults].
    eapply sorted_weaken;
      [|apply (sort_sorted by_relevance by_relevance_trans by_relevance_total)].
    intros a b. apply by_relevance_le.
Qed.

End QueryExtras.

(* ================================================================== *)
(** * Completeness of the suggestions *)
(* ================================================================== *)

Module SetFacts.
Import ArrayFacts GeoSearch.

Lemma set_add_in s x n : In n (set_add s x) <-> In n s \/ n = x.
Proof.
  unfold set_add. destruct (existsb (jeqb x) s) eqn:E.
  - apply existsb_jeqb_in in E. split; [tauto|]. intros [H| ->]; assumption.
  - rewrite in_app_iff. simpl. intuition congruence.
Qed.

Lemma set_add_length s x : length (set_add s x) <= S (length s).
Proof.
  unfold set_add. destruct (existsb (jeqb x) s); [lia|].
  rewrite length_app. simpl. lia.
Qed.

Lemma fold_add_in {A} q (name : A -> jstring) l : forall s n,
  In n (fold_left (fun suggestions x =>
                     if startsWith (toLowerCase (name x)) q
                     then set_add suggestions (name x)
                     else suggestions) l s)
  <-> In n s \/ exists x, In x l /\ startsWith (toLowerCase (name x)) q = true
                          /\ name x = n.
Proof.
  induction l as [|y l IH]; intros s n; cbn [fold_left].
  - split; [tauto|]. intros [H|(x & [] & _)]. exact H.
  - rewrite IH. destruct (startsWith (toLowerCase (name y)) q) eqn:E.
    + rewrite set_add_in. split.
      * intros [[H| ->]|(x & Hx & Hp & Hn)]; [tauto| |].
        -- right. exists y. repeat split; [now left|exact E].
        -- right. exists x. repeat split; [now right|exact Hp|exact Hn].
      * intros [H|(x & [<-|Hx] & Hp & Hn)]; [tauto| |].
        -- left. right. now symmetry.
        -- right. exists x. tauto.
    + split.
      * intros [H|(x & Hx & Hp & Hn)]; [tauto|].
        right. exists x. repeat split; [now right|exact Hp|exact Hn].
      * intros [H|(x & [<-|Hx] & Hp & Hn)]; [tauto|congruence|].
        right. exists x. tauto.
Qed.

Lemma fold_add_length {A} q (name : A -> jstring) l : forall s,
  length (fold_left (fun suggestions x =>
                       if startsWith (toLowerCase (name x)) q
                       then set_add suggestions (name x)
                       else suggestions) l s)
  <= length s + length l.
Proof.
  induction l as [|y l IH]; intros s; cbn [fold_left length]; [lia|].
  destruct (startsWith (toLowerCase (name y)) q).
  - pose proof (IH (set_add s (name y))). pose proof (set_add_length s (name y)). lia.
  - pose proof (IH s). lia.
Qed.

End SetFacts.

Module SuggestionExtras.
Import ArrayFacts SetFacts NepalGeoData GeoSearch.

(** X6: with a limit that all names fit in, [getSuggestions] leaves out
    no match: for a partial query of two characters or more, a name is
    suggested exactly when it is the name of a stored district (if the
    scope has districts) or of a stored post office (if it has post
    offices) and starts with the query, both lower-cased. *)
Theorem getSuggestions_complete (st : NepalGeoData.t) (partialQuery : jstring)
        (limit : nat) (type : Scope) (name : jstring) :
  2 <= length partialQuery ->
  length (getAllDistricts st) + length (getAllPostOffices st) <= limit ->
  In name (getSuggestions st partialQuery limit type)
  <-> startsWith (toLowerCase name) (toLowerCase partialQuery) = true
      /\ ((includes_district type = true
           /\ In name (map District.name (getAllDistricts st)))
          \/ (includes_postOffice type = true
              /\ In name (map PostOffice.name (getAllPostOffices st)))).
Proof.
  intros Hlen Hlimit. unfold getSuggestions.
  assert (E : jeqb partialQuery [] || (length partialQuery <? 2) = false).
  { apply orb_false_iff. split; [|apply Nat.ltb_ge; exact Hlen].
    destruct partialQuery; [simpl in Hlen; lia|reflexivity]. }
  rewrite E. cbv zeta. set (q := toLowerCase partialQuery).
  set (s1 := if includes_district type then _ else _).
  set (s2 := if includes_postOffice type then _ else s1).
  assert (H1 : forall n, In n s1 <->
             includes_district type = true
             /\ exists d, In d (getAllDistricts st)
                          /\ startsWith (toLowerCase (District.name d)) q = true
                          /\ District.name d = n).
  { intros n. unfold s1. destruct (includes_district type).
    - rewrite (fold_add_in q District.name). simpl. intuition.
    - simpl. intuition discriminate. }
  assert (L1 : length s1 <= length (getAllDistricts st)).
  { unfold s1. destruct (includes_district type); [|simpl; lia].
    apply (fold_add_length q District.name _ []). }
  assert (H2 : forall n, In n s2 <->
             In n s1
             \/ (includes_postOffice type = true
                 /\ exists po, In po (getAllPostOffices st)
                               /\ startsWith (toLowerCase (PostOffice.name po)) q = true
                               /\ PostOffice.name po = n)).
  { intros n. unfold s2. destruct (includes_postOffice type).
    - rewrite (fold_add_in q PostOffice.name). intuition.
    - intuition discriminate. }
  assert (L2 : length s2 <= length s1 + length (getAllPostOffices st)).
  { unfold s2. destruct (includes_postOffice type); [|lia].
    apply (fold_add_length q PostOffice.name). }
  unfold slice0. rewrite firstn_all2 by lia.
  rewrite H2, H1. split.
  - intros [(Hd & d & Hin & Hp & <-)|(Ho & po & Hin & Hp & <-)].
    + split; [exact Hp|]. left. split; [exact Hd|]. now apply in_map.
    + split; [exact Hp|]. right. split; [exact Ho|]. now apply in_map.
  - intros (Hp & [(Hd & Hin)|(Ho & Hin)]).
    + left. split; [exact Hd|]. apply in_map_iff in Hin as (d & <- & Hin).
      exists d. tauto.
    + right. split; [exact Ho|]. apply in_map_iff in Hin as (po & <- & Hin).
      exists po. tauto.
Qed.

Lemma getSuggestions_complete_witness :
  In (str "Kathmandu") (getSuggestions Examples.c4_store (str "ka") 5 ScopeAll)
  <-> startsWith (toLowerCase (str "Kathmandu")) (toLowerCase (str "ka")) = true
      /\ ((includes_district ScopeAll = true
           /\ In (str "Kathmandu")
                 (map District.name (getAllDistricts Examples.c4_store)))
          \/ (includes_postOffice ScopeAll = true
              /\ In (str "Kathmandu")
                    (map PostOffice.name (getAllPostOffices Examples.c4_store)))).
Proof.
  apply (getSuggestions_complete Examples.c4_store (str "ka") 5 ScopeAll
           (str "Kathmandu")); vm_compute; lia.
Defined.

End SuggestionExtras.

(* ================================================================== *)
(** * District and post office searches *)
(* ================================================================== *)

Module ResultFacts.
Import Shape ArrayFacts SortFacts SearchFacts SearchRankFacts TrimFacts.
Import NepalGeoData GeoSearch.
Local Open Scope Z_scope.

Lemma filter_sorted {A} (R : A -> A -> Prop) (p : A -> bool) l :
  StronglySorted R l -> StronglySorted R (filter p l).
Proof.
  induction 1 as [|x l Hs IH Hall]; cbn [filter]; [constructor|].
  destruct (p x); [|exact IH]. constructor; [exact IH|].
  rewrite Forall_forall in *. intros y Hy. apply filter_In in Hy as [Hy _]. auto.
Qed.

Lemma map_sorted {A B} (R : B -> B -> Prop) (f : A -> B) l :
  StronglySorted (fun a b => R (f a) (f b)) l -> StronglySorted R (map f l).
Proof.
  induction 1 as [|x l Hs IH Hall]; cbn [map]; constructor; [exact IH|].
  rewrite Forall_forall in *. intros y Hy. apply in_map_iff in Hy as (z & <- & Hz).
  auto.
Qed.

Lemma filter_throwing_pure {A} (p : A -> outcome bool) (q : A -> bool) l :
  (forall x, In x l -> p x = Returns (q x)) ->
  filter_throwing p l = Returns (filter q l).
Proof.
  induction l as [|x l IH]; intros H; cbn [filter_throwing filter]; [reflexivity|].
  rewrite (H x (or_introl eq_refl)). cbn [bind].
  rewrite IH by (intros y Hy; apply H; now right). reflexivity.
Qed.

(** The results of a search for districts are results of stored
    districts. *)
Lemma search_district_in st query r :
  In r (search st query ScopeDistrict) ->
  exists d, In d (getAllDistricts st)
            /\ r = district_result (trim (toLowerCase query)) d.
Proof.
  rewrite search_district. intros H. apply sort_in, filter_In in H as [H _].
  apply in_map_iff in H as (d & <- & Hd). apply filter_In in Hd as [Hd _].
  exists d. split; [exact Hd|reflexivity].
Qed.

(** The results of a search for post offices are results of stored post
    offices. *)
Lemma search_office_in st query r :
  In r (search st query ScopePostOffice) ->
  exists po, In po (getAllPostOffices st)
             /\ r = office_result (trim (toLowerCase query)) query po.
Proof.
  rewrite search_eq. cbn [includes_district includes_postOffice app].
  intros H. apply sort_in, filter_In in H as [H _].
  apply in_map_iff in H as (po & <- & Hpo). apply filter_In in Hpo as [Hpo _].
  exists po. split; [exact Hpo|reflexivity].
Qed.

(** How [determineMatchType] and the relevance of a name agree, for a
    query without white space at its ends. *)
Lemma matchType_relevance query name district postalCode relevance matchType :
  trim query = query ->
  match determineMatchType query
          (SearchResult.make RDistrict name district postalCode relevance matchType)
  with
  | exact => calculateRelevance name (trim (toLowerCase query)) = 100
  | prefix => calculateRelevance name (trim (toLowerCase query)) = 80
  | contains => calculateRelevance name (trim (toLowerCase query)) = 60
  | _ => True
  end.
Proof.
  intros Ht. rewrite trim_lower, Ht.
  unfold determineMatchType, calculateRelevance. cbn [SearchResult.name].
  rewrite toLowerCase_idem.
  destruct (jeqb (toLowerCase name) (toLowerCase query)); [reflexivity|].
  destruct (startsWith (toLowerCase name) (toLowerCase query)); [reflexivity|].
  destruct (includes (toLowerCase name) (toLowerCase query)); [reflexivity|].
  now destruct (match postalCode with Some _ => _ | None => _ end).
Qed.

End ResultFacts.

Module ResultExtras.
Import Shape ArrayFacts SortFacts SearchFacts SearchRankFacts TrimFacts ResultFacts.
Import SuggestionFacts NepalGeoData GeoSearch.
Local Open Scope Z_scope.

(** X7: for a query that is a string, [searchDistricts] returns at most
    [limit] results in order of relevance; each is the result of a stored
    district, scored above 20 against the trimmed, lower-cased query, with
    one of the match types exact, prefix, contains and fuzzy, and without
    [stats] unless [includeStats] is set.  When the query has no white
    space at its ends, exact goes with relevance 100, prefix with 80 and
    contains with 60. *)
Theorem searchDistricts_results (st : NepalGeoData.t) (query : jstring)
        (limit : nat) (includeStats : bool) :
  exists results,
    searchDistricts st (VStr query) limit includeStats = Returns results
    /\ (length results <= limit)%nat
    /\ StronglySorted
         (fun a b => SearchResult.relevance (result b)
                     <= SearchResult.relevance (result a)) results
    /\ Forall
         (fun r =>
            SearchResult.type (result r) = RDistrict
            /\ In (SearchResult.name (result r))
                  (map District.name (getAllDistricts st))
            /\ SearchResult.relevance (result r)
               = calculateRelevance (SearchResult.name (result r))
                                    (trim (toLowerCase query))
            /\ 20 < SearchResult.relevance (result r)
            /\ (includeStats = false -> stats r = None)
            /\ match SearchResult.matchType (result r) with
               | Some exact =>
                   trim query = query -> SearchResult.relevance (result r) = 100
               | Some prefix =>
                   trim query = query -> SearchResult.relevance (result r) = 80
               | Some contains =>
                   trim query = query -> SearchResult.relevance (result r) = 60
               | Some fuzzy => True
               | _ => False
               end)
         results.
Proof.
  unfold searchDistricts. eexists. split; [reflexivity|].
  unfold slice0. split; [|split].
  - rewrite length_map. apply firstn_le_length.
  - apply map_sorted. cbn [result SearchResult.relevance].
    apply firstn_sorted, search_sorted.
  - apply Forall_forall. intros r Hr. apply in_map_iff in Hr as (r0 & <- & Hr0).
    assert (Hin : In r0 (search st query ScopeDistrict)).
    { rewrite <- (firstn_skipn limit). apply in_or_app. now left. }
    pose proof (search_threshold st query ScopeDistrict) as Ht.
    rewrite Forall_forall in Ht. specialize (Ht r0 Hin).
    apply search_district_in in Hin as (d & Hd & ->).
    cbn [result stats SearchResult.type SearchResult.name SearchResult.relevance
         SearchResult.matchType district_result] in *.
    split; [reflexivity|]. split; [now apply in_map|]. split; [reflexivity|].
    split; [exact Ht|]. split.
    + intros ->. now destruct (getDistrictByName st (District.name d)).
    + pose proof (matchType_relevance query (District.name d) None None
                    (calculateRelevance (District.name d) (trim (toLowerCase query)))
                    None) as Hm.
      unfold determineMatchType in *. cbn [SearchResult.name SearchResult.postalCode] in *.
      destruct (jeqb _ _); [exact Hm|].
      destruct (startsWith _ _); [exact Hm|].
      destruct (includes _ _); [exact Hm|exact I].
Qed.

(** X8: for a query that is a string and a [district] option that is a
    string or falsy, [searchPostOffices] returns at most [limit] results in
    order of relevance; each is the result of a stored post office, scored
    above 20; with a [district] option its district is that one, case
    ignored; with a [type] option a stored post office with its name and
    district has that type; and it has [details] with [includeDetails]
    only. *)
Theorem searchPostOffices_results (st : NepalGeoData.t) (query : jstring)
        (options : PostOfficeOptions) :
  Value.truthy (po_district options) = false
  \/ Value.is_string (po_district options) = true ->
  exists results,
    searchPostOffices st (VStr query) options = Returns results
    /\ (length results <= po_limit options)%nat
    /\ StronglySorted
         (fun a b => SearchResult.relevance (office b)
                     <= SearchResult.relevance (office a)) results
    /\ Forall
         (fun r =>
            SearchResult.type (office r) = RPostOffice
            /\ 20 < SearchResult.relevance (office r)
            /\ SearchResult.matchType (office r) <> None
            /\ (exists po,
                  In po (getAllPostOffices st)
                  /\ SearchResult.name (office r) = PostOffice.name po
                  /\ SearchResult.district (office r) = Some (PostOffice.district po)
                  /\ SearchResult.postalCode (office r)
                     = Some (PostOffice.postalCode po))
            /\ (forall d, po_district options = VStr d -> d <> [] ->
                 exists x, SearchResult.district (office r) = Some x
                           /\ toLowerCase x = toLowerCase d)
            /\ (forall t, po_type options = VStr t -> t <> [] ->
                 exists po,
                   In po (getAllPostOffices st)
                   /\ PostOffice.name po = SearchResult.name (office r)
                   /\ Some (PostOffice.district po) = SearchResult.district (office r)
                   /\ PostOffice.type po = t)
            /\ (includeDetails options = false -> details r = None))
         results.
Proof.
  intros Hd. unfold searchPostOffices.
  set (found := search st query ScopePostOffice).
  set (keep := fun d r =>
                 match SearchResult.district r with
                 | Some x => if jeqb x [] then false
                             else jeqb (toLowerCase x) (toLowerCase d)
                 | None => false
                 end).
  assert (Hf : exists byDistrict,
             (if Value.truthy (po_district options)
              then filter_throwing (in_district (po_district options)) found
              else Returns found) = Returns byDistrict
             /\ byDistrict
                = match po_district options with
                  | VStr d => if jeqb d [] then found else filter (keep d) found
                  | _ => found
                  end).
  { destruct (po_district options) as [| |b|n|d|items|fields];
      try (destruct Hd as [Hd|Hd]; [|discriminate Hd]; rewrite Hd;
           eexists; split; reflexivity).
    cbn [Value.truthy].
    destruct (jeqb d []); cbn [negb]; [eexists; split; reflexivity|].
    eexists. split; [|reflexivity].
    apply filter_throwing_pure. intros r _. unfold in_district, keep.
    destruct (SearchResult.district r) as [x|]; [|reflexivity].
    now destruct (jeqb x []). }
  destruct Hf as (byDistrict & -> & HbyD). cbn [bind].
  set (byType := if Value.truthy (po_type options) then _ else _).
  eexists. split; [reflexivity|].
  assert (Hsub1 : forall r, In r byDistrict -> In r found).
  { intros r Hr. rewrite HbyD in Hr.
    destruct (po_district options); try exact Hr.
    destruct (jeqb s []); [exact Hr|]. now apply filter_In in Hr as [Hr _]. }
  assert (Hsub2 : forall r, In r byType -> In r byDistrict).
  { intros r Hr. unfold byType in Hr.
    destruct (Value.truthy (po_type options)); [|exact Hr].
    now apply filter_In in Hr as [Hr _]. }
  assert (Hsorted : StronglySorted
            (fun a b => SearchResult.relevance b <= SearchResult.relevance a) byType).
  { assert (S0 : StronglySorted
              (fun a b => SearchResult.relevance b <= SearchResult.relevance a) found)
      by apply search_sorted.
    assert (S1 : StronglySorted
              (fun a b => SearchResult.relevance b <= SearchResult.relevance a)
              byDistrict).
    { rewrite HbyD. destruct (po_district options); try exact S0.
      destruct (jeqb s []); [exact S0|]. now apply filter_sorted. }
    unfold byType. destruct (Value.truthy (po_type options)); [|exact S1].
    now apply filter_sorted. }
  unfold slice0. split; [|split].
  - rewrite length_map. apply firstn_le_length.
  - apply map_sorted. cbn [office SearchResult.relevance].
    now apply firstn_sorted.
  - apply Forall_forall. intros r Hr. apply in_map_iff in Hr as (r0 & <- & Hr0).
    assert (Hin2 : In r0 byType).
    { rewrite <- (firstn_skipn (po_limit options)). apply in_or_app. now left. }
    pose proof (Hsub2 r0 Hin2) as Hin1. pose proof (Hsub1 r0 Hin1) as Hin0.
    pose proof (search_threshold st query ScopePostOffice) as Ht.
    rewrite Forall_forall in Ht. specialize (Ht r0 Hin0).
    destruct (search_office_in st query r0 Hin0) as (po & Hpo & E).
    cbn [office details SearchResult.type SearchResult.name SearchResult.relevance
         SearchResult.matchType SearchResult.district SearchResult.postalCode].
    split; [reflexivity|]. split; [exact Ht|]. split; [discriminate|].
    split; [|split; [|split]].
    + exists po. rewrite E. cbn [office_result SearchResult.name
        SearchResult.district SearchResult.postalCode]. tauto.
    + intros d Ed Hne. rewrite HbyD, Ed in Hin1.
      destruct (jeqb d []) eqn:En; [apply jeqb_true in En; contradiction|].
      apply filter_In in Hin1 as [_ Hk]. unfold keep in Hk.
      destruct (SearchResult.district r0) as [x|]; [|discriminate].
      exists x. split; [reflexivity|].
      destruct (jeqb x []); [discriminate|]. now apply jeqb_true.
    + intros t Et Hne. unfold byType in Hin2. rewrite Et in Hin2.
      cbn [Value.truthy] in Hin2.
      destruct (jeqb t []) eqn:En; [apply jeqb_true in En; contradiction|].
      cbn [negb] in Hin2. apply filter_In in Hin2 as [_ Hk].
      unfold has_type in Hk.
      destruct (find (same_office r0) (getAllPostOffices st)) as [p|] eqn:Ef;
        [|discriminate].
      apply find_some in Ef as [Hp Hs]. unfold same_office in Hs.
      apply andb_true_iff in Hs as [Hn Hdist].
      exists p. split; [exact Hp|]. split; [now apply jeqb_true|].
      split; [|now apply jeqb_true].
      destruct (SearchResult.district r0) as [x|]; [|discriminate].
      f_equal. now apply jeqb_true.
    + now intros ->.
Qed.

Lemma searchPostOffices_results_witness :
  exists results,
    searchPostOffices Examples.c4_store (VStr (str "thamel"))
                      (mkPostOfficeOptions 10 (VStr (str "kathmandu")) VNull true)
    = Returns results
    /\ length results = 1%nat.
Proof.
  destruct (searchPostOffices_results Examples.c4_store (str "thamel")
              (mkPostOfficeOptions 10 (VStr (str "kathmandu")) VNull true))
    as (results & E & _).
  - right. reflexivity.
  - exists results. split; [exact E|].
    vm_compute in E. now injection E as <-.
Defined.

End ResultExtras.

(* ================================================================== *)
(** * The store that processData builds *)
(* ================================================================== *)

Module LoadFacts.
Import Shape StoreShape ArrayFacts SortFacts TrimFacts StoreFacts NepalGeoData.

Lemma lookup_none {A} k (l : list (jstring * A)) :
  Value.lookup k l = None -> ~ In k (map fst l).
Proof.
  induction l as [|[k' v'] l IH]; cbn [Value.lookup map fst]; [tauto|].
  destruct (jeqb k' k) eqn:E; [discriminate|].
  intros H [Hk|Hin]; [|now apply IH].
  subst. now rewrite jeqb_refl in E.
Qed.

Lemma set_property_new {A} (obj : list (jstring * A)) k v :
  Value.lookup k obj = None -> set_property obj k v = obj ++ [(k, v)].
Proof.
  induction obj as [|[k' v'] obj IH]; cbn [Value.lookup set_property app];
    [reflexivity|].
  destruct (jeqb k' k); [discriminate|]. intros H. now rewrite IH.
Qed.

Lemma set_property_keys {A} (obj : list (jstring * A)) k v v0 :
  Value.lookup k obj = Some v0 ->
  map fst (set_property obj k v) = map fst obj.
Proof.
  induction obj as [|[k' v'] obj IH]; cbn [Value.lookup set_property map fst];
    [discriminate|].
  destruct (jeqb k' k); [reflexivity|]. intros H. cbn [map fst]. now rewrite IH.
Qed.

Lemma set_property_old {A} (obj : list (jstring * A)) k v k' v' :
  NoDup (map fst obj) -> In k (map fst obj) ->
  In (k', v') (set_property obj k v) ->
  (k' = k /\ v' = v) \/ (k' <> k /\ In (k', v') obj).
Proof.
  induction obj as [|[k0 v0] obj IH]; cbn [set_property map fst]; [intros _ []|].
  intros Hnd Hin. inversion Hnd as [|? ? Hk0 Hnd']; subst.
  destruct (jeqb k0 k) eqn:E.
  - apply jeqb_true in E. subst k0. intros [[= <- <-]|H]; [now left|].
    right. split; [|now right].
    intros ->. apply Hk0. apply (in_map fst) in H. exact H.
  - intros [[= <- <-]|H].
    + right. split; [|now left]. intros ->. now rewrite jeqb_refl in E.
    + destruct Hin as [->|Hin]; [now rewrite jeqb_refl in E|].
      destruct (IH Hnd' Hin H) as [?|[? ?]]; [now left|right]. split; [assumption|now right].
Qed.

Lemma filter_none {A} (p : A -> bool) l :
  (forall x, In x l -> p x = false) -> filter p l = [].
Proof.
  induction l as [|x l IH]; intros H; cbn [filter]; [reflexivity|].
  rewrite (H x (or_introl eq_refl)). apply IH. intros y Hy. apply H. now right.
Qed.

Lemma process_entry_store st entry st' :
  store_ok st -> process_entry st entry = Some st' ->
  store_ok st'
  /\ exists district,
       normalizeDistrictName (RawEntry.District entry) = Some district
       /\ postOffices st' = postOffices st ++ [office_of entry district]
       /\ (forall k, In k (map fst (districts st')) <->
                     In k (map fst (districts st)) \/ k = district).
Proof.
  intros (Hnd & Hd & Hpo). unfold process_entry.
  destruct (normalizeDistrictName (RawEntry.District entry)) as [district|] eqn:En;
    [|discriminate].
  fold (office_of entry district). set (po := office_of entry district).
  intros [= <-]. unfold store_ok. cbn [districts postOffices].
  assert (Hpod : PostOffice.district po = district) by reflexivity.
  destruct (Value.lookup district (districts st)) as [d|] eqn:El.
  - pose proof (lookup_in _ _ _ El) as Hin.
    destruct (Hd _ _ Hin) as (Hname & Hcount & Hoff & Hne).
    assert (Hkey : In district (map fst (districts st)))
      by (apply (in_map fst) in Hin; exact Hin).
    split; [|exists district; split; [reflexivity|split; [reflexivity|]]].
    + split; [|split].
      * now rewrite (set_property_keys _ _ _ _ El).
      * intros k d' Hin'.
        apply (set_property_old _ _ _ _ _ Hnd Hkey) in Hin' as [[-> ->]|[Hk Hin']].
        -- cbn [District.name District.postOfficeCount District.postOffices].
           split; [exact Hname|]. split; [rewrite length_app; simpl; lia|].
           split; [|now destruct (District.postOffices d)].
           rewrite filter_app. cbn [filter]. rewrite Hpod, jeqb_refl. now rewrite Hoff.
        -- destruct (Hd _ _ Hin') as (Hn' & Hc' & Ho' & Hne').
           split; [exact Hn'|]. split; [exact Hc'|]. split; [|exact Hne'].
           rewrite filter_app. cbn [filter]. rewrite Hpod.
           destruct (jeqb district k) eqn:E; [apply jeqb_true in E; congruence|].
           now rewrite app_nil_r.
      * rewrite (set_property_keys _ _ _ _ El). apply Forall_app. split; [exact Hpo|].
        constructor; [|constructor]. now rewrite Hpod.
    + intros k. rewrite (set_property_keys _ _ _ _ El). split; [tauto|].
      intros [H| ->]; assumption.
  - pose proof (lookup_none _ _ El) as Hnew.
    rewrite (set_property_new _ _ _ El).
    split; [|exists district; split; [reflexivity|split; [reflexivity|]]].
    + split; [|split].
      * rewrite map_app. cbn [map fst]. apply NoDup_app; [exact Hnd|repeat constructor; tauto|].
        intros k Hk [<-|[]]. contradiction.
      * intros k d' Hin'. apply in_app_or in Hin' as [Hin'|[[= <- <-]|[]]].
        -- destruct (Hd _ _ Hin') as (Hn' & Hc' & Ho' & Hne').
           split; [exact Hn'|]. split; [exact Hc'|]. split; [|exact Hne'].
           rewrite filter_app. cbn [filter]. rewrite Hpod.
           destruct (jeqb district k) eqn:E.
           ++ apply jeqb_true in E. destruct Hnew. rewrite E.
              apply (in_map fst) in Hin'. exact Hin'.
           ++ now rewrite app_nil_r.
        -- cbn [District.name District.postOfficeCount District.postOffices app length].
           split; [reflexivity|]. split; [reflexivity|]. split; [|discriminate].
           rewrite filter_app. cbn [filter]. rewrite Hpod, jeqb_refl.
           replace (filter _ (postOffices st)) with (@nil PostOffice.t); [reflexivity|].
           symmetry. apply filter_none.
           intros p Hp. rewrite Forall_forall in Hpo.
           destruct (jeqb (PostOffice.district p) district) eqn:E; [|reflexivity].
           apply jeqb_true in E. specialize (Hpo p Hp). rewrite E in Hpo. contradiction.
      * rewrite map_app. apply Forall_app. split.
        -- eapply Forall_impl; [|exact Hpo]. intros p Hp. apply in_or_app. now left.
        -- constructor; [|constructor]. apply in_or_app. right. left. exact Hpod.
    + intros k. rewrite map_app, in_app_iff. cbn [map fst In]. intuition.
Qed.

Lemma process_entries_store l : forall st st',
  store_ok st -> process_entries st l = Some st' ->
  store_ok st'
  /\ exists added,
       postOffices st' = postOffices st ++ added
       /\ Forall2 (fun entry po =>
                     normalizeDistrictName (RawEntry.District entry)
                     = Some (PostOffice.district po)
                     /\ po = office_of entry (PostOffice.district po))
                  l added
       /\ (forall k, In k (map fst (districts st')) <->
                     In k (map fst (districts st))
                     \/ exists entry, In entry l
                                      /\ normalizeDistrictName (RawEntry.District entry)
                                         = Some k).
Proof.
  induction l as [|entry l IH]; intros st st' Hok; cbn [process_entries].
  - intros [= <-]. split; [exact Hok|]. exists []. rewrite app_nil_r.
    split; [reflexivity|]. split; [constructor|].
    intros k. split; [tauto|]. intros [H|(e & [] & _)]. exact H.
  - destruct (process_entry st entry) as [st1|] eqn:E1; [|discriminate].
    intros H. destruct (process_entry_store st entry st1 Hok E1)
      as (Hok1 & district & Hn & Hp1 & Hk1).
    destruct (IH st1 st' Hok1 H) as (Hok' & added & Hp & Hall & Hk).
    split; [exact Hok'|]. exists (office_of entry district :: added).
    split; [rewrite Hp, Hp1, <- app_assoc; reflexivity|]. split.
    + constructor; [|exact Hall]. cbn [office_of PostOffice.district]. now split.
    + intros k. rewrite Hk, Hk1. split.
      * intros [[H0| ->]|(e & He & Hne)]; [now left| |].
        -- right. exists entry. split; [now left|exact Hn].
        -- right. exists e. split; [now right|exact Hne].
      * intros [H0|(e & [<-|He] & Hne)]; [now left; left| |].
        -- left. right. congruence.
        -- right. exists e. tauto.
Qed.

Lemma processData_store raw st :
  processData raw = Some st ->
  store_ok st
  /\ Forall2 (fun entry po =>
                normalizeDistrictName (RawEntry.District entry)
                = Some (PostOffice.district po)
                /\ po = office_of entry (PostOffice.district po))
             raw (postOffices st)
  /\ (forall k, In k (map fst (districts st)) <->
                exists entry, In entry raw
                              /\ normalizeDistrictName (RawEntry.District entry)
                                 = Some k).
Proof.
  intros H. unfold processData in H.
  assert (Hok : store_ok (make [] [])).
  { split; [constructor|]. split; [intros k d []|constructor]. }
  destruct (process_entries_store raw _ st Hok H) as (Hok' & added & Hp & Hall & Hk).
  cbn [postOffices districts app map] in *. subst added.
  split; [exact Hok'|]. split; [exact Hall|].
  intros k. rewrite Hk. split; [intros [[]|H0]; exact H0|now right].
Qed.

Lemma filter_partition_perm {A} (p : A -> bool) l :
  Permutation (filter p l ++ filter (fun x => negb (p x)) l) l.
Proof.
  induction l as [|x l IH]; cbn [filter]; [reflexivity|].
  destruct (p x); cbn [negb app].
  - now constructor.
  - rewrite <- Permutation_middle. now constructor.
Qed.

Lemma own_properties_perm {A} (obj : list (jstring * A)) :
  Permutation (own_properties obj) obj.
Proof.
  unfold own_properties.
  rewrite sort_perm. apply (filter_partition_perm (fun kv => is_array_index (fst kv))).
Qed.

Lemma values_perm st :
  Permutation (getAllDistricts st) (map snd (districts st)).
Proof.
  unfold getAllDistricts, Object_values. apply Permutation_map, own_properties_perm.
Qed.

Lemma store_names st :
  store_ok st -> map District.name (map snd (districts st)) = map fst (districts st).
Proof.
  intros (_ & Hd & _). rewrite map_map.
  apply map_ext_in. intros [k d] Hin. cbn [fst snd]. now apply (Hd k d).
Qed.

Lemma names_perm st :
  store_ok st ->
  Permutation (map District.name (getAllDistricts st)) (map fst (districts st)).
Proof.
  intros Hok. rewrite <- (store_names st Hok). apply Permutation_map, values_perm.
Qed.

Lemma normalizeDistrictName_idem district name :
  normalizeDistrictName district = Some name ->
  normalizeDistrictName name = Some name.
Proof.
  unfold normalizeDistrictName.
  destruct (inherited_property (trim district)) eqn:Ei; [discriminate|].
  destruct (Value.lookup (trim district) corrections) as [fixed|] eqn:El.
  - intros [= <-]. apply lookup_in in El.
    repeat (destruct El as [El|El]; [injection El as _ <-; vm_compute; reflexivity|]).
    destruct El.
  - intros [= <-]. pose proof (trim_trimmed district) as Ht. unfold trimmed in Ht.
    now rewrite Ht, Ei, El.
Qed.

End LoadFacts.

Module LoadExtras.
Import Shape StoreShape ArrayFacts SortFacts TrimFacts StoreFacts LoadFacts NepalGeoData.

(** X9: after [processData], no two districts have the same name; each
    district counts its post offices, has at least one, and holds exactly
    the stored post offices that carry its name, in their order; its name
    has no white space at its ends and is left as it is by
    [normalizeDistrictName]; and every stored post office carries the name
    of a stored district. *)
Theorem processData_districts (raw : list RawEntry.t) (st : NepalGeoData.t) :
  processData raw = Some st ->
  NoDup (map District.name (getAllDistricts st))
  /\ Forall (fun d =>
               District.postOfficeCount d = length (District.postOffices d)
               /\ 1 <= District.postOfficeCount d
               /\ District.postOffices d
                  = filter (fun po => jeqb (PostOffice.district po) (District.name d))
                           (getAllPostOffices st)
               /\ trim (District.name d) = District.name d
               /\ normalizeDistrictName (District.name d) = Some (District.name d))
            (getAllDistricts st)
  /\ Forall (fun po => In (PostOffice.district po)
                          (map District.name (getAllDistricts st)))
            (getAllPostOffices st).
Proof.
  intros H. destruct (processData_store raw st H) as (Hok & Hrows & Hkeys).
  pose proof Hok as (Hnd & Hd & Hpo).
  pose proof (names_perm st Hok) as Hperm.
  split; [|split].
  - apply (Permutation_NoDup (l := map fst (districts st))); [now symmetry|exact Hnd].
  - apply Forall_forall. intros d Hin.
    apply (Permutation_in _ (values_perm st)), in_map_iff in Hin as ([k d'] & <- & Hin).
    cbn [snd]. destruct (Hd k d' Hin) as (Hn & Hc & Ho & Hne).
    split; [exact Hc|]. split; [rewrite Hc; destruct (District.postOffices d');
                                 [contradiction|simpl; lia]|].
    split; [now rewrite Hn|].
    assert (Hk : In k (map fst (districts st)))
      by (apply (in_map fst) in Hin; exact Hin).
    apply Hkeys in Hk as (entry & _ & Hne'). rewrite Hn.
    split; [apply (normalizeDistrictName_trimmed _ _ Hne')|].
    apply (normalizeDistrictName_idem _ _ Hne').
  - unfold getAllPostOffices. eapply Forall_impl; [|exact Hpo].
    intros po Hin. apply (Permutation_in _ (Permutation_sym Hperm)). exact Hin.
Qed.

Lemma processData_districts_witness :
  NoDup (map District.name (getAllDistricts Examples.c4_store)).
Proof.
  apply (processData_districts
           [RawEntry.make (str "Kathmandu") (str "Thamel") (str "44601") (str "A.P.O.")]
           Examples.c4_store).
  vm_compute. reflexivity.
Defined.

End LoadExtras.

(* ================================================================== *)
(** * Counting the loaded records *)
(* ================================================================== *)

Module CountFacts.
Import Shape StoreShape ArrayFacts SortFacts TrimFacts StoreFacts LoadFacts NepalGeoData.

Lemma list_sum_cons x l : list_sum (x :: l) = x + list_sum l.
Proof. reflexivity. Qed.

Lemma one_key_counts (a : jstring) keys :
  NoDup keys -> In a keys ->
  list_sum (map (fun k => if jeqb a k then 1 else 0) keys) = 1.
Proof.
  induction keys as [|k keys IH]; [intros _ []|].
  intros Hnd Hin. inversion Hnd as [|? ? Hk Hnd']; subst. cbn [map].
  rewrite list_sum_cons.
  destruct (jeqb a k) eqn:E.
  - apply jeqb_true in E. subst k.
    assert (Hz : list_sum (map (fun k => if jeqb a k then 1 else 0) keys) = 0);
      [|rewrite Hz; reflexivity].
    clear IH Hin Hnd Hnd'. induction keys as [|k keys IH]; [reflexivity|].
    cbn [map]. rewrite list_sum_cons. destruct (jeqb a k) eqn:E.
    + apply jeqb_true in E. subst k. destruct Hk. now left.
    + apply IH. intros H. apply Hk. now right.
  - destruct Hin as [->|Hin]; [now rewrite jeqb_refl in E|]. now apply IH.
Qed.

Lemma list_sum_add {A} (f g : A -> nat) l :
  list_sum (map (fun x => f x + g x) l) = list_sum (map f l) + list_sum (map g l).
Proof.
  induction l as [|x l IH]; [reflexivity|].
  cbn [map]. rewrite !list_sum_cons. lia.
Qed.

(** Distinct keys split a list: the classes have the whole list's
    length together. *)
Lemma classes_length {A} (key : A -> jstring) keys l :
  NoDup keys -> Forall (fun x => In (key x) keys) l ->
  list_sum (map (fun k => length (filter (fun x => jeqb (key x) k) l)) keys)
  = length l.
Proof.
  intros Hnd. induction 1 as [|x l Hx Hall IH]; cbn [filter length].
  - induction keys as [|k keys IHk]; [reflexivity|]. cbn [map].
    rewrite list_sum_cons. inversion Hnd; subst. now rewrite IHk.
  - transitivity
      (list_sum (map (fun k => (if jeqb (key x) k then 1 else 0)
                               + length (filter (fun y => jeqb (key y) k) l))
                     keys)).
    + f_equal. apply map_ext. intros k. now destruct (jeqb (key x) k).
    + rewrite (list_sum_add (fun k => if jeqb (key x) k then 1 else 0)).
      now rewrite (one_key_counts (key x) keys Hnd Hx), IH.
Qed.

Lemma list_sum_perm l l' : Permutation l l' -> list_sum l = list_sum l'.
Proof. induction 1; rewrite ?list_sum_cons; lia. Qed.

Lemma store_counts st :
  store_ok st ->
  list_sum (map District.postOfficeCount (getAllDistricts st))
  = length (postOffices st).
Proof.
  intros Hok. pose proof Hok as (Hnd & Hd & Hpo).
  rewrite (list_sum_perm _ _ (Permutation_map _ (values_perm st))).
  rewrite <- (classes_length PostOffice.district (map fst (districts st))
                             (postOffices st) Hnd Hpo).
  rewrite !map_map. f_equal. apply map_ext_in. intros [k d] Hin. cbn [fst snd].
  destruct (Hd k d Hin) as (_ & Hc & Ho & _). now rewrite Hc, Ho.
Qed.

Lemma list_sum_ge l : Forall (fun n => 1 <= n) l -> length l <= list_sum l.
Proof. induction 1; rewrite ?list_sum_cons; cbn [length]; lia. Qed.

Lemma lookup_some {A} k (l : list (jstring * A)) :
  In k (map fst l) -> exists v, Value.lookup k l = Some v.
Proof.
  induction l as [|[k' v'] l IH]; cbn [Value.lookup map fst]; [intros []|].
  destruct (jeqb k' k) eqn:E; [eauto|].
  intros [->|H]; [now rewrite jeqb_refl in E|now apply IH].
Qed.

Lemma getDistrictByName_store st :
  store_ok st ->
  (forall name D,
      getDistrictByName st name = Some D ->
      In D (getAllDistricts st)
      /\ toLowerCase (District.name D) = trim (toLowerCase name)
      /\ District.name D <> []
      /\ District.postOffices D
         = filter (fun po => jeqb (PostOffice.district po) (District.name D))
                  (postOffices st))
  /\ (forall name D,
        In D (getAllDistricts st) -> District.name D <> [] ->
        trim (toLowerCase name) = toLowerCase (District.name D) ->
        exists D', getDistrictByName st name = Some D'
                   /\ toLowerCase (District.name D') = toLowerCase (District.name D))
  /\ (forall name,
        (forall D, In D (getAllDistricts st) ->
                   toLowerCase (District.name D) <> trim (toLowerCase name)) ->
        getDistrictByName st name = None).
Proof.
  intros Hok. pose proof Hok as (Hnd & Hd & _).
  assert (Hkey : forall k, In k (Object_keys (districts st)) ->
                 exists d, Value.lookup k (districts st) = Some d
                           /\ District.name d = k /\ In d (getAllDistricts st)
                           /\ District.postOffices d
                              = filter (fun po => jeqb (PostOffice.district po) k)
                                       (postOffices st)).
  { intros k Hk. unfold Object_keys in Hk.
    apply in_map_iff in Hk as ([k' d'] & <- & Hin). cbn [fst].
    apply own_properties_in in Hin.
    destruct (lookup_some k' (districts st)) as [d Hl].
    { apply (in_map fst) in Hin. exact Hin. }
    exists d. split; [exact Hl|]. apply lookup_in in Hl.
    split; [now apply (Hd k' d)|]. split; [|now apply (Hd k' d)].
    apply (Permutation_in _ (Permutation_sym (values_perm st))).
    apply (in_map snd) in Hl. exact Hl. }
  assert (Hall : forall D, In D (getAllDistricts st) ->
                 In (District.name D) (Object_keys (districts st))).
  { intros D HD. unfold getAllDistricts, Object_values, Object_keys in *.
    apply in_map_iff in HD as ([k d] & <- & Hin). cbn [snd].
    pose proof (own_properties_in _ _ Hin) as Hin'.
    destruct (Hd k d Hin') as (-> & _). apply (in_map fst) in Hin. exact Hin. }
  split; [|split].
  - intros name D. unfold getDistrictByName. cbv zeta.
    destruct (find _ (Object_keys (districts st))) as [k|] eqn:Ef; [|discriminate].
    apply find_some in Ef as [Hk Hm]. apply jeqb_true in Hm.
    destruct (jeqb k []) eqn:Ek; [discriminate|].
    destruct (Hkey k Hk) as (d & Hl & Hn & Hin & Ho). rewrite Hl. intros [= <-].
    split; [exact Hin|]. split; [now rewrite Hn|].
    split; [|now rewrite Hn].
    rewrite Hn. intros ->. discriminate.
  - intros name D HD Hne Hm. unfold getDistrictByName. cbv zeta.
    destruct (find_exists
                (fun key => jeqb (toLowerCase key) (trim (toLowerCase name)))
                (Object_keys (districts st)) (District.name D) (Hall D HD))
      as [k Hf].
    { rewrite Hm. apply jeqb_refl. }
    rewrite Hf. apply find_some in Hf as [Hk Hkm]. apply jeqb_true in Hkm.
    destruct (jeqb k []) eqn:Ek.
    { apply jeqb_true in Ek. subst k. rewrite Hm in Hkm.
      destruct (District.name D); [contradiction|discriminate]. }
    destruct (Hkey k Hk) as (d & Hl & Hn & Hin & _). rewrite Hl.
    exists d. split; [reflexivity|]. now rewrite Hn, Hkm.
  - intros name Hnone. unfold getDistrictByName. cbv zeta.
    destruct (find _ (Object_keys (districts st))) as [k|] eqn:Ef; [|reflexivity].
    apply find_some in Ef as [Hk Hm]. apply jeqb_true in Hm.
    destruct (Hkey k Hk) as (d & Hl & Hn & Hin & _).
    destruct (Hnone d Hin). now rewrite Hn.
Qed.

End CountFacts.

Module StoreExtras.
Import Shape StoreShape ArrayFacts SortFacts TrimFacts StoreFacts LoadFacts CountFacts.
Import NepalGeoData.

(** X10: [processData] stores one post office for each row, in order, with
    the row's post office name, postal code and type and with the
    normalized name of the row's district; and the stored districts are
    exactly the normalized district names of the rows. *)
Theorem processData_rows (raw : list RawEntry.t) (st : NepalGeoData.t) :
  processData raw = Some st ->
  Forall2 (fun entry po =>
             PostOffice.name po = RawEntry.Post_Office entry
             /\ PostOffice.postalCode po = RawEntry.Postal_Pin_Code entry
             /\ PostOffice.type po = RawEntry.Post_Office_Type entry
             /\ normalizeDistrictName (RawEntry.District entry)
                = Some (PostOffice.district po))
          raw (getAllPostOffices st)
  /\ (forall name,
        In name (map District.name (getAllDistricts st))
        <-> exists entry, In entry raw
                          /\ normalizeDistrictName (RawEntry.District entry)
                             = Some name).
Proof.
  intros H. destruct (processData_store raw st H) as (Hok & Hrows & Hkeys).
  split.
  - unfold getAllPostOffices. eapply Forall2_impl; [|exact Hrows].
    intros entry po [Hn ->]. cbn [office_of PostOffice.name PostOffice.postalCode
      PostOffice.type PostOffice.district] in *. tauto.
  - intros name. rewrite <- Hkeys. pose proof (names_perm st Hok) as Hperm.
    split; intros Hin.
    + exact (Permutation_in _ Hperm Hin).
    + exact (Permutation_in _ (Permutation_sym Hperm) Hin).
Qed.

Lemma processData_rows_witness :
  Forall2 (fun entry po =>
             PostOffice.name po = RawEntry.Post_Office entry
             /\ PostOffice.postalCode po = RawEntry.Postal_Pin_Code entry
             /\ PostOffice.type po = RawEntry.Post_Office_Type entry
             /\ normalizeDistrictName (RawEntry.District entry)
                = Some (PostOffice.district po))
          [RawEntry.make (str "Kathmandu") (str "Thamel") (str "44601") (str "A.P.O.")]
          (getAllPostOffices Examples.c4_store).
Proof.
  apply (processData_rows
           [RawEntry.make (str "Kathmandu") (str "Thamel") (str "44601") (str "A.P.O.")]
           Examples.c4_store).
  vm_compute. reflexivity.
Defined.

(** X11: on a loaded dataset, [getStatistics] counts one post office for
    each row; the number of districts is the number of stored districts
    and never exceeds the number of post offices; the post office counts
    of the districts add up to the number of post offices; and a dataset
    with a row has a district. *)
Theorem getStatistics_totals (raw : list RawEntry.t) (st : NepalGeoData.t) :
  processData raw = Some st ->
  totalPostOffices (getStatistics st) = length raw
  /\ totalDistricts (getStatistics st) = length (getAllDistricts st)
  /\ totalDistricts (getStatistics st) <= totalPostOffices (getStatistics st)
  /\ list_sum (map District.postOfficeCount (getAllDistricts st))
     = totalPostOffices (getStatistics st)
  /\ (raw <> [] -> 1 <= totalDistricts (getStatistics st)).
Proof.
  intros H. destruct (processData_store raw st H) as (Hok & Hrows & Hkeys).
  pose proof Hok as (Hnd & Hd & Hpo).
  cbn [getStatistics totalPostOffices totalDistricts].
  assert (Hlen : length (postOffices st) = length raw)
    by (symmetry; apply (Forall2_length Hrows)).
  assert (Hk : length (Object_keys (districts st)) = length (getAllDistricts st)).
  { unfold Object_keys, getAllDistricts, Object_values. now rewrite !length_map. }
  pose proof (store_counts st Hok) as Hsum.
  assert (Hge : length (getAllDistricts st)
                <= list_sum (map District.postOfficeCount (getAllDistricts st))).
  { rewrite <- (length_map District.postOfficeCount). apply list_sum_ge.
    apply Forall_forall. intros n Hn. apply in_map_iff in Hn as (d & <- & Hin).
    apply (Permutation_in _ (values_perm st)), in_map_iff in Hin as ([k d'] & <- & Hin).
    cbn [snd]. destruct (Hd k d' Hin) as (_ & Hc & _ & Hne). rewrite Hc.
    destruct (District.postOffices d'); [contradiction|simpl; lia]. }
  split; [exact Hlen|]. split; [exact Hk|]. split; [lia|]. split; [exact Hsum|].
  intros Hraw. rewrite Hk.
  destruct raw as [|entry raw]; [contradiction|].
  assert (Hin : exists name, In name (map fst (districts st))).
  { inversion Hrows as [|? po ? ? [Hn _] _]; subst.
    exists (PostOffice.district po). apply Hkeys. exists entry. split; [now left|exact Hn]. }
  destruct Hin as (name & Hin).
  apply (Permutation_in _ (Permutation_sym (names_perm st Hok))) in Hin.
  rewrite <- (length_map District.name).
  destruct (map District.name (getAllDistricts st)); [destruct Hin|simpl; lia].
Qed.

Lemma getStatistics_totals_witness :
  totalPostOffices (getStatistics Examples.c4_store) = 1
  /\ totalDistricts (getStatistics Examples.c4_store) = 1.
Proof.
  destruct (getStatistics_totals
              [RawEntry.make (str "Kathmandu") (str "Thamel") (str "44601") (str "A.P.O.")]
              Examples.c4_store) as (H1 & H2 & _).
  - vm_compute. reflexivity.
  - split; [exact H1|rewrite H2; reflexivity].
Defined.

(** X12: on a loaded dataset, [getDistrictByName] answers a district only
    when it is stored, has a name that is not empty and equals the trimmed
    argument, case ignored; it answers one for every argument that a
    stored district with a name matches so; and it answers [null] when no
    stored name matches. *)
Theorem getDistrictByName_loaded (raw : list RawEntry.t) (st : NepalGeoData.t) :
  processData raw = Some st ->
  (forall name D,
      getDistrictByName st name = Some D ->
      In D (getAllDistricts st)
      /\ toLowerCase (District.name D) = trim (toLowerCase name)
      /\ District.name D <> [])
  /\ (forall name D,
        In D (getAllDistricts st) -> District.name D <> [] ->
        trim (toLowerCase name) = toLowerCase (District.name D) ->
        exists D', getDistrictByName st name = Some D'
                   /\ toLowerCase (District.name D') = toLowerCase (District.name D))
  /\ (forall name,
        (forall D, In D (getAllDistricts st) ->
                   toLowerCase (District.name D) <> trim (toLowerCase name)) ->
        getDistrictByName st name = None).
Proof.
  intros H. destruct (processData_store raw st H) as (Hok & _ & _).
  destruct (getDistrictByName_store st Hok) as (H1 & H2 & H3).
  split; [|split; [exact H2|exact H3]].
  intros name D HD. destruct (H1 name D HD) as (Ha & Hb & Hc & _). tauto.
Qed.

Lemma getDistrictByName_loaded_witness :
  exists D', getDistrictByName Examples.c4_store (str " KATHMANDU ") = Some D'
             /\ toLowerCase (District.name D') = toLowerCase (str "Kathmandu").
Proof.
  destruct (getDistrictByName_loaded
              [RawEntry.make (str "Kathmandu") (str "Thamel") (str "44601") (str "A.P.O.")]
              Examples.c4_store) as (_ & H & _).
  - vm_compute. reflexivity.
  - apply (H (str " KATHMANDU ")
             (District.make (str "Kathmandu") 1
                [PostOffice.make (str "Thamel") (str "44601") (str "A.P.O.")
                                 (str "Kathmandu")])).
    + vm_compute. now left.
    + discriminate.
    + vm_compute. reflexivity.
Defined.

End StoreExtras.

(* ================================================================== *)
(** * Postal code and district validation *)
(* ================================================================== *)

Module ValidatorFacts.
Import ArrayFacts SortFacts SuggestionFacts NepalGeoData LocationValidator.

Lemma five_digits_nonempty code :
  is_five_digits (trim code) = true -> jeqb code [] = false.
Proof. destruct code; [discriminate|reflexivity]. Qed.

Lemma findSimilarDistricts_names st input :
  length (findSimilarDistricts st input) <= 3
  /\ Forall (fun s => In s (map District.name (getAllDistricts st)))
            (findSimilarDistricts st input).
Proof.
  unfold findSimilarDistricts, slice0. cbv zeta. split.
  - rewrite length_map. apply firstn_le_length.
  - apply Forall_forall. intros s Hs. apply in_map_iff in Hs as ([n x] & <- & Hin).
    assert (Hin' : In (n, x) (sort by_similarity
              (filter (fun item => Float64.gtb (snd item) Float64.lit_0_3)
                 (map (fun district =>
                         (District.name district,
                          calculateSimilarity (toLowerCase input)
                            (toLowerCase (District.name district))))
                      (getAllDistricts st))))).
    { rewrite <- (firstn_skipn 3). apply in_or_app. now left. }
    apply sort_in, filter_In in Hin' as [Hin' _].
    apply in_map_iff in Hin' as (d & [= <- _] & Hd). cbn [fst]. now apply in_map.
Qed.




End ValidatorFacts.

Module ValidatorExtras.
Import ArrayFacts SortFacts SuggestionFacts ValidatorFacts NepalGeoData LocationValidator.

(** X13: [LocationValidator.validatePostalCode] decides [isValid] by the
    format alone: it is true for every string that is five digits once
    trimmed, whether or not a post office has the code, and false for
    everything else; [error] is [null] exactly when the string has the
    format and a stored post office has the trimmed code, and [postalInfo]
    is then that office. *)
Theorem validatePostalCode_format_only (st : NepalGeoData.t) (postalCode : value) :
  (p_isValid (validatePostalCode st postalCode) = true
   <-> exists pc, postalCode = VStr pc /\ is_five_digits (trim pc) = true)
  /\ (p_error (validatePostalCode st postalCode) = None
      <-> exists pc po,
            postalCode = VStr pc /\ is_five_digits (trim pc) = true
            /\ getPostOfficeByCode st (trim pc) = Some po
            /\ p_postalInfo (validatePostalCode st postalCode) = Some po).
Proof.
  destruct postalCode as [| |b|n|pc|items|fields];
    cbn [validatePostalCode p_isValid p_error];
    try (split; (split; [discriminate|]);
         [intros (c & E & _)|intros (c & po & E & _)]; discriminate E).
  destruct (jeqb pc []) eqn:Ec.
  { apply jeqb_true in Ec. subst pc. split; (split; [discriminate|]).
    - intros (c & [= <-] & H). discriminate.
    - intros (c & po & [= <-] & H & _). discriminate. }
  destruct (is_five_digits (trim pc)) eqn:E5; cbn [negb].
  - cbn [p_isValid p_error p_postalInfo]. split.
    + split; [|reflexivity]. intros _. now exists pc.
    + destruct (getPostOfficeByCode st (trim pc)) as [po|] eqn:Eg.
      * split; [|reflexivity]. intros _. exists pc, po. tauto.
      * split; [discriminate|]. intros (c & po & [= <-] & _ & H & _). congruence.
  - cbn [p_isValid p_error]. split; (split; [discriminate|]).
    + intros (c & [= <-] & H). congruence.
    + intros (c & po & [= <-] & H & _). congruence.
Qed.

(** X14: [validateDistrict] reports a district valid exactly when the
    argument is a string, not empty, for which [getDistrictByName] finds a
    district, which it then returns without suggestions; an invalid result
    has an error message; and the suggestions are at most three names of
    stored districts. *)
Theorem validateDistrict_found_or_suggestions (st : NepalGeoData.t)
        (district : value) :
  (d_isValid (validateDistrict st district) = true
   <-> exists name D,
         district = VStr name /\ name <> []
         /\ getDistrictByName st name = Some D
         /\ d_district (validateDistrict st district) = Some D
         /\ d_suggestions (validateDistrict st district) = []
         /\ d_error (validateDistrict st district) = None)
  /\ (d_isValid (validateDistrict st district) = false ->
      d_error (validateDistrict st district) <> None
      /\ d_district (validateDistrict st district) = None)
  /\ length (d_suggestions (validateDistrict st district)) <= 3
  /\ Forall (fun s => In s (map District.name (getAllDistricts st)))
            (d_suggestions (validateDistrict st district)).
Proof.
  assert (Hbad : forall r,
             r = mkDistrictValidation false
                   (Some (lit "District name is required and must be a string"))
                   None [] ->
             (forall name, district = VStr name -> name = []) ->
             (d_isValid r = true
              <-> exists name D,
                    district = VStr name /\ name <> []
                    /\ getDistrictByName st name = Some D
                    /\ d_district r = Some D /\ d_suggestions r = []
                    /\ d_error r = None)
             /\ (d_isValid r = false -> d_error r <> None /\ d_district r = None)
             /\ length (d_suggestions r) <= 3
             /\ Forall (fun s => In s (map District.name (getAllDistricts st)))
                       (d_suggestions r)).
  { intros r -> Hn. cbn [d_isValid d_error d_district d_suggestions length].
    split; [|split; [|split]].
    - split; [discriminate|]. intros (name & D & E & Hne & _). now apply Hn in E.
    - intros _. split; [discriminate|reflexivity].
    - lia.
    - constructor. }
  destruct district as [| |b|n|name|items|fields];
    try (apply Hbad; [reflexivity|discriminate]).
  cbn [validateDistrict]. destruct (jeqb name []) eqn:En.
  { apply Hbad; [reflexivity|]. intros ? [= <-]. now apply jeqb_true. }
  clear Hbad.
  assert (Hne : name <> []) by (intros ->; discriminate).
  destruct (getDistrictByName st name) as [D|] eqn:Eg;
    cbn [d_isValid d_error d_district d_suggestions length].
  - split; [|split; [|split]].
    + split; [|reflexivity]. intros _. exists name, D. tauto.
    + discriminate.
    + lia.
    + constructor.
  - destruct (findSimilarDistricts_names st name) as [Hl Hf].
    split; [|split; [|split]].
    + split; [discriminate|]. intros (n & D & [= <-] & _ & H & _). congruence.
    + intros _. split; [discriminate|reflexivity].
    + exact Hl.
    + exact Hf.
Qed.

End ValidatorExtras.

(* ================================================================== *)
(** * Post office validation *)
(* ================================================================== *)

Module OfficeFacts.
Import ArrayFacts SortFacts SuggestionFacts ValidatorFacts NepalGeoData LocationValidator.




End OfficeFacts.

Module OfficeExtras.
Import ArrayFacts SortFacts SuggestionFacts ValidatorFacts OfficeFacts.
Import NepalGeoData LocationValidator.


End OfficeExtras.

(* ================================================================== *)
(** * Completeness and recommendations *)
(* ================================================================== *)

Module AddressExtras.
Import ArrayFacts NepalGeoData LocationValidator.
Local Open Scope Z_scope.



End AddressExtras.

(* ================================================================== *)
(** * Address validation *)
(* ================================================================== *)

Module AddressFacts.
Import ArrayFacts ValidatorFacts OfficeFacts NepalGeoData LocationValidator.

Lemma bind_returns {A B} (o : outcome A) (k : A -> outcome B) b :
  bind o k = Returns b -> exists a, o = Returns a /\ k a = Returns b.
Proof. destruct o as [a|e]; cbn [bind]; [eauto|discriminate]. Qed.

Lemma bind_throws {A B} (o : outcome A) (k : A -> outcome B) e :
  bind o k = Throws e -> o = Throws e \/ exists a, o = Returns a /\ k a = Throws e.
Proof. destruct o as [a|e']; cbn [bind]; [eauto|intros [= <-]; now left]. Qed.










Lemma batch_from_spec st addresses : forall index results,
  batch_from st index addresses = Returns results ->
  map (fun x => fst (fst x)) results = seq index (length addresses)
  /\ map (fun x => snd (fst x)) results = addresses
  /\ Forall2 (fun address x => validateAddress st address = Returns (snd x))
             addresses results.
Proof.
  induction addresses as [|address rest IH]; intros index results;
    cbn [batch_from].
  - intros [= <-]. repeat split. constructor.
  - intros H. apply bind_returns in H as (validation & Ev & H).
    apply bind_returns in H as (results' & Er & H). injection H as <-.
    destruct (IH _ _ Er) as (H1 & H2 & H3).
    cbn [map fst snd length seq]. rewrite H1, H2.
    split; [reflexivity|]. split; [reflexivity|]. now constructor.
Qed.

Lemma batch_from_throws st addresses : forall index e,
  batch_from st index addresses = Throws e <->
  exists before address after,
    addresses = before ++ address :: after
    /\ validateAddress st address = Throws e
    /\ Forall (fun a => exists r, validateAddress st a = Returns r) before.
Proof.
  induction addresses as [|address rest IH]; intros index e; cbn [batch_from].
  - split; [discriminate|]. intros (before & a & after & E & _).
    destruct before; discriminate.
  - split.
    + intros H. apply bind_throws in H as [H|(validation & Ev & H)].
      * exists [], address, rest. split; [reflexivity|]. split; [exact H|constructor].
      * apply bind_throws in H as [H|(results & _ & H)]; [|discriminate].
        apply IH in H as (before & a & after & -> & Ha & Hb).
        exists (address :: before), a, after. split; [reflexivity|].
        split; [exact Ha|]. constructor; [eauto|exact Hb].
    + intros (before & a & after & E & Ha & Hb).
      destruct before as [|b before]; cbn [app] in E.
      * injection E as <- <-. now rewrite Ha.
      * injection E as <- E. inversion Hb as [|? ? [r Hr] Hb']; subst.
        rewrite Hr. cbn [bind].
        assert (Hx : batch_from st (S index) (before ++ a :: after) = Throws e)
          by (apply IH; exists before, a, after; tauto).
        now rewrite Hx.
Qed.

End AddressFacts.

Module AddressOutcomeExtras.
Import ArrayFacts ValidatorFacts OfficeFacts AddressFacts NepalGeoData LocationValidator.


(** X19: for an array, [batchValidate] returns one entry for each address,
    in order: the entry at index [i] has [index = i], the address itself
    and the result of [validateAddress] for it.  It throws exactly when
    [validateAddress] throws for one of the addresses, with the error of
    the first that does. *)
Theorem batchValidate_in_order (st : NepalGeoData.t) (items : list value) :
  (forall results,
      batchValidate st (VArr items) = Returns results ->
      map (fun x => fst (fst x)) results = seq 0 (length items)
      /\ map (fun x => snd (fst x)) results = items
      /\ Forall2 (fun address x => validateAddress st address = Returns (snd x))
                 items results)
  /\ (forall e,
        batchValidate st (VArr items) = Throws e <->
        exists before address after,
          items = before ++ address :: after
          /\ validateAddress st address = Throws e
          /\ Forall (fun a => exists r, validateAddress st a = Returns r) before).
Proof.
  split.
  - intros results. apply batch_from_spec.
  - intros e. apply batch_from_throws.
Qed.

End AddressOutcomeExtras.

(* ================================================================== *)
(** * The edit distance as a metric *)
(* ================================================================== *)

Module MetricFacts.
Import EditDistance LevFacts.

(** One more character on one side changes the distance by at most 1. *)
Lemma lev_step n : forall x a b,
  length a + length b <= n ->
  lev (x :: a) b <= lev a b + 1 /\ lev a b <= lev (x :: a) b + 1.
Proof.
  induction n as [|n IH]; intros x a b Hn.
  - destruct a, b; simpl in Hn; try lia. simpl. lia.
  - destruct b as [|y b].
    + rewrite !lev_nil_r. simpl. lia.
    + assert (Hl : lev a b <= lev a (y :: b) + 1).
      { rewrite (lev_sym a b), (lev_sym a (y :: b)).
        apply (IH y b a). simpl in Hn. lia. }
      assert (Hr : lev a (y :: b) <= lev a b + 1).
      { rewrite (lev_sym a b), (lev_sym a (y :: b)).
        apply (IH y b a). simpl in Hn. lia. }
      assert (Hb : lev a b <= lev (x :: a) b + 1)
        by (apply (IH x a b); simpl in Hn; lia).
      rewrite lev_cons. destruct (ascii_eqb x y); lia.
Qed.

Lemma lev_cons_le x a y b :
  lev (x :: a) (y :: b) <= lev a b + 1
  /\ lev (x :: a) (y :: b) <= lev (x :: a) b + 1
  /\ lev (x :: a) (y :: b) <= lev a (y :: b) + 1.
Proof.
  rewrite lev_cons.
  pose proof (lev_step (length a + length b) x a b (le_n _)) as [H1 H2].
  pose proof (lev_step (length b + length a) y b a (le_n _)) as [H3 H4].
  rewrite (lev_sym (y :: b) a), (lev_sym b a) in H3, H4.
  destruct (ascii_eqb x y); lia.
Qed.

Lemma lev_triangle n : forall a b c,
  length a + length b + length c <= n -> lev a c <= lev a b + lev b c.
Proof.
  induction n as [|n IH]; intros a b c Hn.
  - destruct a, b, c; simpl in *; lia.
  - destruct a as [|x a].
    + pose proof (lev_bounds b c).
      change (lev [] c) with (length c). change (lev [] b) with (length b). lia.
    + destruct c as [|z c].
      * pose proof (lev_bounds (x :: a) b). rewrite !lev_nil_r.
        simpl length in *. lia.
      * destruct b as [|y b].
        -- pose proof (lev_bounds (x :: a) (z :: c)). rewrite lev_nil_r.
           change (lev [] (z :: c)) with (length (z :: c)).
           simpl length in *. lia.
        -- simpl length in Hn.
           pose proof (lev_cons_le x a z c) as (U1 & U2 & U3).
           pose proof (IH a (y :: b) (z :: c) ltac:(simpl; lia)) as T1.
           pose proof (IH (x :: a) (y :: b) c ltac:(simpl; lia)) as T2.
           pose proof (IH (x :: a) b (z :: c) ltac:(simpl; lia)) as T3.
           pose proof (IH (x :: a) b c ltac:(simpl; lia)) as T4.
           pose proof (IH a b (z :: c) ltac:(simpl; lia)) as T5.
           pose proof (IH a b c ltac:(simpl; lia)) as T6.
           pose proof (lev_cons x a y b) as E1.
           pose proof (lev_cons y b z c) as E2.
           destruct (ascii_eqb x y) eqn:Exy, (ascii_eqb y z) eqn:Eyz; try lia.
           apply ascii_eqb_true in Exy, Eyz. subst y z.
           rewrite E1, E2, lev_cons, ascii_eqb_refl. exact T6.
Qed.

End MetricFacts.

Module MetricExtras.
Import EditDistance LevFacts MetricFacts NepalGeoData.

(** X20: [levenshteinDistance] is a metric on strings: it is symmetric, it
    is zero exactly for equal strings, and it obeys the triangle
    inequality; and it lies between the difference of the two lengths and
    the greater of them. *)
Theorem levenshteinDistance_metric (a b c : jstring) :
  levenshteinDistance a b = levenshteinDistance b a
  /\ (levenshteinDistance a b = 0 <-> a = b)
  /\ levenshteinDistance a c <= levenshteinDistance a b + levenshteinDistance b c
  /\ length a - length b <= levenshteinDistance a b
  /\ length b - length a <= levenshteinDistance a b
  /\ levenshteinDistance a b <= Nat.max (length a) (length b).
Proof.
  split; [apply ScoreFacts.levenshteinDistance_sym|].
  split; [apply ScoreFacts.levenshteinDistance_zero|].
  rewrite !MatrixFacts.levenshteinDistance_lev.
  pose proof (lev_bounds (rev b) (rev a)) as Hb. rewrite !length_rev in Hb.
  pose proof (lev_triangle _ (rev c) (rev b) (rev a) (le_n _)) as Ht.
  lia.
Qed.

End MetricExtras.

(* ================================================================== *)
(** * The tiers of the relevance score *)
(* ================================================================== *)

Module TierFacts.
Import Float64 NepalGeoData Rules ScoreFacts.
Local Open Scope Z_scope.

(** The values of [calculateFuzzyScore]. *)
Lemma calculateFuzzyScore_values text query :
  calculateFuzzyScore text query = 0
  \/ 30 <= calculateFuzzyScore text query <= 50
  \/ calculateFuzzyScore text query = 70
  \/ calculateFuzzyScore text query = 75.
Proof.
  rewrite calculateFuzzyScore_unfold.
  destruct (abbreviation_rule text query); [tauto|].
  destruct (acronym_rule text query); [tauto|].
  destruct (gtb (similarity text query) lit_0_6) eqn:E; [|tauto].
  unfold similarity in *. pose proof (edit_score_range _ _ E). tauto.
Qed.

End TierFacts.

Module TierExtras.
Import Float64 NepalGeoData Rules ScoreFacts TierFacts.
Local Open Scope Z_scope.

(** X21: for a query of one or two space-separated tokens, the three top
    scores of [calculateRelevance] tell the three kinds of match apart:
    the score is 100 exactly when text and query are equal, case ignored;
    80 exactly when they are not equal and the text starts with the query;
    and 60 exactly when the text contains the query without starting with
    it. *)
Theorem calculateRelevance_tiers (text query : jstring) :
  (length (tokens query) <= 2)%nat ->
  (calculateRelevance text query = 100
   <-> toLowerCase text = toLowerCase query)
  /\ (calculateRelevance text query = 80
      <-> toLowerCase text <> toLowerCase query
          /\ startsWith (toLowerCase text) (toLowerCase query) = true)
  /\ (calculateRelevance text query = 60
      <-> startsWith (toLowerCase text) (toLowerCase query) = false
          /\ includes (toLowerCase text) (toLowerCase query) = true).
Proof.
  intros Htok. rewrite calculateRelevance_unfold. cbv zeta.
  assert (Hpre : toLowerCase text = toLowerCase query ->
                 startsWith (toLowerCase text) (toLowerCase query) = true).
  { intros ->. generalize (toLowerCase query). intros s.
    induction s as [|c s IH]; [reflexivity|].
    cbn [startsWith]. unfold ascii_eqb. now rewrite Ascii.eqb_refl. }
  destruct (jeqb (toLowerCase text) (toLowerCase query)) eqn:Ej.
  - apply jeqb_true in Ej. specialize (Hpre Ej). rewrite Hpre.
    split; [tauto|]. split; split; try discriminate; intros [H _]; congruence.
  - assert (Hne : toLowerCase text <> toLowerCase query).
    { intros E. rewrite E, jeqb_refl in Ej. discriminate. }
    destruct (startsWith (toLowerCase text) (toLowerCase query)) eqn:Es.
    + split; [split; [discriminate|tauto]|].
      split; [tauto|]. split; [discriminate|intros [H _]; discriminate].
    + destruct (includes (toLowerCase text) (toLowerCase query)) eqn:Ei.
      * split; [split; [discriminate|tauto]|].
        split; [split; [discriminate|intros [_ H]; discriminate]|tauto].
      * pose proof (calculateFuzzyScore_values (toLowerCase text) (toLowerCase query))
          as Hf.
        pose proof (token_score_range (toLowerCase text) (tokens query) 0) as Ht.
        destruct (Z.ltb_spec 0 (calculateFuzzyScore (toLowerCase text)
                                                    (toLowerCase query))).
        -- split; [split; [lia|tauto]|].
           split; split; try lia; intros [_ H]; discriminate.
        -- split; [split; [lia|tauto]|].
           split; split; try lia; intros [_ H]; discriminate.
Qed.

Lemma calculateRelevance_tiers_witness :
  calculateRelevance (str "Kathmandu") (str "kath") = 80
  <-> toLowerCase (str "Kathmandu") <> toLowerCase (str "kath")
      /\ startsWith (toLowerCase (str "Kathmandu")) (toLowerCase (str "kath")) = true.
Proof.
  apply (calculateRelevance_tiers (str "Kathmandu") (str "kath")).
  vm_compute. lia.
Defined.

End TierExtras.

(* ================================================================== *)
(** * Rankings and names of districts *)
(* ================================================================== *)

Module OrderFacts.
Import ArrayFacts SortFacts.
Local Open Scope Z_scope.

Lemma compare_code_units_range a : forall b,
  compare_code_units a b = -1 \/ compare_code_units a b = 0
  \/ compare_code_units a b = 1.
Proof.
  induction a as [|x a IH]; intros [|y b]; cbn [compare_code_units]; try tauto.
  destruct (code x <? code y)%nat; [tauto|].
  destruct (code y <? code x)%nat; [tauto|apply IH].
Qed.

Lemma compare_code_units_antisym a : forall b,
  compare_code_units b a = - compare_code_units a b.
Proof.
  induction a as [|x a IH]; intros [|y b]; cbn [compare_code_units];
    try reflexivity.
  destruct (Nat.ltb_spec (code x) (code y)), (Nat.ltb_spec (code y) (code x));
    try reflexivity; try lia. apply IH.
Qed.

Lemma compare_code_units_trans a : forall b c,
  compare_code_units a b <= 0 -> compare_code_units b c <= 0 ->
  compare_code_units a c <= 0.
Proof.
  induction a as [|x a IH]; intros [|y b] [|z c]; cbn [compare_code_units];
    try lia.
  destruct (Nat.ltb_spec (code x) (code y)), (Nat.ltb_spec (code y) (code z)),
    (Nat.ltb_spec (code x) (code z)), (Nat.ltb_spec (code y) (code x)),
    (Nat.ltb_spec (code z) (code y)), (Nat.ltb_spec (code z) (code x));
    try lia.
  apply IH.
Qed.

Lemma compare_code_units_total a b :
  0 < compare_code_units a b -> compare_code_units b a <= 0.
Proof. rewrite (compare_code_units_antisym a b). lia. Qed.

Lemma sorted_app_le {A} (R : A -> A -> Prop) l1 l2 x y :
  StronglySorted R (l1 ++ l2) -> In x l1 -> In y l2 -> R x y.
Proof.
  induction l1 as [|a l1 IH]; [intros _ []|].
  cbn [app]. intros H [->|Hx] Hy; inversion H as [|? ? Hs Hall]; subst.
  - rewrite Forall_forall in Hall. apply Hall, in_or_app. now right.
  - now apply IH.
Qed.

(** The first [limit] elements of a sorted array: nothing left out comes
    before something kept. *)
Lemma top_of_sorted {A} (cmp : A -> A -> Z) (all : list A) limit :
  (forall x y z, cmp x y <= 0 -> cmp y z <= 0 -> cmp x z <= 0) ->
  (forall x y, 0 < cmp x y -> cmp y x <= 0) ->
  length (slice0 (sort cmp all) limit) = Nat.min limit (length all)
  /\ StronglySorted (fun a b => cmp a b <= 0) (slice0 (sort cmp all) limit)
  /\ (forall x, In x (slice0 (sort cmp all) limit) -> In x all)
  /\ (forall x y, In x (slice0 (sort cmp all) limit) -> In y all ->
                  ~ In y (slice0 (sort cmp all) limit) -> cmp x y <= 0).
Proof.
  intros Ht Ho. unfold slice0.
  pose proof (sort_sorted cmp Ht Ho all) as Hs.
  split; [now rewrite length_firstn, sort_length|].
  split; [now apply firstn_sorted|]. split.
  - intros x Hx. apply (sort_in cmp all).
    rewrite <- (firstn_skipn limit). apply in_or_app. now left.
  - intros x y Hx Hy Hn.
    apply (sort_in cmp all) in Hy. rewrite <- (firstn_skipn limit) in Hy, Hs.
    apply in_app_or in Hy as [Hy|Hy]; [contradiction|].
    exact (sorted_app_le _ _ _ x y Hs Hx Hy).
Qed.

End OrderFacts.

Module DistrictExtras.
Import Shape StoreShape ArrayFacts SortFacts OrderFacts LoadFacts CountFacts.
Import NepalGeoData.
Local Open Scope Z_scope.

(** X22: [getDistrictsWithMostPostOffices] returns [limit] stored districts
    (all of them when there are fewer) in order of post office count,
    greatest first, and no district that it leaves out has more post
    offices than one that it returns; [getDistrictsWithLeastPostOffices]
    does the same with the smallest counts first. *)
Theorem getDistricts_by_count (st : NepalGeoData.t) (limit : nat) :
  (length (DistrictUtils.getDistrictsWithMostPostOffices st limit)
   = Nat.min limit (length (getAllDistricts st))
   /\ StronglySorted
        (fun a b => (District.postOfficeCount b <= District.postOfficeCount a)%nat)
        (DistrictUtils.getDistrictsWithMostPostOffices st limit)
   /\ (forall d, In d (DistrictUtils.getDistrictsWithMostPostOffices st limit) ->
                 In d (getAllDistricts st))
   /\ (forall d d',
         In d (DistrictUtils.getDistrictsWithMostPostOffices st limit) ->
         In d' (getAllDistricts st) ->
         ~ In d' (DistrictUtils.getDistrictsWithMostPostOffices st limit) ->
         (District.postOfficeCount d' <= District.postOfficeCount d)%nat))
  /\ (length (DistrictUtils.getDistrictsWithLeastPostOffices st limit)
      = Nat.min limit (length (getAllDistricts st))
      /\ StronglySorted
           (fun a b => (District.postOfficeCount a <= District.postOfficeCount b)%nat)
           (DistrictUtils.getDistrictsWithLeastPostOffices st limit)
      /\ (forall d, In d (DistrictUtils.getDistrictsWithLeastPostOffices st limit) ->
                    In d (getAllDistricts st))
      /\ (forall d d',
            In d (DistrictUtils.getDistrictsWithLeastPostOffices st limit) ->
            In d' (getAllDistricts st) ->
            ~ In d' (DistrictUtils.getDistrictsWithLeastPostOffices st limit) ->
            (District.postOfficeCount d <= District.postOfficeCount d')%nat)).
Proof.
  unfold DistrictUtils.getDistrictsWithMostPostOffices,
    DistrictUtils.getDistrictsWithLeastPostOffices, DistrictUtils.getAllDistricts.
  split.
  - destruct (top_of_sorted DistrictUtils.by_count_desc (getAllDistricts st) limit)
      as (H1 & H2 & H3 & H4).
    { unfold DistrictUtils.by_count_desc. lia. }
    { unfold DistrictUtils.by_count_desc. lia. }
    split; [exact H1|]. split; [|split; [exact H3|]].
    + eapply sorted_weaken; [|exact H2].
      intros a b. unfold DistrictUtils.by_count_desc. lia.
    + intros d d' Hd Hd' Hn. specialize (H4 d d' Hd Hd' Hn).
      unfold DistrictUtils.by_count_desc in H4. lia.
  - destruct (top_of_sorted DistrictUtils.by_count_asc (getAllDistricts st) limit)
      as (H1 & H2 & H3 & H4).
    { unfold DistrictUtils.by_count_asc. lia. }
    { unfold DistrictUtils.by_count_asc. lia. }
    split; [exact H1|]. split; [|split; [exact H3|]].
    + eapply sorted_weaken; [|exact H2].
      intros a b. unfold DistrictUtils.by_count_asc. lia.
    + intros d d' Hd Hd' Hn. specialize (H4 d d' Hd Hd' Hn).
      unfold DistrictUtils.by_count_asc in H4. lia.
Qed.

(** X23: [getDistrictNames] returns the names of the stored districts, each
    as often as it is stored, in the order of their code units (a capital
    letter before every small one, a proper prefix before its
    extensions). *)
Theorem getDistrictNames_sorted (st : NepalGeoData.t) :
  Permutation (DistrictUtils.getDistrictNames st)
              (map District.name (getAllDistricts st))
  /\ StronglySorted (fun a b => compare_code_units a b <= 0)
                    (DistrictUtils.getDistrictNames st).
Proof.
  unfold DistrictUtils.getDistrictNames, DistrictUtils.getAllDistricts. split.
  - apply sort_perm.
  - apply sort_sorted.
    + intros x y z. apply compare_code_units_trans.
    + apply compare_code_units_total.
Qed.

(** X24: on a loaded dataset, [exists] is true exactly for a string that,
    lower-cased and trimmed, is the lower-cased name of a stored district
    with a name; it is false for every value that is not a string. *)
Theorem exists_on_loaded (raw : list RawEntry.t) (st : NepalGeoData.t)
        (name : value) :
  processData raw = Some st ->
  DistrictUtils.exists_ st name = true
  <-> exists s D,
        name = VStr s /\ In D (getAllDistricts st) /\ District.name D <> []
        /\ toLowerCase (District.name D) = trim (toLowerCase s).
Proof.
  intros H. destruct (processData_store raw st H) as (Hok & _ & _).
  destruct (getDistrictByName_store st Hok) as (H1 & H2 & H3).
  unfold DistrictUtils.exists_, DistrictUtils.getDistrictByName.
  destruct name as [| |b|n|s|items|fields];
    try (split; [discriminate|intros (s' & D & E & _); discriminate E]).
  destruct (jeqb s []) eqn:Es.
  - apply jeqb_true in Es. subst s. split; [discriminate|].
    intros (s' & D & [= <-] & _ & Hne & Hm). cbn in Hm.
    destruct (District.name D); [contradiction|discriminate].
  - destruct (getDistrictByName st s) as [D|] eqn:Eg.
    + split; [|reflexivity]. intros _. destruct (H1 s D Eg) as (Ha & Hb & Hc & _).
      exists s, D. tauto.
    + split; [discriminate|]. intros (s' & D & [= <-] & HD & Hne & Hm).
      destruct (H2 s D HD Hne (eq_sym Hm)) as (D' & HD' & _). congruence.
Qed.

Lemma exists_on_loaded_witness :
  DistrictUtils.exists_ Examples.c4_store (VStr (str " kathMANDU")) = true
  <-> exists s D,
        VStr (str " kathMANDU") = VStr s
        /\ In D (getAllDistricts Examples.c4_store) /\ District.name D <> []
        /\ toLowerCase (District.name D) = trim (toLowerCase s).
Proof.
  apply (exists_on_loaded
           [RawEntry.make (str "Kathmandu") (str "Thamel") (str "44601") (str "A.P.O.")]
           Examples.c4_store (VStr (str " kathMANDU"))).
  vm_compute. reflexivity.
Defined.

End DistrictExtras.

(* ================================================================== *)
(** * Postal lookups *)
(* ================================================================== *)

Module PostalFacts.
Import Shape StoreShape ArrayFacts TrimFacts LoadFacts CountFacts NepalGeoData.

Lemma find_none {A} (p : A -> bool) l :
  find p l = None <-> forall x, In x l -> p x = false.
Proof.
  induction l as [|y l IH]; cbn [find].
  - split; [intros _ x []|reflexivity].
  - destruct (p y) eqn:E.
    + split; [discriminate|]. intros H. rewrite (H y (or_introl eq_refl)) in E.
      discriminate.
    + rewrite IH. split.
      * intros H x [<-|Hx]; [exact E|now apply H].
      * intros H x Hx. apply H. now right.
Qed.

Lemma getPostOfficeByCode_some st code po :
  getPostOfficeByCode st code = Some po ->
  In po (getAllPostOffices st) /\ PostOffice.postalCode po = code.
Proof.
  unfold getPostOfficeByCode. intros H. apply find_some in H as [Hin Hc].
  split; [exact Hin|now apply jeqb_true].
Qed.

Lemma getPostOfficeByCode_none st code :
  getPostOfficeByCode st code = None <->
  forall po, In po (getAllPostOffices st) -> PostOffice.postalCode po <> code.
Proof.
  unfold getPostOfficeByCode, getAllPostOffices. rewrite find_none. split.
  - intros H po Hpo E. specialize (H po Hpo). rewrite E, jeqb_refl in H. discriminate.
  - intros H po Hpo. apply jeqb_false. now apply H.
Qed.

Lemma NoDup_map_inj {A B} (f : A -> B) l x y :
  NoDup (map f l) -> In x l -> In y l -> f x = f y -> x = y.
Proof.
  induction l as [|a l IH]; [intros _ []|].
  cbn [map]. intros Hnd Hx Hy E. inversion Hnd as [|? ? Ha Hnd']; subst.
  destruct Hx as [->|Hx], Hy as [->|Hy].
  - reflexivity.
  - destruct Ha. rewrite E. now apply in_map.
  - destruct Ha. rewrite <- E. now apply in_map.
  - now apply IH.
Qed.

Lemma Forall2_in_l {A B} (R : A -> B -> Prop) l l' x :
  Forall2 R l l' -> In x l -> exists y, In y l' /\ R x y.
Proof.
  induction 1 as [|a b l l' Hab _ IH]; [intros []|].
  intros [->|Hx].
  - exists b. split; [now left|exact Hab].
  - destruct (IH Hx) as (y & Hy & Hr). exists y. split; [now right|exact Hr].
Qed.

End PostalFacts.

Module PostalExtras.
Import Shape StoreShape ArrayFacts TrimFacts LoadFacts CountFacts PostalFacts.
Import NepalGeoData.

(** X25: [PostalUtils.validatePostalCode] reports a code valid exactly when
    it is a string that is five digits once trimmed and a stored post
    office has the trimmed code; [error] is [null] exactly for a valid
    code, and exactly when the [error] of
    [LocationValidator.validatePostalCode] is [null]; and a code valid
    here is valid there. *)
Theorem PostalUtils_validatePostalCode_exists (st : NepalGeoData.t) (code : value) :
  (PostalUtils.isValid (PostalUtils.validatePostalCode st code) = true
   <-> exists s po,
         code = VStr s /\ is_five_digits (trim s) = true
         /\ In po (getAllPostOffices st)
         /\ PostOffice.postalCode po = trim s)
  /\ (PostalUtils.isValid (PostalUtils.validatePostalCode st code) = true
      <-> PostalUtils.error (PostalUtils.validatePostalCode st code) = None)
  /\ (PostalUtils.error (PostalUtils.validatePostalCode st code) = None
      <-> LocationValidator.p_error
            (LocationValidator.validatePostalCode st code) = None)
  /\ (PostalUtils.isValid (PostalUtils.validatePostalCode st code) = true ->
      LocationValidator.p_isValid
        (LocationValidator.validatePostalCode st code) = true)
  /\ PostalUtils.isValidPostalCode st code
     = PostalUtils.isValid (PostalUtils.validatePostalCode st code).
Proof.
  unfold PostalUtils.isValidPostalCode.
  destruct code as [| |b|n|s|items|fields];
    cbn [PostalUtils.validatePostalCode LocationValidator.validatePostalCode
         PostalUtils.isValid PostalUtils.error
         LocationValidator.p_error LocationValidator.p_isValid];
    try (split; [split; [discriminate|intros (s' & po & E & _); discriminate E]|];
         split; [split; discriminate|];
         split; [split; discriminate|]; split; [discriminate|reflexivity]).
  destruct (jeqb s []) eqn:Es.
  { cbn [PostalUtils.isValid PostalUtils.error
         LocationValidator.p_error LocationValidator.p_isValid].
    apply jeqb_true in Es. subst s.
    split; [split; [discriminate|intros (s' & po & [= <-] & H & _); discriminate H]|].
    split; [split; discriminate|].
    split; [split; discriminate|]. split; [discriminate|reflexivity]. }
  destruct (is_five_digits (trim s)) eqn:E5; cbn [negb].
  - unfold PostalUtils.getPostalInfo.
    assert (Et : jeqb (trim s) [] = false) by (destruct (trim s); [discriminate|reflexivity]).
    rewrite Et. pose proof (trim_trimmed s) as Htt. unfold trimmed in Htt. rewrite Htt.
    destruct (getPostOfficeByCode st (trim s)) as [po|] eqn:Eg;
      cbn [PostalUtils.isValid PostalUtils.error
           LocationValidator.p_error LocationValidator.p_isValid].
    + apply getPostOfficeByCode_some in Eg as [Hin Hc].
      split; [split; [intros _; exists s, po; tauto|reflexivity]|].
      split; [tauto|]. split; [tauto|]. split; reflexivity.
    + split.
      * split; [discriminate|]. intros (s' & po & [= <-] & _ & Hin & Hc).
        rewrite getPostOfficeByCode_none in Eg. destruct (Eg po Hin Hc).
      * split; [split; discriminate|]. split; [split; discriminate|].
        split; [discriminate|reflexivity].
  - cbn [PostalUtils.isValid PostalUtils.error
         LocationValidator.p_error LocationValidator.p_isValid].
    split; [split; [discriminate|intros (s' & po & [= <-] & H & _); congruence]|].
    split; [split; discriminate|].
    split; [split; discriminate|]. split; [discriminate|reflexivity].
Qed.

(** X26: on a dataset loaded from rows with distinct postal codes,
    [getPostalInfo] gives back the row of a postal code that has no white
    space at its ends and is not empty: the post office name and type of
    the row, the normalized name of its district, and [isMainOffice] set
    exactly for the types D.P.O. and G.P.O. *)
Theorem getPostalInfo_round_trip (raw : list RawEntry.t) (st : NepalGeoData.t)
        (entry : RawEntry.t) :
  processData raw = Some st ->
  NoDup (map RawEntry.Postal_Pin_Code raw) ->
  In entry raw ->
  trim (RawEntry.Postal_Pin_Code entry) = RawEntry.Postal_Pin_Code entry ->
  RawEntry.Postal_Pin_Code entry <> [] ->
  exists info,
    PostalUtils.getPostalInfo st (VStr (RawEntry.Postal_Pin_Code entry)) = Some info
    /\ PostalUtils.postalCode info = RawEntry.Postal_Pin_Code entry
    /\ PostalUtils.postOffice info = RawEntry.Post_Office entry
    /\ PostalUtils.type info = RawEntry.Post_Office_Type entry
    /\ normalizeDistrictName (RawEntry.District entry)
       = Some (PostalUtils.district info)
    /\ (PostalUtils.isMainOffice info = true
        <-> RawEntry.Post_Office_Type entry = str "D.P.O."
            \/ RawEntry.Post_Office_Type entry = str "G.P.O.").
Proof.
  intros H Hnd Hin Htrim Hne.
  destruct (processData_store raw st H) as (_ & Hrows & _).
  assert (Hcodes : map PostOffice.postalCode (postOffices st)
                   = map RawEntry.Postal_Pin_Code raw).
  { clear -Hrows. induction Hrows as [|e po l l' [_ ->] _ IH]; [reflexivity|].
    cbn [map office_of PostOffice.postalCode]. now rewrite IH. }
  destruct (Forall2_in_l _ _ _ entry Hrows Hin) as (po & Hpo & Hn & Epo).
  unfold PostalUtils.getPostalInfo.
  destruct (jeqb (RawEntry.Postal_Pin_Code entry) []) eqn:Ee.
  { apply jeqb_true in Ee. contradiction. }
  rewrite Htrim.
  destruct (getPostOfficeByCode st (RawEntry.Postal_Pin_Code entry)) as [po'|] eqn:Eg.
  - apply getPostOfficeByCode_some in Eg as [Hin' Hc'].
    assert (po' = po).
    { apply (NoDup_map_inj PostOffice.postalCode (postOffices st)).
      - now rewrite Hcodes.
      - exact Hin'.
      - exact Hpo.
      - rewrite Hc', Epo. reflexivity. }
    subst po'. eexists. split; [reflexivity|].
    cbn [PostalUtils.postalCode PostalUtils.postOffice PostalUtils.type
         PostalUtils.district PostalUtils.isMainOffice].
    rewrite Epo. cbn [office_of PostOffice.postalCode PostOffice.name PostOffice.type
                      PostOffice.district].
    split; [reflexivity|]. split; [reflexivity|]. split; [reflexivity|].
    split; [exact Hn|].
    unfold GeoSearch.is_main_office. cbn [PostOffice.type].
    rewrite orb_true_iff, !jeqb_true. reflexivity.
  - rewrite getPostOfficeByCode_none in Eg. destruct (Eg po Hpo).
    rewrite Epo. reflexivity.
Qed.

Lemma getPostalInfo_round_trip_witness :
  exists info,
    PostalUtils.getPostalInfo Examples.c4_store (VStr (str "44601")) = Some info
    /\ PostalUtils.postOffice info = str "Thamel".
Proof.
  destruct (getPostalInfo_round_trip
              [RawEntry.make (str "Kathmandu") (str "Thamel") (str "44601") (str "A.P.O.")]
              Examples.c4_store
              (RawEntry.make (str "Kathmandu") (str "Thamel") (str "44601") (str "A.P.O.")))
    as (info & H1 & _ & H2 & _).
  - vm_compute. reflexivity.
  - repeat constructor. intros [].
  - now left.
  - vm_compute. reflexivity.
  - discriminate.
  - exists info. split; [exact H1|exact H2].
Defined.

(** X27: on a loaded dataset, [getPostOfficesByDistrict] returns the stored
    post offices, in order, that carry the name of the district that
    [getDistrictByName] finds for the argument; each of them has a
    district equal to the trimmed argument, case ignored; and the result
    is empty exactly when [exists] is false for the argument. *)
Theorem getPostOfficesByDistrict_loaded (raw : list RawEntry.t)
        (st : NepalGeoData.t) (name : value) :
  processData raw = Some st ->
  (forall s D,
      name = VStr s -> DistrictUtils.getDistrictByName st name = Some D ->
      PostalUtils.getPostOfficesByDistrict st name
      = filter (fun po => jeqb (PostOffice.district po) (District.name D))
               (getAllPostOffices st)
      /\ Forall (fun po => toLowerCase (PostOffice.district po)
                           = trim (toLowerCase s))
                (PostalUtils.getPostOfficesByDistrict st name))
  /\ (PostalUtils.getPostOfficesByDistrict st name = []
      <-> DistrictUtils.exists_ st name = false).
Proof.
  intros H. destruct (processData_store raw st H) as (Hok & _ & _).
  destruct (getDistrictByName_store st Hok) as (H1 & _ & _).
  pose proof Hok as (_ & Hd & _).
  unfold PostalUtils.getPostOfficesByDistrict, DistrictUtils.exists_,
    DistrictUtils.getDistrictByName.
  destruct name as [| |b|n|s|items|fields];
    try (split; [intros s D E; discriminate E|split; reflexivity]).
  destruct (jeqb s []); [split; [intros s' D _ E; discriminate E|split; reflexivity]|].
  destruct (getDistrictByName st s) as [D|] eqn:Eg.
  - destruct (H1 s D Eg) as (Hin & Hlow & Hne & Hoff). split.
    + intros s' D' [= <-] [= <-]. split; [exact Hoff|].
      rewrite Hoff. apply Forall_forall. intros po Hpo.
      apply filter_In in Hpo as [_ Hpo]. apply jeqb_true in Hpo. now rewrite Hpo.
    + split; [|discriminate]. intros E.
      apply (Permutation_in _ (values_perm st)), in_map_iff in Hin
        as ([k d] & <- & Hkd).
      cbn [snd] in *. destruct (Hd k d Hkd) as (_ & _ & _ & Hnonempty).
      contradiction.
  - split; [intros s' D' _ E; discriminate E|split; reflexivity].
Qed.

Lemma getPostOfficesByDistrict_loaded_witness :
  PostalUtils.getPostOfficesByDistrict Examples.c4_store (VStr (str "kathmandu")) = []
  <-> DistrictUtils.exists_ Examples.c4_store (VStr (str "kathmandu")) = false.
Proof.
  apply (getPostOfficesByDistrict_loaded
           [RawEntry.make (str "Kathmandu") (str "Thamel") (str "44601") (str "A.P.O.")]
           Examples.c4_store (VStr (str "kathmandu"))).
  vm_compute. reflexivity.
Defined.

End PostalExtras.

(* ================================================================== *)
(** * CSV export and parsing *)
(* ================================================================== *)

Module CsvFacts.
Import Shape ArrayFacts TrimFacts NepalGeoData.

Lemma code_is n c : (n < 256)%nat -> (code c =? n) = true <-> c = ascii_of_nat n.
Proof.
  intros Hn. unfold code. rewrite Nat.eqb_eq. split.
  - intros <-. now rewrite ascii_nat_embedding.
  - intros ->. now apply nat_ascii_embedding.
Qed.

Lemma is_quote c : (code c =? 34) = true <-> c = PostalUtils.quote.
Proof. apply code_is. lia. Qed.

Lemma trimStart_in c s : In c (trimStart s) -> In c s.
Proof.
  destruct (trimStart_suffix s) as [p E]. intros H. rewrite E.
  apply in_or_app. now right.
Qed.

Lemma trim_in c s : In c (trim s) -> In c s.
Proof.
  unfold trim. intros H. apply in_rev, trimStart_in in H.
  apply in_rev in H. now apply trimStart_in.
Qed.

Lemma trim_idem s : trim (trim s) = trim s.
Proof. apply trim_trimmed. Qed.

Lemma split_on_cons sep s : exists w ws, split_on sep s = w :: ws.
Proof.
  induction s as [|c s (w & ws & IH)]; cbn [split_on]; [eauto|].
  destruct (sep c); [eauto|]. rewrite IH. eauto.
Qed.

(** What the loop of [parseCSVLine] keeps true: the fields pushed are
    trimmed, and neither they nor the field being read hold a double
    quote. *)
Lemma csv_fold_clean line : forall fields current inQuotes,
  Forall (fun f => trim f = f /\ ~ In PostalUtils.quote f) fields ->
  ~ In PostalUtils.quote current ->
  match fold_left csv_step line (fields, current, inQuotes) with
  | (fields', current', _) =>
      Forall (fun f => trim f = f /\ ~ In PostalUtils.quote f) fields'
      /\ ~ In PostalUtils.quote current'
  end.
Proof.
  induction line as [|c line IH]; intros fields current inQuotes Hf Hc;
    cbn [fold_left]; [tauto|].
  unfold csv_step at 2.
  destruct (code c =? 34) eqn:Eq; [now apply IH|].
  assert (Hcq : c <> PostalUtils.quote).
  { intros E. apply is_quote in E. congruence. }
  destruct ((code c =? 44) && negb inQuotes).
  - apply IH; [|intros []].
    apply Forall_app. split; [exact Hf|]. constructor; [|constructor].
    split; [apply trim_idem|]. intros H. apply trim_in in H. contradiction.
  - apply IH; [exact Hf|]. intros H. apply in_app_or in H as [H|[H|[]]];
      [contradiction|congruence].
Qed.

(** Outside quotes and without quotes, the loop splits at the commas. *)
Lemma csv_fold_unquoted line : forall fields current,
  ~ In PostalUtils.quote line ->
  (let '(fields', current', _) :=
     fold_left csv_step line (fields, current, false) in
   fields' ++ [trim current'])
  = fields
    ++ map trim
         (match split_on (fun c => code c =? 44) line with
          | w :: ws => (current ++ w) :: ws
          | [] => [current]
          end).
Proof.
  induction line as [|c line IH]; intros fields current Hq; cbn [fold_left].
  - cbn [split_on map]. now rewrite app_nil_r.
  - assert (Hc : (code c =? 34) = false).
    { destruct (code c =? 34) eqn:E; [|reflexivity].
      apply is_quote in E. destruct Hq. now left. }
    assert (Hq' : ~ In PostalUtils.quote line) by (intros H; apply Hq; now right).
    unfold csv_step at 2. rewrite Hc. cbn [split_on negb].
    destruct (code c =? 44) eqn:E; cbn [andb].
    + rewrite (IH _ _ Hq').
      destruct (split_on_cons (fun c0 => code c0 =? 44) line) as (w & ws & ->).
      rewrite <- app_assoc. cbn [app map]. now rewrite app_nil_r.
    + rewrite (IH _ _ Hq').
      destruct (split_on_cons (fun c0 => code c0 =? 44) line) as (w & ws & ->).
      cbn [map]. now rewrite <- app_assoc.
Qed.

(** Between two quotes every character but a quote is kept, commas
    too. *)
Lemma csv_fold_quoted f : forall rest fields current,
  ~ In PostalUtils.quote f ->
  fold_left csv_step (f ++ PostalUtils.quote :: rest) (fields, current, true)
  = fold_left csv_step rest (fields, current ++ f, false).
Proof.
  induction f as [|c f IH]; intros rest fields current Hq; cbn [app fold_left].
  - unfold csv_step at 2. change (code PostalUtils.quote =? 34) with true.
    cbn [negb]. now rewrite app_nil_r.
  - assert (Hc : (code c =? 34) = false).
    { destruct (code c =? 34) eqn:E; [|reflexivity].
      apply is_quote in E. destruct Hq. now left. }
    unfold csv_step at 2. rewrite Hc. cbn [negb]. rewrite andb_false_r.
    rewrite IH by (intros H; apply Hq; now right).
    now rewrite <- app_assoc.
Qed.

Lemma csv_row_parse po :
  ~ In PostalUtils.quote (PostOffice.name po) ->
  ~ In PostalUtils.quote (PostOffice.postalCode po) ->
  ~ In PostalUtils.quote (PostOffice.district po) ->
  ~ In PostalUtils.quote (PostOffice.type po) ->
  parseCSVLine (PostalUtils.csv_row po)
  = [trim (PostOffice.name po); trim (PostOffice.postalCode po);
     trim (PostOffice.district po); trim (PostOffice.type po)].
Proof.
  intros H1 H2 H3 H4. unfold parseCSVLine, PostalUtils.csv_row.
  assert (Hstep : forall f rest fields,
             ~ In PostalUtils.quote f ->
             fold_left csv_step (PostalUtils.quote :: f ++ PostalUtils.quote :: rest)
                       (fields, [], false)
             = fold_left csv_step rest (fields, f, false)).
  { intros f rest fields Hf. cbn [fold_left]. unfold csv_step at 2.
    change (code PostalUtils.quote =? 34) with true. cbn [negb].
    now rewrite (csv_fold_quoted f rest fields [] Hf). }
  assert (Hcomma : forall rest fields current,
             fold_left csv_step ("," %char :: rest) (fields, current, false)
             = fold_left csv_step rest (fields ++ [trim current], [], false))
    by reflexivity.
  change (str ",") with ["," %char]. cbn [app].
  rewrite (Hstep _ _ _ H1), Hcomma, (Hstep _ _ _ H2), Hcomma,
    (Hstep _ _ _ H3), Hcomma, (Hstep _ _ _ H4).
  reflexivity.
Qed.

(** A text that ends with a line feed after a character that is not
    white space, and starts with one that is not: [trim] takes the line
    feed away. *)
Lemma trim_line_feed c body d :
  is_space c = false -> is_space d = false ->
  trim ((c :: body ++ [d]) ++ [PostalUtils.line_feed]) = c :: body ++ [d].
Proof.
  intros Hc Hd. set (s := c :: body ++ [d]).
  assert (E1 : trimStart (s ++ [PostalUtils.line_feed]) = s ++ [PostalUtils.line_feed])
    by (unfold s; cbn [app trimStart]; now rewrite Hc).
  assert (E2 : rev (s ++ [PostalUtils.line_feed]) = PostalUtils.line_feed :: rev s)
    by (rewrite rev_app_distr; reflexivity).
  assert (E3 : exists t, rev s = d :: t).
  { unfold s. cbn [rev]. rewrite rev_app_distr. cbn [rev app]. eauto. }
  destruct E3 as [t E3].
  unfold trim. rewrite E1, E2. cbn [trimStart].
  change (is_space PostalUtils.line_feed) with true. cbv iota.
  rewrite E3. cbn [trimStart]. rewrite Hd, <- E3. apply rev_involutive.
Qed.

Lemma split_line w : forall rest,
  ~ In PostalUtils.line_feed w ->
  split_on (fun c => code c =? 10) (w ++ PostalUtils.line_feed :: rest)
  = w :: split_on (fun c => code c =? 10) rest.
Proof.
  induction w as [|c w IH]; intros rest Hw; cbn [app split_on].
  - change (code PostalUtils.line_feed =? 10) with true. reflexivity.
  - assert (Hc : (code c =? 10) = false).
    { destruct (code c =? 10) eqn:E; [|reflexivity].
      apply (code_is 10) in E; [|lia]. destruct Hw. now left. }
    rewrite Hc, IH by (intros H; apply Hw; now right). reflexivity.
Qed.

Lemma split_no_line w :
  ~ In PostalUtils.line_feed w -> split_on (fun c => code c =? 10) w = [w].
Proof.
  induction w as [|c w IH]; intros Hw; cbn [split_on]; [reflexivity|].
  assert (Hc : (code c =? 10) = false).
  { destruct (code c =? 10) eqn:E; [|reflexivity].
    apply (code_is 10) in E; [|lia]. destruct Hw. now left. }
  rewrite Hc, IH by (intros H; apply Hw; now right). reflexivity.
Qed.

Lemma split_lines {A} (row : A -> jstring) l : forall p,
  ~ In PostalUtils.line_feed p ->
  Forall (fun x => ~ In PostalUtils.line_feed (row x)) l ->
  split_on (fun c => code c =? 10)
           (p ++ concat (map (fun x => PostalUtils.line_feed :: row x) l))
  = p :: map row l.
Proof.
  induction l as [|x l IH]; intros p Hp Hl; cbn [map concat].
  - rewrite app_nil_r. now apply split_no_line.
  - inversion Hl as [|? ? Hx Hl']; subst. cbn [app].
    rewrite (split_line p _ Hp). f_equal. now apply IH.
Qed.

Lemma rows_then_feed {A} (row : A -> jstring) l : forall p,
  p ++ [PostalUtils.line_feed]
    ++ concat (map (fun x => row x ++ [PostalUtils.line_feed]) l)
  = (p ++ concat (map (fun x => PostalUtils.line_feed :: row x) l))
      ++ [PostalUtils.line_feed].
Proof.
  induction l as [|x l IH]; intros p; cbn [map concat].
  - now rewrite !app_nil_r.
  - specialize (IH (p ++ PostalUtils.line_feed :: row x)).
    repeat rewrite <- app_assoc in *. cbn [app] in *.
    repeat rewrite <- app_assoc in *. cbn [app] in *. exact IH.
Qed.

Lemma csv_row_clean po :
  ~ In PostalUtils.line_feed (PostOffice.name po) ->
  ~ In PostalUtils.line_feed (PostOffice.postalCode po) ->
  ~ In PostalUtils.line_feed (PostOffice.district po) ->
  ~ In PostalUtils.line_feed (PostOffice.type po) ->
  ~ In PostalUtils.line_feed (PostalUtils.csv_row po).
Proof.
  intros H1 H2 H3 H4. unfold PostalUtils.csv_row. change (str ",") with ["," %char].
  rewrite !in_app_iff. cbn [In].
  intros H. decompose [or] H; try contradiction; discriminate.
Qed.

Lemma csv_row_last po :
  exists r, PostalUtils.csv_row po = r ++ [PostalUtils.quote].
Proof.
  unfold PostalUtils.csv_row. eexists. repeat rewrite app_assoc. reflexivity.
Qed.

(** The exported text without its last line feed: it starts with the
    [P] of the header and ends with the [e] of the header or with the
    quote that closes the last row. *)
Lemma export_body_ends l :
  exists body d,
    str "Post Office,Postal Code,District,Type"
    ++ concat (map (fun po => PostalUtils.line_feed :: PostalUtils.csv_row po) l)
    = "P" %char :: body ++ [d]
    /\ is_space d = false.
Proof.
  destruct l as [|x0 l0] eqn:El.
  - exists (str "ost Office,Postal Code,District,Typ"), "e" %char.
    split; reflexivity.
  - destruct (@exists_last _ l) as (l' & x & E); [now rewrite El|]. rewrite <- El, E.
    rewrite map_app, concat_app. cbn [map concat]. rewrite app_nil_r.
    destruct (csv_row_last x) as [r ->].
    exists (str "ost Office,Postal Code,District,Type"
            ++ concat (map (fun po => PostalUtils.line_feed :: PostalUtils.csv_row po) l')
            ++ PostalUtils.line_feed :: r), PostalUtils.quote.
    split; [|reflexivity].
    change (str "Post Office,Postal Code,District,Type")
      with ("P" %char :: str "ost Office,Postal Code,District,Type").
    cbn [app]. f_equal. repeat rewrite <- app_assoc. cbn [app]. reflexivity.
Qed.

Lemma parse_rows l : forall data,
  Forall (fun po => ~ In PostalUtils.quote (PostOffice.name po)
                    /\ ~ In PostalUtils.quote (PostOffice.postalCode po)
                    /\ ~ In PostalUtils.quote (PostOffice.district po)
                    /\ ~ In PostalUtils.quote (PostOffice.type po)) l ->
  fold_left
    (fun data line =>
       match parseCSVLine line with
       | f0 :: f1 :: f2 :: f3 :: _ => data ++ [RawEntry.make f0 f1 f2 f3]
       | _ => data
       end)
    (map PostalUtils.csv_row l) data
  = data ++ map (fun po => RawEntry.make (trim (PostOffice.name po))
                             (trim (PostOffice.postalCode po))
                             (trim (PostOffice.district po))
                             (trim (PostOffice.type po))) l.
Proof.
  induction l as [|po l IH]; intros data Hl; cbn [map fold_left].
  - now rewrite app_nil_r.
  - inversion Hl as [|? ? (H1 & H2 & H3 & H4) Hl']; subst.
    rewrite (csv_row_parse po H1 H2 H3 H4), IH by exact Hl'.
    now rewrite <- app_assoc.
Qed.

End CsvFacts.

Module CsvExtras.
Import Shape ArrayFacts TrimFacts CsvFacts NepalGeoData.

(** X28: [parseCSVLine] always returns a field; its fields have no white
    space at their ends and no double quote; a line without double quotes
    is split at its commas and each piece trimmed; and a row that
    [PostalUtils.exportData] writes for a post office whose four fields
    have no double quote reads back as those four fields, trimmed. *)
Theorem parseCSVLine_fields (line : jstring) :
  parseCSVLine line <> []
  /\ Forall (fun f => trim f = f /\ ~ In PostalUtils.quote f) (parseCSVLine line)
  /\ (~ In PostalUtils.quote line ->
      parseCSVLine line = map trim (split_on (fun c => code c =? 44) line))
  /\ (forall po,
        ~ In PostalUtils.quote (PostOffice.name po) ->
        ~ In PostalUtils.quote (PostOffice.postalCode po) ->
        ~ In PostalUtils.quote (PostOffice.district po) ->
        ~ In PostalUtils.quote (PostOffice.type po) ->
        parseCSVLine (PostalUtils.csv_row po)
        = [trim (PostOffice.name po); trim (PostOffice.postalCode po);
           trim (PostOffice.district po); trim (PostOffice.type po)]).
Proof.
  split; [|split; [|split]].
  - unfold parseCSVLine.
    destruct (fold_left csv_step line ([], [], false)) as [[fields current] q].
    now destruct fields.
  - unfold parseCSVLine.
    pose proof (csv_fold_clean line [] [] false (Forall_nil _) (fun H => H)) as Hc.
    destruct (fold_left csv_step line ([], [], false)) as [[fields current] q].
    destruct Hc as [Hf Hc]. apply Forall_app. split; [exact Hf|].
    constructor; [|constructor]. split; [apply trim_idem|].
    intros H. apply trim_in in H. contradiction.
  - intros Hq. unfold parseCSVLine.
    etransitivity; [exact (csv_fold_unquoted line [] [] Hq)|].
    now destruct (split_on_cons (fun c => code c =? 44) line) as (w & ws & ->).
  - apply csv_row_parse.
Qed.

(** X29: the CSV text that [PostalUtils.exportData] writes without filters
    is read back by [parseCSV] as one record for each stored post office,
    in order; the record holds the trimmed name, postal code, district
    and type of the post office in its fields [District], [Post Office],
    [Postal/Pin Code] and [Post Office Type], since the export writes its
    columns in another order than [parseCSV] reads them; this for post
    offices whose fields have no double quote and no line feed. *)
Theorem parseCSV_reads_export
        (JSON_stringify : list PostOffice.t -> jstring)
        (st : NepalGeoData.t) (format : jstring) :
  toLowerCase format = str "csv" ->
  Forall (fun po =>
            Forall (fun field => ~ In PostalUtils.quote field
                                 /\ ~ In PostalUtils.line_feed field)
                   [PostOffice.name po; PostOffice.postalCode po;
                    PostOffice.district po; PostOffice.type po])
         (getAllPostOffices st) ->
  exists text,
    PostalUtils.exportData JSON_stringify st format VUndefined VUndefined
    = Returns text
    /\ parseCSV text
       = map (fun po => RawEntry.make (trim (PostOffice.name po))
                          (trim (PostOffice.postalCode po))
                          (trim (PostOffice.district po))
                          (trim (PostOffice.type po)))
             (getAllPostOffices st).
Proof.
  intros Hf Hclean. unfold PostalUtils.exportData.
  cbn [Value.truthy bind]. rewrite Hf.
  change (jeqb (str "csv") (str "json")) with false.
  change (jeqb (str "csv") (str "csv")) with true. cbv iota.
  eexists. split; [reflexivity|].
  set (l := getAllPostOffices st) in *.
  unfold parseCSV.
  rewrite (rows_then_feed PostalUtils.csv_row l).
  destruct (export_body_ends l) as (body & d & Eb & Hd).
  rewrite Eb, (trim_line_feed "P" %char body d eq_refl Hd), <- Eb.
  rewrite (split_lines PostalUtils.csv_row l).
  - cbn [skipn]. apply (parse_rows l []).
    eapply Forall_impl; [|exact Hclean]. intros po Hpo.
    inversion Hpo as [|? ? [H1 _] Hpo1]; subst.
    inversion Hpo1 as [|? ? [H2 _] Hpo2]; subst.
    inversion Hpo2 as [|? ? [H3 _] Hpo3]; subst.
    inversion Hpo3 as [|? ? [H4 _] _]; subst. tauto.
  - intros H. cbn in H. decompose [or] H; try discriminate; contradiction.
  - eapply Forall_impl; [|exact Hclean]. intros po Hpo.
    inversion Hpo as [|? ? [_ H1] Hpo1]; subst.
    inversion Hpo1 as [|? ? [_ H2] Hpo2]; subst.
    inversion Hpo2 as [|? ? [_ H3] Hpo3]; subst.
    inversion Hpo3 as [|? ? [_ H4] _]; subst.
    now apply csv_row_clean.
Qed.

Lemma parseCSV_reads_export_witness :
  exists text,
    PostalUtils.exportData (fun _ => []) Examples.c4_store (str "CSV")
                           VUndefined VUndefined
    = Returns text
    /\ parseCSV text
       = [RawEntry.make (str "Thamel") (str "44601") (str "Kathmandu") (str "A.P.O.")].
Proof.
  destruct (parseCSV_reads_export (fun _ => []) Examples.c4_store (str "CSV"))
    as (text & E & Hp).
  - vm_compute. reflexivity.
  - repeat constructor; intros H; cbn in H; decompose [or] H;
      try discriminate; contradiction.
  - exists text. split; [exact E|]. rewrite Hp. vm_compute. reflexivity.
Defined.

End CsvExtras.
